(** * The content-catalog build step of the topicized viewer

    A shallow embedding of [topicized-viewer/scripts/load-content.cjs]:
    the script scans [<repo>/content], copies every file to
    [<repo>/public/content] under a name that carries a prefix of the MD5
    digest of its bytes, and writes the map from original to published
    paths to [<repo>/src/assets/content-catalog.json].

    The script itself is short; what it does is decided by the Node
    modules it calls ([crypto], [path], [fs-extra], [fast-glob]) and by the
    semantics of a plain JavaScript object.  Those are modelled here as
    executable definitions; the functions of the script are then written
    over them, statement by statement, in a state-and-exception monad over
    a file system. *)

From Stdlib Require Import ZArith List.
From Stdlib.Strings Require Import Ascii String Byte.
From Stdlib Require Import DecimalString.
From stdpp Require Import base option list gmap strings fin_maps.

Local Open Scope Z_scope.

(** ** MD5 ([crypto.createHash('md5')], RFC 1321)

    32-bit words are integers in [0, 2^32) with the wrap-around written
    out. *)
Module Md5.

Definition w32 (x : Z) : Z := x mod 2 ^ 32.

Definition rotl (x : Z) (n : Z) : Z :=
  w32 (Z.lor (Z.shiftl x n) (Z.shiftr x (32 - n))).

Definition not32 (x : Z) : Z := Z.lxor x 4294967295.

(** Per-round left rotations. *)
Definition shifts : list Z :=
  [ 7; 12; 17; 22; 7; 12; 17; 22; 7; 12; 17; 22; 7; 12; 17; 22;
    5; 9; 14; 20; 5; 9; 14; 20; 5; 9; 14; 20; 5; 9; 14; 20;
    4; 11; 16; 23; 4; 11; 16; 23; 4; 11; 16; 23; 4; 11; 16; 23;
    6; 10; 15; 21; 6; 10; 15; 21; 6; 10; 15; 21; 6; 10; 15; 21 ].

(** [floor (2^32 * abs (sin (i + 1)))] for [i] in [0, 64). *)
Definition sines : list Z :=
  [ 3614090360; 3905402710; 606105819; 3250441966;
    4118548399; 1200080426; 2821735955; 4249261313;
    1770035416; 2336552879; 4294925233; 2304563134;
    1804603682; 4254626195; 2792965006; 1236535329;
    4129170786; 3225465664; 643717713; 3921069994;
    3593408605; 38016083; 3634488961; 3889429448;
    568446438; 3275163606; 4107603335; 1163531501;
    2850285829; 4243563512; 1735328473; 2368359562;
    4294588738; 2272392833; 1839030562; 4259657740;
    2763975236; 1272893353; 4139469664; 3200236656;
    681279174; 3936430074; 3572445317; 76029189;
    3654602809; 3873151461; 530742520; 3299628645;
    4096336452; 1126891415; 2878612391; 4237533241;
    1700485571; 2399980690; 4293915773; 2240044497;
    1873313359; 4264355552; 2734768916; 1309151649;
    4149444226; 3174756917; 718787259; 3951481745 ].

Definition state : Type := Z * Z * Z * Z.

Definition init : state := (1732584193, 4023233417, 2562383102, 271733878).

(** The message is padded with [0x80], zeros up to 56 modulo 64, and its
    length in bits as a 64-bit little-endian integer. *)
Definition le_bytes (n : nat) (x : Z) : list Z :=
  map (fun i => (x / 2 ^ (8 * Z.of_nat i)) mod 256) (seq 0 n).

Definition pad (msg : list Z) : list Z :=
  let len := length msg in
  let zeros := ((119 - len mod 64) mod 64)%nat in
  msg ++ 128 :: repeat 0 zeros ++ le_bytes 8 ((8 * Z.of_nat len) mod 2 ^ 64).

Definition le_word (bs : list Z) : Z :=
  fold_right (fun b acc => b + 256 * acc) 0 bs.

Fixpoint words (n : nat) (bs : list Z) : list Z :=
  match n with
  | O => []
  | S n' => le_word (take 4 bs) :: words n' (drop 4 bs)
  end.

Definition round (m : list Z) (st : state) (i : nat) : state :=
  let '(a, b, c, d) := st in
  let f :=
    if (i <? 16)%nat then Z.lor (Z.land b c) (Z.land (not32 b) d)
    else if (i <? 32)%nat then Z.lor (Z.land d b) (Z.land (not32 d) c)
    else if (i <? 48)%nat then Z.lxor b (Z.lxor c d)
    else Z.lxor c (Z.lor b (not32 d)) in
  let g :=
    if (i <? 16)%nat then i
    else if (i <? 32)%nat then ((5 * i + 1) mod 16)%nat
    else if (i <? 48)%nat then ((3 * i + 5) mod 16)%nat
    else ((7 * i) mod 16)%nat in
  let f' := w32 (f + a + nth i sines 0 + nth g m 0) in
  (d, w32 (b + rotl f' (nth i shifts 0)), b, c).

Definition compress (st : state) (block : list Z) : state :=
  let m := words 16 block in
  let '(a, b, c, d) := st in
  let '(a', b', c', d') := fold_left (round m) (seq 0 64) st in
  (w32 (a + a'), w32 (b + b'), w32 (c + c'), w32 (d + d')).

Fixpoint blocks (n : nat) (bs : list Z) (st : state) : state :=
  match n with
  | O => st
  | S n' => blocks n' (drop 64 bs) (compress st (take 64 bs))
  end.

Definition digest (data : list byte) : list Z :=
  let bs := pad (map (fun b => Z.of_N (Byte.to_N b)) data) in
  let '(a, b, c, d) := blocks (length bs / 64) bs init in
  le_bytes 4 a ++ le_bytes 4 b ++ le_bytes 4 c ++ le_bytes 4 d.

Definition hexchars : list ascii :=
  list_ascii_of_string "0123456789abcdef".

Definition hex_digit (n : Z) : ascii := nth (Z.to_nat n) hexchars "0"%char.

Definition hex_byte (b : Z) : list ascii := [hex_digit (b / 16); hex_digit (b mod 16)].

(** [crypto.createHash('md5').update(buffer).digest('hex')] *)
Definition hex (data : list byte) : string :=
  string_of_list_ascii (concat (map hex_byte (digest data))).

End Md5.

(** ** Strings as JavaScript has them

    Strings are sequences of bytes (UTF-8); the script only cuts them at
    ASCII characters. *)
Local Open Scope string_scope.
Local Open Scope list_scope.

(** [s.slice(b, e)]: negative indices count from the end. *)
Definition js_slice (s : string) (b e : Z) : string :=
  let len := Z.of_nat (String.length s) in
  let from := if (b <? 0)%Z then Z.max (len + b) 0 else Z.min b len in
  let to := if (e <? 0)%Z then Z.max (len + e) 0 else Z.min e len in
  substring (Z.to_nat from) (Z.to_nat (Z.max (to - from) 0)) s.

(** [s.split(sep)] for a one-character separator. *)
Fixpoint js_split (sep : ascii) (s : string) : list string :=
  match s with
  | EmptyString => [EmptyString]
  | String c s' =>
      if Ascii.eqb c sep then EmptyString :: js_split sep s'
      else match js_split sep s' with
           | seg :: rest => String c seg :: rest
           | [] => [String c EmptyString]
           end
  end.

(** [parts.join(sep)] *)
Definition js_join (sep : string) (parts : list string) : string :=
  String.concat sep parts.

Definition starts_with (c : ascii) (s : string) : bool :=
  match s with
  | String c0 _ => Ascii.eqb c0 c
  | EmptyString => false
  end.

Fixpoint ends_with (c : ascii) (s : string) : bool :=
  match s with
  | EmptyString => false
  | String c0 EmptyString => Ascii.eqb c0 c
  | String _ s' => ends_with c s'
  end.

Fixpoint contains (c : ascii) (s : string) : bool :=
  match s with
  | EmptyString => false
  | String c0 s' => Ascii.eqb c0 c || contains c s'
  end.

(** [strip_suffix suf s] is [Some pre] when [s = pre ++ suf]. *)
Fixpoint strip_suffix (suf s : string) : option string :=
  if String.eqb s suf then Some EmptyString
  else match s with
       | EmptyString => None
       | String c s' => option_map (String c) (strip_suffix suf s')
       end.

(** ** The [path] module of Node (POSIX flavour)

    The definitions work on the list of components between ["/"]
    characters; they follow [lib/path.js] of Node case by case. *)
Module Path.

Definition sep : ascii := "/"%char.

Definition split (p : string) : list string := js_split sep p.

(** [normalizeString]: drop empty and ["."] components, let [".."] cancel
    the component before it.  [res] holds the components kept so far, the
    last one first. *)
Fixpoint normalizeSegs (allowAboveRoot : bool) (res segs : list string) : list string :=
  match segs with
  | [] => rev res
  | seg :: segs' =>
      if String.eqb seg "" || String.eqb seg "." then normalizeSegs allowAboveRoot res segs'
      else if String.eqb seg ".." then
        match res with
        | top :: res' =>
            if String.eqb top ".."
            then normalizeSegs allowAboveRoot (if allowAboveRoot then ".." :: res else res) segs'
            else normalizeSegs allowAboveRoot res' segs'
        | [] => normalizeSegs allowAboveRoot (if allowAboveRoot then [".."] else []) segs'
        end
      else normalizeSegs allowAboveRoot (seg :: res) segs'
  end.

Definition isAbsolute (p : string) : bool := starts_with sep p.

(** [path.posix.normalize] *)
Definition normalize (p : string) : string :=
  if String.eqb p "" then "."
  else
    let trailingSeparator := ends_with sep p in
    let res := js_join "/" (normalizeSegs (negb (isAbsolute p)) [] (split p)) in
    if String.eqb res "" then
      if isAbsolute p then "/" else if trailingSeparator then "./" else "."
    else
      (if isAbsolute p then "/" else "") +:+ res +:+ (if trailingSeparator then "/" else "").

(** [path.posix.join(...args)] *)
Definition join (args : list string) : string :=
  match filter (fun a => a ≠ "") args with
  | [] => "."
  | parts => normalize (js_join "/" parts)
  end.

Fixpoint dropTrailingEmpty (segs : list string) : list string :=
  match segs with
  | [] => []
  | seg :: segs' =>
      match dropTrailingEmpty segs' with
      | [] => if String.eqb seg "" then [] else [seg]
      | rest => seg :: rest
      end
  end.

(** [path.posix.dirname] *)
Definition dirname (p : string) : string :=
  if String.eqb p "" then "."
  else
    match dropTrailingEmpty (split p) with
    | [] => "/"
    | [_] => "."
    | segs =>
        let d := js_join "/" (removelast segs) in
        if String.eqb d "" then "/" else if String.eqb d "/" then "//" else d
    end.

(** The last component of [p] that is not empty (trailing separators are
    skipped). *)
Definition lastPart (p : string) : string :=
  List.last (dropTrailingEmpty (split p)) "".

(** The part of a component from its last dot on. *)
Fixpoint fromLastDot (seg : string) : option string :=
  match seg with
  | EmptyString => None
  | String c seg' =>
      match fromLastDot seg' with
      | Some e => Some e
      | None => if Ascii.eqb c "." then Some seg else None
      end
  end.

(** [path.posix.extname]: from the last dot of the last component, unless
    that dot starts the component or the component is [".."]. *)
Definition extname (p : string) : string :=
  let seg := lastPart p in
  match fromLastDot seg with
  | None => ""
  | Some e => if String.eqb e seg || String.eqb seg ".." then "" else e
  end.

(** [path.posix.basename(p, suffix)] *)
Definition basename (p : string) (suffix : string) : string :=
  let seg := lastPart p in
  if negb (String.eqb suffix "") && (String.length suffix <=? String.length p)%nat then
    if String.eqb suffix p then ""
    else
      match strip_suffix suffix seg, strip_suffix seg suffix with
      | Some name, _ => if String.eqb name "" then seg else name
      | None, Some _ =>
          (* the component ends inside the suffix: Node returns the path
             from the start of the component on *)
          js_join "/" (drop (length (dropTrailingEmpty (split p)) - 1) (split p))
      | None, None => seg
      end
  else seg.

(** How the operating system reads an absolute path: the components of
    its normal form. *)
Definition key_of_path (p : string) : list string :=
  normalizeSegs false [] (split p).

End Path.

(** ** The file system

    A file system is a finite map from absolute paths, as lists of
    components, to what is stored there.  The root directory is the empty
    list and always exists.  Symbolic links and special files are not
    modelled; of the permissions only whether a regular file may be read.
    The map is meant to be closed under parents (every entry lies in a
    directory); the operations below keep it so. *)
Inductive node : Type :=
| File (readable : bool) (data : list byte)
| Dir.

Inductive errno : Type :=
| ENOENT | ENOTDIR | EISDIR | EACCES | EEXIST
| ECOPY (* the errors fs-extra raises itself: same file, directory over file, ... *).

Inductive outcome (A : Type) : Type :=
| Ok (a : A)
| Throw (e : errno).
Arguments Ok {A} a.
Arguments Throw {A} e.

(** Computations that read and write the file system and may throw. *)
Definition M (A : Type) : Type := gmap (list string) node -> outcome A * gmap (list string) node.

Definition ret {A} (a : A) : M A := fun s => (Ok a, s).

Definition throw {A} (e : errno) : M A := fun s => (Throw e, s).

Definition bind {A B} (c : M A) (k : A -> M B) : M B :=
  fun s =>
    match c s with
    | (Ok a, s') => k a s'
    | (Throw e, s') => (Throw e, s')
    end.

Declare Scope fs_scope.
Delimit Scope fs_scope with fs.
Bind Scope fs_scope with M.
Notation "x <- c1 ;; c2" := (bind c1 (fun x => c2))
  (at level 100, c1 at next level, right associativity) : fs_scope.
Notation "c1 ;; c2" := (bind c1 (fun _ => c2))
  (at level 100, right associativity) : fs_scope.
Local Open Scope fs_scope.

(** [list.forEach(x => ...)] where the callback updates a local [acc]. *)
Fixpoint forEach {A B} (f : B -> A -> M B) (l : list A) (acc : B) : M B :=
  match l with
  | [] => ret acc
  | x :: l' => acc' <- f acc x ;; forEach f l' acc'
  end.

Definition entry (s : gmap (list string) node) (k : list string) : option node :=
  match k with
  | [] => Some Dir
  | _ => s !! k
  end.

Definition is_file (o : option node) : bool :=
  match o with
  | Some (File _ _) => true
  | _ => false
  end.

(** The prefixes of a path that are not the root, shortest first. *)
Fixpoint prefixes_ne (k : list string) : list (list string) :=
  match k with
  | [] => []
  | x :: k' => [x] :: map (cons x) (prefixes_ne k')
  end.

Definition parent (k : list string) : list string := removelast k.

Definition ancestors (k : list string) : list (list string) := prefixes_ne (parent k).

(** A path is blocked when one of its ancestors is a regular file; the
    system calls then fail with ENOTDIR, and with ENOENT when the path is
    merely absent. *)
Definition blocked (k : list string) (s : gmap (list string) node) : bool :=
  existsb (fun q => is_file (s !! q)) (ancestors k).

Definition missing (k : list string) (s : gmap (list string) node) : errno :=
  if blocked k s then ENOTDIR else ENOENT.

(** [fs.statSync].  A path is read through [Path.key_of_path], which
    drops a slash at its end; no path of the script has one. *)
Definition statSync (p : string) : M node := fun s =>
  match entry s (Path.key_of_path p) with
  | Some n => (Ok n, s)
  | None => (Throw (missing (Path.key_of_path p) s), s)
  end.

(** [fs.existsSync] *)
Definition existsSync (p : string) : M bool := fun s =>
  (Ok (bool_decide (is_Some (entry s (Path.key_of_path p)))), s).

(** [process.chdir]: the directory must exist; every path the script uses
    afterwards is absolute, so the working directory itself is not kept. *)
Definition chdir (p : string) : M unit :=
  n <- statSync p ;;
  match n with
  | Dir => ret tt
  | File _ _ => throw ENOTDIR
  end.

(** [fs.readFileSync] *)
Definition readFileSync (p : string) : M (list byte) :=
  n <- statSync p ;;
  match n with
  | File true data => ret data
  | File false _ => throw EACCES
  | Dir => throw EISDIR
  end.

(** [fs.unlinkSync] *)
Definition unlinkSync (p : string) : M unit :=
  n <- statSync p ;;
  match n with
  | File _ _ => fun s => (Ok tt, delete (Path.key_of_path p) s)
  | Dir => throw EISDIR
  end.

(** [fs.writeFileSync]: the parent directory must exist; an existing file
    keeps its mode.  A file carries a read bit and no write bit: this is
    the call on a file that may be written, and the statements on it say
    what a successful call leaves or name the error of one cause. *)
Definition writeFileSync (p : string) (data : list byte) : M unit := fun s =>
  let k := Path.key_of_path p in
  match entry s k with
  | Some Dir => (Throw EISDIR, s)
  | Some (File r _) => (Ok tt, <[k := File r data]> s)
  | None =>
      match entry s (parent k) with
      | Some Dir => (Ok tt, <[k := File true data]> s)
      | Some (File _ _) => (Throw ENOTDIR, s)
      | None => (Throw (missing k s), s)
      end
  end.

(** [fs.copyFileSync], followed by the [chmod] to the mode of the source
    that fs-extra does. *)
Definition copyFileSync (src dest : string) : M unit :=
  data <- readFileSync src ;;
  fun s =>
    let k := Path.key_of_path dest in
    match entry s k, entry s (parent k) with
    | Some Dir, _ => (Throw EISDIR, s)
    | _, Some Dir => (Ok tt, <[k := File true data]> s)
    | _, Some (File _ _) => (Throw ENOTDIR, s)
    | _, None => (Throw (missing k s), s)
    end.

(** [fs.removeSync] of fs-extra ([rm -rf]): everything at and below the
    path goes; an absent path is not an error.  Directories carry no
    permissions: this is the call on a tree that may be changed. *)
Definition removeSync (p : string) : M unit := fun s =>
  let k := Path.key_of_path p in
  if blocked k s then (Throw ENOTDIR, s)
  else (Ok tt, filter (fun kv => ¬ k `prefix_of` kv.1) s).

(** The file system with a directory at [k] and at each of its
    ancestors. *)
Definition mkdirs (k : list string) (s : gmap (list string) node) : gmap (list string) node :=
  foldr (fun q s' => <[q := Dir]> s') s (prefixes_ne k).

(** [fs.ensureDirSync] of fs-extra ([mkdir -p]). *)
Definition ensureDirSync (p : string) : M unit := fun s =>
  let k := Path.key_of_path p in
  if blocked k s then (Throw ENOTDIR, s)
  else if is_file (s !! k) then (Throw EEXIST, s)
  else (Ok tt, mkdirs k s).

(** Copying a directory: its whole subtree is written below the
    destination.  (The script only copies regular files.) *)
Definition copyTree (ks kd : list string) (s : gmap (list string) node) : gmap (list string) node :=
  foldr (fun kv s' => <[kd ++ drop (length ks) kv.1 := kv.2]> s') s
        (map_to_list (filter (fun kv => ks `prefix_of` kv.1) s)).

(** [fs.copySync(src, dest)] of fs-extra with its default options
    (overwrite, no filter): check the two paths, create the parent
    directory of [dest] when it is missing, then copy. *)
Definition copySync (src dest : string) : M unit :=
  srcStat <- statSync src ;;
  destStat <- (fun s =>
     match entry s (Path.key_of_path dest) with
     | Some n => (Ok (Some n), s)
     | None => if blocked (Path.key_of_path dest) s then (Throw ENOTDIR, s) else (Ok None, s)
     end) ;;
  (match srcStat, destStat with
   | _, None => ret tt
   | File _ _, Some Dir => throw ECOPY
   | Dir, Some (File _ _) => throw ECOPY
   | _, Some _ =>
       if bool_decide (Path.key_of_path src = Path.key_of_path dest) then throw ECOPY else ret tt
   end) ;;
  (if bool_decide (Path.key_of_path src `prefix_of` Path.key_of_path dest) then throw ECOPY else ret tt) ;;
  parentExists <- existsSync (Path.dirname dest) ;;
  (if parentExists then ret tt else ensureDirSync (Path.dirname dest)) ;;
  match srcStat with
  | File _ _ =>
      (match destStat with Some _ => unlinkSync dest | None => ret tt end) ;;
      copyFileSync src dest
  | Dir =>
      ensureDirSync dest ;;
      fun s => (Ok tt, copyTree (Path.key_of_path src) (Path.key_of_path dest) s)
  end.

(** ** fast-glob

    [fg.sync('**/*', { cwd, onlyFiles: true, dot })]: the regular files
    below [cwd], as paths relative to it with ["/"] between components.
    Without [dot], a file is left out when its name or the name of a
    directory on the way to it starts with a dot.  A directory that does
    not exist yields no entries: fast-glob passes over ENOENT and reports
    every other error.

    The entries come in the order of the model's map, which is not the
    order in which fast-glob walks a tree: what is stated of the result
    is stated up to permutation.  Directories carry no permissions and
    names are the bytes on disk, where Node decodes them as UTF-8: this
    is the call on a tree whose directories may be read, and its result
    is the real one when the names are well-formed UTF-8 ([utf8_ok]). *)
Definition visible (seg : string) : bool := negb (starts_with "." seg).

Definition globbed (k : list string) (dot : bool) (kv : list string * node) : bool :=
  is_file (Some kv.2)
  && bool_decide (k `prefix_of` kv.1)
  && negb (bool_decide (kv.1 = k))
  && (dot || forallb visible (drop (length k) kv.1)).

Definition fg_sync_all (cwd : string) (dot : bool) : M (list string) := fun s =>
  let k := Path.key_of_path cwd in
  match entry s k with
  | Some Dir =>
      (Ok (map (fun kv => js_join "/" (drop (length k) kv.1))
               (map_to_list (filter (fun kv => globbed k dot kv = true) s))), s)
  | Some (File _ _) => (Throw ENOTDIR, s)
  | None => if blocked k s then (Throw ENOTDIR, s) else (Ok [], s)
  end.

(** ** Plain JavaScript objects with string values, and JSON *)
Module Js.

(** The own properties of an object, in the order of their creation. *)
Definition object : Type := list (string * string).

Definition empty : object := [].

Definition has (o : object) (k : string) : bool :=
  existsb (fun kv => String.eqb kv.1 k) o.

Definition get (o : object) (k : string) : option string :=
  option_map snd (find (fun kv => String.eqb kv.1 k) o).

Fixpoint update (o : object) (k v : string) : object :=
  match o with
  | [] => []
  | (k', v') :: o' => if String.eqb k' k then (k', v) :: o' else (k', v') :: update o' k v
  end.

(** [o[k] = v] on an object created by [{}], for a string [v].  The key
    ["__proto__"] is an accessor inherited from [Object.prototype] whose
    setter ignores a value that is neither an object nor null: the
    assignment creates no property. *)
Definition set (o : object) (k v : string) : object :=
  if String.eqb k "__proto__" then o
  else if has o k then update o k v
  else o ++ [(k, v)].

(** The keys in the order of the representation.  A program sees the
    keys through [keys] below, which puts array indices first. *)
Definition keys_in_creation_order (o : object) : list string := map fst o.

(** A key is an array index when it is the decimal form of an integer
    below [2^32 - 1]. *)
Fixpoint parse_dec (acc : N) (s : string) : option N :=
  match s with
  | EmptyString => Some acc
  | String c s' =>
      let n := N_of_ascii c in
      if (48 <=? n)%N && (n <=? 57)%N then parse_dec (10 * acc + (n - 48))%N s' else None
  end.

Definition array_index (k : string) : option N :=
  match k with
  | EmptyString => None
  | String c s' =>
      if Ascii.eqb c "0" && negb (String.eqb s' "") then None
      else match parse_dec 0 k with
           | Some n => if (n <? 2 ^ 32 - 1)%N then Some n else None
           | None => None
           end
  end.

Fixpoint insert_by_index (x : N * (string * string)) (l : list (N * (string * string)))
  : list (N * (string * string)) :=
  match l with
  | [] => [x]
  | y :: l' => if (x.1 <=? y.1)%N then x :: l else y :: insert_by_index x l'
  end.

(** The order in which [JSON.stringify] and [Object.keys] visit the
    properties: array indices in ascending order, then the other keys in
    the order of their creation. *)
Definition properties (o : object) : list (string * string) :=
  map snd
      (foldr insert_by_index []
             (omap (fun kv => option_map (fun n => (n, kv)) (array_index kv.1)) o))
  ++ filter (fun kv => array_index kv.1 = None) o.

Definition keys (o : object) : list string := map fst (properties o).

Definition hex_digit (n : N) : ascii := nth (N.to_nat n) Md5.hexchars "0"%char.

Definition quote_char (c : ascii) : string :=
  let n := N_of_ascii c in
  if (n =? 34)%N then String "\" (String c "")
  else if (n =? 92)%N then "\\"
  else if (n =? 8)%N then "\b"
  else if (n =? 12)%N then "\f"
  else if (n =? 10)%N then "\n"
  else if (n =? 13)%N then "\r"
  else if (n =? 9)%N then "\t"
  else if (n <? 32)%N then "\u00" +:+ String (hex_digit (n / 16)) (String (hex_digit (n mod 16)) "")
  else String c "".

Fixpoint quote_chars (s : string) : string :=
  match s with
  | EmptyString => ""
  | String c s' => quote_char c +:+ quote_chars s'
  end.

Definition dquote : string := String "034" "".

Definition quote (s : string) : string := dquote +:+ quote_chars s +:+ dquote.

Definition newline : string := String "010" "".

(** [JSON.stringify(o, null, spaces)] *)
Definition stringify (o : object) (spaces : nat) : string :=
  match properties o with
  | [] => "{}"
  | props =>
      let indent := string_of_list_ascii (repeat " "%char spaces) in
      "{" +:+ newline
      +:+ js_join ("," +:+ newline) (map (fun kv => indent +:+ quote kv.1 +:+ ": " +:+ quote kv.2) props)
      +:+ newline +:+ "}"
  end.

(** [Boolean(x)] for an option that is a boolean when present. *)
Definition Boolean (x : option bool) : bool := default false x.

(** The decimal form of a length in a template literal. *)
Definition of_nat (n : nat) : string := NilZero.string_of_uint (Nat.to_uint n).

End Js.

(** [fs.writeJsonSync(file, obj, { spaces })] of fs-extra: the JSON text
    and a final newline. *)
Definition writeJsonSync (file : string) (obj : Js.object) (spaces : nat) : M unit :=
  writeFileSync file (list_byte_of_string (Js.stringify obj spaces +:+ Js.newline)).

(** ** The script *)

Definition NUM_HEX_CHARS : Z := 16.

Record ScanOpts : Type := { dot : option bool }.

Section Script.

(** [REPO_ROOT = path.resolve(__dirname, '..')] is an absolute path in
    normal form; [repo] lists its components. *)
Variable repo : list string.

Definition REPO_ROOT : string := "/" +:+ js_join "/" repo.
Definition CONTENT_DIR : string := Path.join [REPO_ROOT; "content"].
Definition PUBLIC_CONTENT_DIR : string := Path.join [REPO_ROOT; "public"; "content"].
Definition CATALOG_FILE : string :=
  Path.join [REPO_ROOT; "src"; "assets"; "content-catalog.json"].

Definition scanRecursive (rootDir : string) (opts : ScanOpts) : M (list string) :=
  entries <- fg_sync_all rootDir (Js.Boolean (dot opts)) ;;
  ret (map (fun e => js_join "/" (js_split Path.sep e)) entries).

Definition clearPublicContent : M unit :=
  removeSync PUBLIC_CONTENT_DIR ;;
  ensureDirSync PUBLIC_CONTENT_DIR.

Definition getContentFiles : M (list string) :=
  scanRecursive CONTENT_DIR {| dot := None |}.

(** The fingerprint of line 69. *)
Definition fingerprint (buffer : list byte) : string :=
  js_slice (Md5.hex buffer) 0 NUM_HEX_CHARS.

Definition hashedName (relPath hash : string) : string :=
  let ext := Path.extname relPath in
  let name := Path.basename relPath ext in
  name +:+ "." +:+ hash +:+ ext.

Definition outputRel (relPath hash : string) : string :=
  Path.join [Path.dirname relPath; hashedName relPath hash].

(** The body of the callback of [processFiles] (lines 67 to 80). *)
Definition processFile (catalog : Js.object) (relPath : string) : M Js.object :=
  let src := Path.join [CONTENT_DIR; relPath] in
  buffer <- readFileSync src ;;
  let hash := fingerprint buffer in
  let dest := Path.join [PUBLIC_CONTENT_DIR; outputRel relPath hash] in
  copySync src dest ;;
  ret (Js.set catalog relPath ("/" +:+ Path.join ["content"; outputRel relPath hash])).

Definition processFiles (fileList : list string) : M Js.object :=
  forEach processFile fileList Js.empty.

Definition writeCatalog (catalog : Js.object) : M unit :=
  ensureDirSync (Path.dirname CATALOG_FILE) ;;
  writeJsonSync CATALOG_FILE catalog 2.

(** [main] returns the line it prints. *)
Definition main : M string :=
  chdir REPO_ROOT ;;
  clearPublicContent ;;
  files <- getContentFiles ;;
  catalog <- processFiles files ;;
  writeCatalog catalog ;;
  ret ("Processed " +:+ Js.of_nat (length files) +:+ " files. Catalog written to " +:+ CATALOG_FILE).

End Script.

(** ** Vocabulary of the statements *)

(** A name a directory entry can have: not empty, no separator in it, and
    neither ["."] nor [".."]. *)
Definition name_ok (seg : string) : bool :=
  negb (String.eqb seg "") && negb (contains "/" seg)
  && negb (String.eqb seg ".") && negb (String.eqb seg "..").

(** Every path of the file system is made of such names. *)
Definition fs_names_ok (s : gmap (list string) node) : bool :=
  forallb (fun kv => forallb name_ok kv.1) (map_to_list s).

(** The text of an absolute and of a relative path with the given
    components. *)
Definition abs_path (ks : list string) : string := "/" +:+ js_join "/" ks.
Definition rel_path (ks : list string) : string := js_join "/" ks.

Definition content_key (repo : list string) : list string := repo ++ ["content"].
Definition public_key (repo : list string) : list string := repo ++ ["public"; "content"].
Definition assets_key (repo : list string) : list string := repo ++ ["src"; "assets"].
Definition catalog_key (repo : list string) : list string :=
  repo ++ ["src"; "assets"; "content-catalog.json"].

(** The Fingerprinter of the specification: lines 67 to 69 of the script
    on their own. *)
Definition Fingerprinter (repo : list string) (relPath : string) : M string :=
  buffer <- readFileSync (Path.join [CONTENT_DIR repo; relPath]) ;;
  ret (fingerprint buffer).

(** The name under which a file called [name] with content [data] is
    published. *)
Definition published_name (name : string) (data : list byte) : string :=
  hashedName name (fingerprint data).

(** Where the file with relative components [ks] and content [data] is
    published, and the URL the catalog gives for it: the directories of
    [ks] are kept and the last component is renamed. *)
Definition published_rel (ks : list string) (data : list byte) : list string :=
  removelast ks ++ [published_name (List.last ks "") data].

Definition published_key (repo ks : list string) (data : list byte) : list string :=
  public_key repo ++ published_rel ks data.

Definition published_url (ks : list string) (data : list byte) : string :=
  abs_path ("content" :: published_rel ks data).

(** The relative components of the files the scanner reports, in its
    order. *)
Definition scanned (repo : list string) (s : gmap (list string) node) : list (list string) :=
  map (fun kv => drop (length (content_key repo)) kv.1)
      (map_to_list (filter (fun kv => globbed (content_key repo) false kv = true) s)).

(** The file system once the output root has been emptied. *)
Definition cleared (repo : list string) (s : gmap (list string) node) : gmap (list string) node :=
  mkdirs (public_key repo) (filter (fun kv => ¬ public_key repo `prefix_of` kv.1) s).

(** The bytes of the catalog artifact. *)
Definition catalog_bytes (catalog : Js.object) : list byte :=
  list_byte_of_string (Js.stringify catalog 2 +:+ Js.newline).

(** The file system once the catalog has been written. *)
Definition with_catalog (repo : list string) (catalog : Js.object)
    (s : gmap (list string) node) : gmap (list string) node :=
  <[catalog_key repo :=
      File (match s !! catalog_key repo with Some (File r _) => r | _ => true end)
           (catalog_bytes catalog)]>
    (mkdirs (assets_key repo) s).

Definition bytes_of (s : string) : list byte := list_byte_of_string s.

(** Whether a string, read as bytes, is well-formed UTF-8 (RFC 3629: no
    overlong form, no surrogate, nothing above U+10FFFF).  Node decodes
    the names it reads from a directory as UTF-8, and a name comes back
    as it is on disk only when it is well formed. *)
Definition utf8_tail (c : ascii) : bool :=
  (128 <=? N_of_ascii c)%N && (N_of_ascii c <=? 191)%N.

Fixpoint utf8_ok (s : string) : bool :=
  match s with
  | EmptyString => true
  | String c s1 =>
      let n := N_of_ascii c in
      if (n <? 128)%N then utf8_ok s1
      else if (194 <=? n)%N && (n <=? 223)%N then
        match s1 with
        | String c1 s2 => utf8_tail c1 && utf8_ok s2
        | _ => false
        end
      else if (224 <=? n)%N && (n <=? 239)%N then
        match s1 with
        | String c1 (String c2 s3) =>
            (if (n =? 224)%N then (160 <=? N_of_ascii c1)%N && (N_of_ascii c1 <=? 191)%N
             else if (n =? 237)%N then (128 <=? N_of_ascii c1)%N && (N_of_ascii c1 <=? 159)%N
             else utf8_tail c1)
            && utf8_tail c2 && utf8_ok s3
        | _ => false
        end
      else if (240 <=? n)%N && (n <=? 244)%N then
        match s1 with
        | String c1 (String c2 (String c3 s4)) =>
            (if (n =? 240)%N then (144 <=? N_of_ascii c1)%N && (N_of_ascii c1 <=? 191)%N
             else if (n =? 244)%N then (128 <=? N_of_ascii c1)%N && (N_of_ascii c1 <=? 143)%N
             else utf8_tail c1)
            && utf8_tail c2 && utf8_tail c3 && utf8_ok s4
        | _ => false
        end
      else false
  end.

(** Every name of the file system is well-formed UTF-8. *)
Definition fs_utf8_ok (s : gmap (list string) node) : bool :=
  forallb (fun kv => forallb utf8_ok kv.1) (map_to_list s).

(** ** Sample file systems *)

Definition sample_repo : list string := ["srv"; "viewer"].

(** A repository with two documents, an image with the bytes of one of
    them, a hidden file, and the leftover of an earlier run. *)
Definition sample_fs : gmap (list string) node :=
  list_to_map
    [ (["srv"], Dir);
      (["srv"; "viewer"], Dir);
      (["srv"; "viewer"; "content"], Dir);
      (["srv"; "viewer"; "content"; "docs"], Dir);
      (["srv"; "viewer"; "content"; "docs"; "a.txt"], File true (bytes_of "hello"));
      (["srv"; "viewer"; "content"; "docs"; "b.txt"], File true (bytes_of "world"));
      (["srv"; "viewer"; "content"; "img"], Dir);
      (["srv"; "viewer"; "content"; "img"; "copy.bin"], File true (bytes_of "hello"));
      (["srv"; "viewer"; "content"; ".hidden"], File true (bytes_of "x"));
      (["srv"; "viewer"; "public"], Dir);
      (["srv"; "viewer"; "public"; "content"], Dir);
      (["srv"; "viewer"; "public"; "content"; "old.0123456789abcdef.txt"], File true (bytes_of "stale")) ].

(** The same repository with no content directory. *)
Definition no_content_fs : gmap (list string) node :=
  list_to_map
    [ (["srv"], Dir);
      (["srv"; "viewer"], Dir);
      (["srv"; "viewer"; "public"], Dir) ].

(** Another file system, where the bytes of [docs/a.txt] are found
    under another name. *)
Definition other_fs : gmap (list string) node :=
  <[ ["srv"; "viewer"; "content"; "img"; "copy.bin"] := File true (bytes_of "hello") ]> no_content_fs.

(** A content root one of whose files may not be read. *)
Definition unreadable_fs : gmap (list string) node :=
  list_to_map
    [ (["srv"], Dir);
      (["srv"; "viewer"], Dir);
      (["srv"; "viewer"; "content"], Dir);
      (["srv"; "viewer"; "content"; "a.txt"], File true (bytes_of "world"));
      (["srv"; "viewer"; "content"; "z.txt"], File true (bytes_of "hello"));
      (["srv"; "viewer"; "content"; "secret.txt"], File false (bytes_of "hello"));
      (["srv"; "viewer"; "src"], Dir);
      (["srv"; "viewer"; "src"; "assets"], Dir);
      (["srv"; "viewer"; "src"; "assets"; "content-catalog.json"], File true (bytes_of "{}")) ].

(** The content root of the scenario: [docs/a.txt] and [docs/b.txt]. *)
Definition scenario_fs : gmap (list string) node :=
  list_to_map
    [ (["srv"], Dir);
      (["srv"; "viewer"], Dir);
      (["srv"; "viewer"; "content"], Dir);
      (["srv"; "viewer"; "content"; "docs"], Dir);
      (["srv"; "viewer"; "content"; "docs"; "a.txt"], File true (bytes_of "hello"));
      (["srv"; "viewer"; "content"; "docs"; "b.txt"], File true (bytes_of "world")) ].

(** A content root with a file called [__proto__]. *)
Definition proto_fs : gmap (list string) node :=
  list_to_map
    [ (["srv"], Dir);
      (["srv"; "viewer"], Dir);
      (["srv"; "viewer"; "content"], Dir);
      (["srv"; "viewer"; "content"; "__proto__"], File true (bytes_of "hello")) ].

(** A repository where [content], [public] and [src] are regular
    files. *)
Definition files_in_the_way_fs : gmap (list string) node :=
  list_to_map
    [ (["srv"], Dir);
      (["srv"; "viewer"], Dir);
      (["srv"; "viewer"; "content"], File true (bytes_of "x"));
      (["srv"; "viewer"; "public"], File true (bytes_of "y"));
      (["srv"; "viewer"; "src"], File true (bytes_of "z"));
      (["srv"; "viewer"; "keep.txt"], File true (bytes_of "kept")) ].



(** A content root where a directory has the name under which the file
    [a.txt] next to it is published. *)
Definition clash_fs : gmap (list string) node :=
  list_to_map
    [ (["srv"], Dir);
      (["srv"; "viewer"], Dir);
      (["srv"; "viewer"; "content"], Dir);
      (["srv"; "viewer"; "content"; "a.txt"], File true (bytes_of "hello"));
      (["srv"; "viewer"; "content"; "a.5d41402abc4b2a76.txt"], Dir);
      (["srv"; "viewer"; "content"; "a.5d41402abc4b2a76.txt"; "x.txt"], File true (bytes_of "world")) ].

(** A content root with hidden files only, and the output of an earlier
    run. *)
Definition hidden_only_fs : gmap (list string) node :=
  list_to_map
    [ (["srv"], Dir);
      (["srv"; "viewer"], Dir);
      (["srv"; "viewer"; "content"], Dir);
      (["srv"; "viewer"; "content"; ".hidden"], File true (bytes_of "x"));
      (["srv"; "viewer"; "content"; ".git"], Dir);
      (["srv"; "viewer"; "content"; ".git"; "config"], File true (bytes_of "y"));
      (["srv"; "viewer"; "public"], Dir);
      (["srv"; "viewer"; "public"; "content"], Dir);
      (["srv"; "viewer"; "public"; "content"; "old.0123456789abcdef.txt"], File true (bytes_of "stale")) ].

(** A repository where the place of the published copy of [a.txt] is
    taken by a file with other bytes, and [public/content/docs] is
    missing. *)
Definition stale_copy_fs : gmap (list string) node :=
  list_to_map
    [ (["srv"], Dir);
      (["srv"; "viewer"], Dir);
      (["srv"; "viewer"; "content"], Dir);
      (["srv"; "viewer"; "content"; "a.txt"], File true (bytes_of "hello"));
      (["srv"; "viewer"; "content"; "docs"], Dir);
      (["srv"; "viewer"; "content"; "docs"; "b.txt"], File true (bytes_of "world"));
      (["srv"; "viewer"; "public"], Dir);
      (["srv"; "viewer"; "public"; "content"], Dir);
      (["srv"; "viewer"; "public"; "content"; "a.5d41402abc4b2a76.txt"], File false (bytes_of "stale")) ].

(** ** Predicates of the statements and proofs *)

(** A path all of whose components are names. *)
Definition names_ok (ks : list string) : Prop := Forall (fun x => name_ok x = true) ks.

(** A component that [normalize] drops, or a name. *)
Definition clean (x : string) : Prop := x = "" ∨ x = "." ∨ name_ok x = true.

(** How [extname] and [basename] cut a name in two. *)
Inductive name_parts (b : string) : string → string → Prop :=
| parts_no_ext :
    Path.extname b = "" →
    contains "." b = false ∨ (∃ rest, b = String "." rest ∧ contains "." rest = false) →
    name_parts b b ""
| parts_ext n e' :
    b = n +:+ String "." e' → n ≠ "" → contains "." e' = false →
    Path.extname b = String "." e' → name_parts b n (String "." e').

(** [local K c]: what [c] returns and what it leaves in the region [K]
    depends on the region only, and [c] changes nothing outside it. *)
Definition agree (K : list string → Prop) (s t : gmap (list string) node) : Prop :=
  ∀ j, K j → s !! j = t !! j.

Definition local {A} (K : list string → Prop) (c : M A) : Prop :=
  ∀ s t, agree K s t →
    (c s).1 = (c t).1 ∧ agree K (c s).2 (c t).2 ∧ (∀ j, ¬ K j → (c s).2 !! j = s !! j).

Definition closed_down (K : list string → Prop) : Prop :=
  ∀ j q, K j → q `prefix_of` j → K q.

Definition covers (K : list string → Prop) (k : list string) : Prop :=
  ∀ j, k `prefix_of` j → K j.

(** The region the script works in: the content root, the output root,
    what lies below them and the directories above them. *)
Definition near (k j : list string) : Prop := j `prefix_of` k ∨ k `prefix_of` j.

Definition work_region (repo : list string) (j : list string) : Prop :=
  near (content_key repo) j ∨ near (public_key repo) j.

#[local] Instance work_region_dec repo j : Decision (work_region repo j).
Proof. unfold work_region, near. apply _. Defined.

(** Below the content root every path is made of names. *)
Definition content_names_ok (repo : list string) (s : gmap (list string) node) : Prop :=
  ∀ ks n, s !! (content_key repo ++ ks) = Some n → names_ok ks.

(** What a step does to the file system, whatever its outcome: outside
    the output root nothing changes, except that a missing directory on
    the way to the output root may be created. *)
Definition step_frame (repo : list string) (s s' : gmap (list string) node) : Prop :=
  ∀ j, ¬ (public_key repo `prefix_of` j ∧ j ≠ public_key repo) →
       s' !! j = s !! j
       ∨ (s !! j = None ∧ s' !! j = Some Dir ∧ j ≠ [] ∧ j `prefix_of` public_key repo).

(** The bytes of the file at [ks] below the content root. *)
Definition content_data (repo : list string) (s : gmap (list string) node) (ks : list string)
  : list byte :=
  match s !! (content_key repo ++ ks) with
  | Some (File _ data) => data
  | _ => []
  end.

(** A list of files given by the components of their relative paths. *)
Definition files_ok (kss : list (list string)) : Prop :=
  Forall (fun ks => names_ok ks ∧ ks ≠ []) kss.

(** The directories above every entry at or below the output root
    exist. *)
Definition public_closed (repo : list string) (s : gmap (list string) node) : Prop :=
  ∀ j n, s !! j = Some n → public_key repo `prefix_of` j →
    ∀ q, q ∈ ancestors j → s !! q = Some Dir.

(** The files [main] hands to [processFiles], as components. *)
Definition scan_list (repo : list string) (s : gmap (list string) node) : list (list string) :=
  match entry s (content_key repo) with
  | Some Dir => scanned repo s
  | _ => []
  end.

(** The line [main] prints. *)
Definition main_message (repo : list string) (n : nat) : string :=
  "Processed " +:+ Js.of_nat n +:+ " files. Catalog written to " +:+ CATALOG_FILE repo.

(** Outside the output root and apart from the catalog file, a step
    changes nothing except that it may create a missing directory above
    the output root or above the catalog. *)
Definition outer_frame (repo : list string) (s s' : gmap (list string) node) : Prop :=
  ∀ j, ¬ public_key repo `prefix_of` j → j ≠ catalog_key repo →
       s' !! j = s !! j
       ∨ (s !! j = None ∧ s' !! j = Some Dir ∧ j ≠ []
          ∧ (j `prefix_of` public_key repo ∨ j `prefix_of` assets_key repo)).

(** The property that a scanned file adds to the catalog: none when its
    relative path is [__proto__], see [Js.set]. *)
Definition catalog_entry (repo : list string) (s : gmap (list string) node)
    (ks : list string) : Js.object :=
  if String.eqb (rel_path ks) "__proto__" then []
  else [(rel_path ks, published_url ks (content_data repo s ks))].

Definition catalog_of (repo : list string) (s : gmap (list string) node)
    (kss : list (list string)) : Js.object :=
  concat (map (catalog_entry repo s) kss).

(** * Facts *)

(** ** The models of the libraries on known values *)

(** MD5 on the empty input, on a short one, and on inputs whose padding
    takes one and two blocks. *)
Example md5_empty : Md5.hex [] = "d41d8cd98f00b204e9800998ecf8427e"%string.
Proof. vm_compute. reflexivity. Qed.

Example md5_hello : Md5.hex (bytes_of "hello") = "5d41402abc4b2a76b9719d911017c592"%string.
Proof. vm_compute. reflexivity. Qed.

Example md5_a70 : Md5.hex (repeat "a"%byte 70) = "0f5c6c4e740bfcc08c3c26ccb2673d46"%string.
Proof. vm_compute. reflexivity. Qed.

Example md5_a56 : Md5.hex (repeat "a"%byte 56) = "3b0c8ac703f828b04c6c197006d17218"%string.
Proof. vm_compute. reflexivity. Qed.

Example extname_values :
  Path.extname "index.coffee.md" = ".md" ∧ Path.extname "index." = "."
  ∧ Path.extname "index" = "" ∧ Path.extname ".index" = ""
  ∧ Path.extname ".index.md" = ".md" ∧ Path.extname "a/b.d/c" = ""
  ∧ Path.extname ".." = "" ∧ Path.extname "a/..b" = ".b"
  ∧ Path.extname "x.txt//" = ".txt" ∧ Path.extname "a.." = ".".
Proof. vm_compute. repeat split. Qed.

Example basename_values :
  Path.basename "/foo/bar/quux.html" ".html" = "quux"
  ∧ Path.basename "/foo/bar/quux.html" "" = "quux.html"
  ∧ Path.basename "a/.txt" ".txt" = ".txt" ∧ Path.basename "b.txt/" ".txt" = "b"
  ∧ Path.basename "x/b//" "ab" = "b//" ∧ Path.basename "aaa/b" "a/b" = "b"
  ∧ Path.basename "///" "ab" = "///" ∧ Path.basename "index." "." = "index".
Proof. vm_compute. repeat split. Qed.

Example dirname_values :
  Path.dirname "/foo/bar/baz/asdf/quux" = "/foo/bar/baz/asdf"
  ∧ Path.dirname "a" = "." ∧ Path.dirname "/a" = "/" ∧ Path.dirname "//x" = "//"
  ∧ Path.dirname "a//b" = "a/" ∧ Path.dirname "/a/b/" = "/a" ∧ Path.dirname "a/" = "."
  ∧ Path.dirname "///" = "/" ∧ Path.dirname "" = "." ∧ Path.dirname "docs/a.txt" = "docs".
Proof. vm_compute. repeat split. Qed.

Example join_values :
  Path.join ["/foo"; "bar"; "baz/asdf"; "quux"; ".."] = "/foo/bar/baz/asdf"
  ∧ Path.join ["."; "a.x.txt"] = "a.x.txt" ∧ Path.join ["/"; "content"] = "/content"
  ∧ Path.join [""; ""] = "."
  ∧ Path.normalize "/foo/bar//baz/asdf/quux/.." = "/foo/bar/baz/asdf"
  ∧ Path.normalize "../../a/../b/" = "../../b/" ∧ Path.normalize "./" = "./"
  ∧ Path.normalize "/.." = "/" ∧ Path.normalize "a/.." = "."
  ∧ Path.normalize "a/../.." = "..".
Proof. vm_compute. repeat split. Qed.

Example slice_values :
  js_slice "abcdef" 0 3 = "abc" ∧ js_slice "abcdef" 2 100 = "cdef"
  ∧ js_slice "abcdef" (-2) 100 = "ef" ∧ js_slice "abc" 2 1 = "".
Proof. vm_compute. repeat split. Qed.

(** ** Strings *)

Lemma app_String c s t : String c s +:+ t = String c (s +:+ t).
Proof. reflexivity. Qed.

Lemma app_empty_l s : "" +:+ s = s.
Proof. reflexivity. Qed.

Lemma app_empty_r s : s +:+ "" = s.
Proof. induction s as [|c s IH]; [done|]. by rewrite app_String, IH. Qed.

Lemma app_assoc_s s t u : (s +:+ t) +:+ u = s +:+ t +:+ u.
Proof. induction s as [|c s IH]; [done|]. by rewrite !app_String, IH. Qed.

Lemma app_length_s s t : String.length (s +:+ t) = (String.length s + String.length t)%nat.
Proof. induction s as [|c s IH]; [done|]. rewrite app_String. simpl. by rewrite IH. Qed.

Lemma app_eq_empty s t : s +:+ t = "" → s = "" ∧ t = "".
Proof. destruct s; [done|]. by rewrite app_String. Qed.

Lemma app_inv_tail s1 s2 t : s1 +:+ t = s2 +:+ t → s1 = s2.
Proof.
  revert s2. induction s1 as [|c s1 IH]; intros [|c2 s2] H; try done.
  - apply (f_equal String.length) in H. rewrite app_empty_l, app_String in H.
    simpl in H. rewrite app_length_s in H. lia.
  - apply (f_equal String.length) in H. rewrite app_empty_l, app_String in H.
    simpl in H. rewrite app_length_s in H. lia.
  - rewrite !app_String in H. injection H as -> H. f_equal. by apply IH.
Qed.

Lemma app_inv_len s1 s2 t1 t2 :
  s1 +:+ t1 = s2 +:+ t2 → String.length t1 = String.length t2 → s1 = s2 ∧ t1 = t2.
Proof.
  revert s2. induction s1 as [|c s1 IH]; intros [|c2 s2] H Hl.
  - done.
  - apply (f_equal String.length) in H. rewrite app_empty_l, app_String in H.
    simpl in H. rewrite app_length_s in H. lia.
  - apply (f_equal String.length) in H. rewrite app_empty_l, app_String in H.
    simpl in H. rewrite app_length_s in H. lia.
  - rewrite !app_String in H. injection H as -> H.
    destruct (IH _ H Hl) as [-> ->]. done.
Qed.

Lemma contains_app c s t : contains c (s +:+ t) = contains c s || contains c t.
Proof.
  induction s as [|c0 s IH]; [done|]. rewrite app_String. simpl.
  rewrite IH. by rewrite orb_assoc.
Qed.

Lemma starts_with_app c s t : s ≠ "" → starts_with c (s +:+ t) = starts_with c s.
Proof. by destruct s. Qed.

Lemma ends_with_app c s t : t ≠ "" → ends_with c (s +:+ t) = ends_with c t.
Proof.
  intros Ht. induction s as [|c0 s IH]; [done|].
  rewrite app_String. simpl. destruct (s +:+ t) eqn:E; [|done].
  apply app_eq_empty in E as [_ ?]. done.
Qed.

Lemma ends_with_contains c s : ends_with c s = true → contains c s = true.
Proof.
  induction s as [|c0 s IH]; [done|]. simpl. destruct s.
  - intros ->. done.
  - intros H. rewrite (IH H). apply orb_true_r.
Qed.

(** ** Splitting and joining *)

Lemma js_split_nonempty c s : js_split c s ≠ [].
Proof. destruct s as [|c0 s]; simpl; [done|]. destruct (Ascii.eqb c0 c); [done|]. by destruct (js_split c s). Qed.

Lemma js_join_cons sep x y l : js_join sep (x :: y :: l) = x +:+ sep +:+ js_join sep (y :: l).
Proof. reflexivity. Qed.

Lemma js_join_split s : js_join "/" (js_split "/" s) = s.
Proof.
  induction s as [|c s IH]; [done|]. simpl.
  destruct (Ascii.eqb_spec c "/") as [->|Hc].
  - pose proof (js_split_nonempty "/" s) as Hne.
    destruct (js_split "/" s) as [|x l] eqn:E; [done|].
    rewrite js_join_cons, IH. done.
  - destruct (js_split "/" s) as [|x l] eqn:E; [by destruct (js_split_nonempty "/" s)|].
    destruct l as [|y l]; simpl in *; by rewrite <- IH.
Qed.

Lemma js_split_plain s : contains "/" s = false → js_split "/" s = [s].
Proof.
  induction s as [|c s IH]; [done|]. simpl.
  destruct (Ascii.eqb c "/"); [done|]. simpl. intros H. by rewrite (IH H).
Qed.

Lemma js_split_app a b : js_split "/" (a +:+ "/" +:+ b) = js_split "/" a ++ js_split "/" b.
Proof.
  induction a as [|c a IH]; [done|]. rewrite app_String. simpl.
  destruct (Ascii.eqb c "/"); [by rewrite IH|].
  rewrite IH. pose proof (js_split_nonempty "/" a). by destruct (js_split "/" a).
Qed.

Lemma js_split_join segs :
  segs ≠ [] → Forall (fun x => contains "/" x = false) segs →
  js_split "/" (js_join "/" segs) = segs.
Proof.
  induction segs as [|x segs IH]; [done|]. intros _ Hall.
  apply Forall_cons in Hall as [Hx Hall].
  destruct segs as [|y segs]; [by apply js_split_plain|].
  rewrite js_join_cons, js_split_app, IH, js_split_plain; done.
Qed.

Lemma js_join_app sep l1 l2 :
  l1 ≠ [] → l2 ≠ [] → js_join sep (l1 ++ l2) = js_join sep l1 +:+ sep +:+ js_join sep l2.
Proof.
  induction l1 as [|x l1 IH]; [done|]. intros _ H2.
  destruct l1 as [|y l1].
  - destruct l2; done.
  - change ((x :: y :: l1) ++ l2) with (x :: (y :: l1) ++ l2).
    simpl app. rewrite js_join_cons. change (y :: l1 ++ l2) with ((y :: l1) ++ l2).
    rewrite IH by done. rewrite js_join_cons. by rewrite !app_assoc_s.
Qed.

(** ** Paths in normal form *)

Lemma name_ok_inv x :
  name_ok x = true → x ≠ "" ∧ contains "/" x = false ∧ x ≠ "." ∧ x ≠ "..".
Proof.
  unfold name_ok. rewrite !andb_true_iff, !negb_true_iff, !String.eqb_neq. tauto.
Qed.

Lemma names_ok_plain ks : names_ok ks → Forall (fun x => contains "/" x = false) ks.
Proof. intros H. eapply Forall_impl; [exact H|]. intros x Hx. by destruct (name_ok_inv _ Hx) as (_ & ? & _). Qed.

Lemma filter_all {A} (P : A → Prop) `{∀ x, Decision (P x)} (l : list A) :
  Forall P l → filter P l = l.
Proof.
  induction 1 as [|x ks Hx _ IH]; [done|].
  rewrite filter_cons_True by done. by rewrite IH.
Qed.

Lemma filter_names_ok ks : names_ok ks → filter (fun x => name_ok x = true) ks = ks.
Proof. apply filter_all. Qed.

Lemma normalizeSegs_clean a res segs :
  Forall clean segs →
  Path.normalizeSegs a res segs = rev res ++ filter (fun x => name_ok x = true) segs.
Proof.
  intros H. revert res. induction H as [|x segs Hx _ IH]; intros res; simpl.
  - by rewrite app_nil_r.
  - destruct Hx as [->| [->|Hx]].
    + simpl. rewrite IH. by rewrite filter_cons_False.
    + simpl. rewrite IH. by rewrite filter_cons_False.
    + destruct (name_ok_inv _ Hx) as (H1 & _ & H3 & H4).
      apply String.eqb_neq in H1, H3, H4. rewrite H1, H3, H4. simpl.
      rewrite IH. rewrite filter_cons_True by done. simpl. by rewrite <- app_assoc.
Qed.

Lemma js_split_join_list parts :
  parts ≠ [] → js_split "/" (js_join "/" parts) = concat (map (js_split "/") parts).
Proof.
  induction parts as [|x parts IH]; [done|]. intros _.
  destruct parts as [|y parts]; [simpl; by rewrite app_nil_r|].
  rewrite js_join_cons, js_split_app, IH by done. done.
Qed.

Lemma rel_path_nonempty ks x : x ≠ "" → rel_path (ks ++ [x]) ≠ "".
Proof.
  intros Hx E. unfold rel_path in E. destruct ks as [|y ks]; [done|].
  rewrite js_join_app in E by done. apply app_eq_empty in E as [_ E]. done.
Qed.

Lemma ends_with_rel_path ks x :
  x ≠ "" → contains "/" x = false → ends_with "/" (js_join "/" (ks ++ [x])) = false.
Proof.
  intros Hx Hc.
  assert (ends_with "/" x = false) as Hx'.
  { destruct (ends_with "/" x) eqn:E; [|done]. apply ends_with_contains in E. congruence. }
  destruct ks as [|y ks]; [done|].
  rewrite js_join_app by done. rewrite ends_with_app.
  - rewrite ends_with_app; done.
  - by intros [? ?]%app_eq_empty.
Qed.

Lemma starts_with_join c x l : x ≠ "" → starts_with c (js_join "/" (x :: l)) = starts_with c x.
Proof. intros Hx. destruct l; [done|]. rewrite js_join_cons. by apply starts_with_app. Qed.

(** What [path.join] returns when, after its arguments are cut at the
    separators, the last component is a name and the others are names or
    dropped by [normalize]. *)
Lemma join_spec parts pre b :
  Forall (fun a => a ≠ "") parts →
  concat (map Path.split parts) = pre ++ [b] →
  name_ok b = true → Forall clean pre →
  Path.join parts =
    (if Path.isAbsolute (hd "" parts) then "/" else "")
    +:+ rel_path (filter (fun x => name_ok x = true) (pre ++ [b])).
Proof.
  intros Hne Hsplit Hb Hpre.
  assert (parts ≠ []) as Hparts by (intros ->; by destruct pre).
  unfold Path.join. rewrite filter_all by done.
  destruct parts as [|x parts]; [done|]. set (p := js_join "/" (x :: parts)).
  assert (Path.split p = pre ++ [b]) as Hp.
  { unfold Path.split, p. rewrite js_split_join_list by done. exact Hsplit. }
  assert (p = js_join "/" (pre ++ [b])) as Hp'.
  { rewrite <- Hp. unfold Path.split. by rewrite js_join_split. }
  destruct (name_ok_inv _ Hb) as (Hb1 & Hb2 & _).
  unfold Path.normalize.
  assert (p ≠ "") as Hpne.
  { intros E. rewrite E in Hp. simpl in Hp. destruct pre as [|? [|]]; simplify_eq/=. }
  apply String.eqb_neq in Hpne. rewrite Hpne.
  rewrite Hp. rewrite normalizeSegs_clean.
  2:{ apply Forall_app. split; [done|]. constructor; [|done]. right. by right. }
  simpl rev. rewrite app_nil_l.
  rewrite filter_app, (filter_cons_True _ b) by done. rewrite filter_nil.
  assert (js_join "/" (filter (fun x => name_ok x = true) pre ++ [b]) ≠ "") as Hres
    by (by apply rel_path_nonempty).
  apply String.eqb_neq in Hres. rewrite Hres.
  replace (ends_with Path.sep p) with false.
  2:{ rewrite Hp'. symmetry. by apply ends_with_rel_path. }
  rewrite app_empty_r.
  unfold Path.isAbsolute, p. simpl hd.
  assert (x ≠ "") as Hx by (by apply Forall_cons in Hne as [? _]).
  rewrite starts_with_join by done. done.
Qed.

Lemma split_rel_path ks : ks ≠ [] → names_ok ks → Path.split (rel_path ks) = ks.
Proof. intros ? ?. apply js_split_join; [done|]. by apply names_ok_plain. Qed.

Lemma split_abs_path ks :
  names_ok ks → Path.split (abs_path ks) = "" :: (match ks with [] => [""] | _ => ks end).
Proof.
  intros H. unfold abs_path, Path.split.
  change ("/" +:+ js_join "/" ks) with ("" +:+ "/" +:+ js_join "/" ks).
  rewrite js_split_app. simpl. f_equal. destruct ks; [done|]. by apply split_rel_path.
Qed.

Lemma clean_names ks : names_ok ks → Forall clean ks.
Proof. intros H. eapply Forall_impl; [exact H|]. intros x Hx. right. by right. Qed.

Lemma abs_path_nonempty ks : abs_path ks ≠ "".
Proof. done. Qed.

Lemma join_abs ks rest pre b :
  names_ok ks → Forall (fun a => a ≠ "") rest →
  concat (map Path.split rest) = pre ++ [b] →
  name_ok b = true → Forall clean pre →
  Path.join (abs_path ks :: rest) = abs_path (ks ++ filter (fun x => name_ok x = true) (pre ++ [b])).
Proof.
  intros Hks Hrest Hsplit Hb Hpre.
  rewrite (join_spec _ (Path.split (abs_path ks) ++ pre) b); try done.
  - simpl hd. unfold abs_path at 3. f_equal. unfold rel_path. f_equal.
    rewrite split_abs_path by done. rewrite <- app_assoc, filter_app.
    rewrite filter_cons_False by done. f_equal.
    destruct ks; [done|]. by apply filter_names_ok.
  - by constructor.
  - simpl. rewrite Hsplit. by rewrite app_assoc.
  - apply Forall_app. split; [|done]. rewrite split_abs_path by done.
    constructor; [by left|]. destruct ks; [by repeat constructor; left|].
    by apply clean_names.
Qed.

Lemma join_abs_rel ks k :
  names_ok ks → names_ok k → k ≠ [] →
  Path.join [abs_path ks; rel_path k] = abs_path (ks ++ k).
Proof.
  intros Hks Hk Hne. destruct k as [|b pre _] using rev_ind; [done|].
  apply Forall_app in Hk as [Hpre Hb]. rewrite Forall_singleton in Hb.
  rewrite (join_abs ks _ pre b); try done.
  - rewrite filter_names_ok; [done|]. apply Forall_app. split; [done|]. by apply Forall_singleton.
  - constructor; [|done]. apply rel_path_nonempty. by destruct (name_ok_inv _ Hb) as (? & ? & ? & ?).
  - simpl. rewrite app_nil_r. apply split_rel_path; [by destruct pre|].
    apply Forall_app. split; [done|]. by apply Forall_singleton.
  - by apply clean_names.
Qed.

Lemma key_of_abs_path ks : names_ok ks → Path.key_of_path (abs_path ks) = ks.
Proof.
  intros H. unfold Path.key_of_path. rewrite split_abs_path by done.
  rewrite normalizeSegs_clean.
  - simpl. rewrite filter_cons_False by done. destruct ks; [done|]. by apply filter_names_ok.
  - constructor; [by left|]. destruct ks; [by repeat constructor; left|]. by apply clean_names.
Qed.

Section ScriptPaths.

Variable repo : list string.
Hypothesis repo_ok : names_ok repo.

Lemma names_ok_app ks1 ks2 : names_ok ks1 → names_ok ks2 → names_ok (ks1 ++ ks2).
Proof. intros. by apply Forall_app. Qed.

Lemma CONTENT_DIR_eq : CONTENT_DIR repo = abs_path (content_key repo).
Proof.
  unfold CONTENT_DIR, REPO_ROOT.
  rewrite (join_abs repo _ [] "content");
    [reflexivity|assumption|by repeat constructor|reflexivity|reflexivity|constructor].
Qed.

Lemma PUBLIC_CONTENT_DIR_eq : PUBLIC_CONTENT_DIR repo = abs_path (public_key repo).
Proof.
  unfold PUBLIC_CONTENT_DIR, REPO_ROOT.
  rewrite (join_abs repo _ ["public"] "content");
    [reflexivity|assumption|by repeat constructor|reflexivity|reflexivity|].
  apply clean_names. by repeat constructor.
Qed.

Lemma CATALOG_FILE_eq : CATALOG_FILE repo = abs_path (catalog_key repo).
Proof.
  unfold CATALOG_FILE, REPO_ROOT.
  rewrite (join_abs repo _ ["src"; "assets"] "content-catalog.json");
    [reflexivity|assumption|by repeat constructor|reflexivity|reflexivity|].
  apply clean_names. by repeat constructor.
Qed.

Lemma content_key_ok : names_ok (content_key repo).
Proof. apply names_ok_app; [done|]. by repeat constructor. Qed.

Lemma public_key_ok : names_ok (public_key repo).
Proof. apply names_ok_app; [done|]. by repeat constructor. Qed.

Lemma catalog_key_ok : names_ok (catalog_key repo).
Proof. apply names_ok_app; [done|]. by repeat constructor. Qed.

Lemma assets_key_ok : names_ok (assets_key repo).
Proof. apply names_ok_app; [done|]. by repeat constructor. Qed.

End ScriptPaths.

Lemma js_join_head_nonempty z l : z ≠ "" → js_join "/" (z :: l) ≠ "".
Proof.
  intros Hz. destruct l; [done|]. rewrite js_join_cons. by intros [? _]%app_eq_empty.
Qed.

Lemma dropTrailingEmpty_snoc l b : b ≠ "" → Path.dropTrailingEmpty (l ++ [b]) = l ++ [b].
Proof.
  intros Hb. induction l as [|x l IH]; simpl.
  - apply String.eqb_neq in Hb. by rewrite Hb.
  - rewrite IH. by destruct l.
Qed.

Lemma dirname_abs_path ks b :
  names_ok ks → name_ok b = true → Path.dirname (abs_path (ks ++ [b])) = abs_path ks.
Proof.
  intros Hks Hb. unfold Path.dirname. destruct (name_ok_inv _ Hb) as (Hb1 & _).
  assert (String.eqb (abs_path (ks ++ [b])) "" = false) as -> by (by apply String.eqb_neq).
  rewrite split_abs_path by (apply Forall_app; split; [done|by apply Forall_singleton]).
  assert (match ks ++ [b] with [] => [""] | _ => ks ++ [b] end = ks ++ [b]) as -> by (by destruct ks).
  change ("" :: ks ++ [b]) with (("" :: ks) ++ [b]).
  rewrite dropTrailingEmpty_snoc by done.
  pose proof (removelast_last ("" :: ks) b) as Hrl.
  simpl app in *.
  destruct (ks ++ [b]) as [|y l] eqn:E; [by destruct ks|].
  cbv beta iota zeta.
  rewrite Hrl. destruct ks as [|z ks]; [done|].
  rewrite js_join_cons. change ("" +:+ "/" +:+ js_join "/" (z :: ks)) with (abs_path (z :: ks)).
  assert (abs_path (z :: ks) ≠ "/") as Hne.
  { intros E'. assert (js_join "/" (z :: ks) = "") as E2 by (unfold abs_path in E'; by injection E').
    revert E2. apply js_join_head_nonempty.
    apply Forall_cons in Hks as [Hz _]. by destruct (name_ok_inv _ Hz) as (? & _). }
  apply String.eqb_neq in Hne. rewrite Hne.
  assert (String.eqb (abs_path (z :: ks)) "" = false) as -> by (by apply String.eqb_neq).
  done.
Qed.

Lemma dirname_rel_path d b :
  names_ok d → name_ok b = true →
  Path.dirname (rel_path (d ++ [b])) = match d with [] => "." | _ => rel_path d end.
Proof.
  intros Hd Hb. unfold Path.dirname. destruct (name_ok_inv _ Hb) as (Hb1 & _).
  assert (String.eqb (rel_path (d ++ [b])) "" = false) as ->.
  { apply String.eqb_neq. by apply rel_path_nonempty. }
  rewrite split_rel_path; [|by destruct d|apply Forall_app; split; [done|by apply Forall_singleton]].
  rewrite dropTrailingEmpty_snoc by done.
  destruct d as [|z d]; [done|].
  change ((z :: d) ++ [b]) with (z :: d ++ [b]).
  destruct (d ++ [b]) as [|y l] eqn:E; [by destruct d|].
  rewrite <- E. change (z :: d ++ [b]) with ((z :: d) ++ [b]). rewrite removelast_last.
  apply Forall_cons in Hd as [Hz Hd]. apply name_ok_inv in Hz as (Hz1 & Hz2 & _).
  assert (js_join "/" (z :: d) ≠ "") as H1 by (by apply js_join_head_nonempty).
  assert (js_join "/" (z :: d) ≠ "/") as H2.
  { destruct d as [|w d].
    - simpl. intros ->. done.
    - rewrite js_join_cons. destruct z as [|c z]; [done|]. rewrite app_String.
      intros E'. injection E' as -> E'. done. }
  apply String.eqb_neq in H1, H2. by rewrite H1, H2.
Qed.

(** ** Name and extension of a file *)

Lemma lastPart_rel_path d b :
  names_ok d → name_ok b = true → Path.lastPart (rel_path (d ++ [b])) = b.
Proof.
  intros Hd Hb. unfold Path.lastPart. destruct (name_ok_inv _ Hb) as (Hb1 & _).
  rewrite split_rel_path; [|by destruct d|apply Forall_app; split; [done|by apply Forall_singleton]].
  rewrite dropTrailingEmpty_snoc by done. apply last_last.
Qed.

Lemma lastPart_name b : name_ok b = true → Path.lastPart b = b.
Proof. intros Hb. apply (lastPart_rel_path [] b); [constructor|done]. Qed.

Lemma fromLastDot_None seg : Path.fromLastDot seg = None ↔ contains "." seg = false.
Proof.
  induction seg as [|c seg IH]; [done|]. simpl.
  destruct (Path.fromLastDot seg) as [e|].
  - split; [done|]. intros [_ H]%orb_false_iff. apply IH in H. done.
  - destruct IH as [IH _]. rewrite (IH eq_refl). rewrite orb_false_r.
    destruct (Ascii.eqb c "."); done.
Qed.

Lemma fromLastDot_Some seg e :
  Path.fromLastDot seg = Some e →
  ∃ n e', seg = n +:+ e ∧ e = String "." e' ∧ contains "." e' = false.
Proof.
  revert e. induction seg as [|c seg IH]; [done|]. simpl. intros e.
  destruct (Path.fromLastDot seg) as [e0|] eqn:E.
  - intros [= <-]. destruct (IH _ eq_refl) as (n & e' & -> & -> & H).
    exists (String c n), e'. done.
  - destruct (Ascii.eqb_spec c "."); [|done]. intros [= <-]. subst c.
    exists "", seg. split; [done|]. split; [done|]. by apply fromLastDot_None.
Qed.

Lemma strip_suffix_eq suf s :
  strip_suffix suf s =
    if String.eqb s suf then Some ""
    else match s with
         | EmptyString => None
         | String c s' => option_map (String c) (strip_suffix suf s')
         end.
Proof. by destruct s. Qed.

Lemma strip_suffix_app n e : strip_suffix e (n +:+ e) = Some n.
Proof.
  induction n as [|c n IH].
  - rewrite app_empty_l, strip_suffix_eq. by rewrite String.eqb_refl.
  - rewrite app_String, strip_suffix_eq.
    assert (String c (n +:+ e) ≠ e) as Hne.
    { intros E. apply (f_equal String.length) in E. simpl in E. rewrite app_length_s in E. lia. }
    apply String.eqb_neq in Hne. rewrite Hne, IH. done.
Qed.

Lemma length_join_last d b :
  (String.length b ≤ String.length (js_join "/" (d ++ [b])))%nat.
Proof.
  destruct d as [|z d]; [done|]. rewrite js_join_app by done. rewrite !app_length_s.
  change (js_join "/" [b]) with b. lia.
Qed.

Lemma basename_strip p suf n :
  suf ≠ "" → n ≠ "" → suf ≠ p → Path.lastPart p = n +:+ suf →
  (String.length suf ≤ String.length p)%nat →
  Path.basename p suf = n.
Proof.
  intros H1 H2 H3 H4 H5. unfold Path.basename.
  apply String.eqb_neq in H1, H2, H3. apply Nat.leb_le in H5.
  rewrite H1, H5, H3, H4, strip_suffix_app, H2. done.
Qed.

Lemma basename_no_suffix p : Path.basename p "" = Path.lastPart p.
Proof. done. Qed.

Lemma extname_parts b :
  name_ok b = true → ∃ n e, name_parts b n e ∧ Path.extname b = e ∧ Path.basename b e = n ∧ b = n +:+ e.
Proof.
  intros Hb. pose proof (lastPart_name b Hb) as Hlast.
  destruct (name_ok_inv _ Hb) as (Hb1 & Hb2 & Hb3 & Hb4).
  destruct (decide (Path.extname b = "")) as [He|He].
  - exists b, "". split; [|split; [done|]; split; [|by rewrite app_empty_r]].
    + constructor; [done|]. unfold Path.extname in He. rewrite Hlast in He.
      destruct (Path.fromLastDot b) as [e|] eqn:E; [|left; by apply fromLastDot_None].
      right. apply String.eqb_neq in Hb4. rewrite Hb4, orb_false_r in He.
      destruct (String.eqb_spec e b) as [->|Hne].
      * destruct (fromLastDot_Some _ _ E) as (n & e' & Hbn & -> & Hd).
        exists e'. done.
      * destruct (fromLastDot_Some _ _ E) as (n & e' & Hbn & -> & Hd). done.
    + by rewrite basename_no_suffix.
  - unfold Path.extname in He. rewrite Hlast in He.
    destruct (Path.fromLastDot b) as [e|] eqn:E; [|done].
    destruct (String.eqb_spec e b) as [->|Hne]; [done|].
    apply String.eqb_neq in Hb4. rewrite Hb4 in He. simpl in He.
    destruct (fromLastDot_Some _ _ E) as (n & e' & Hbn & -> & Hd).
    assert (n ≠ "") as Hn by (intros ->; by rewrite app_empty_l in Hbn).
    assert (Path.extname b = String "." e') as Hext.
    { unfold Path.extname. rewrite Hlast, E.
      apply String.eqb_neq in Hne. rewrite Hne, Hb4. done. }
    exists n, (String "." e'). split; [by constructor|]. split; [done|]. split; [|done].
    apply basename_strip; try done.
    + by rewrite Hlast.
    + rewrite Hbn, app_length_s. lia.
Qed.

Lemma extname_rel_path d b :
  names_ok d → name_ok b = true → Path.extname (rel_path (d ++ [b])) = Path.extname b.
Proof.
  intros Hd Hb. unfold Path.extname. by rewrite lastPart_rel_path, lastPart_name.
Qed.

Lemma basename_rel_path d b :
  names_ok d → name_ok b = true →
  Path.basename (rel_path (d ++ [b])) (Path.extname b) = Path.basename b (Path.extname b).
Proof.
  intros Hd Hb. destruct (extname_parts b Hb) as (n & e & Hp & He & Hn & Hbn).
  rewrite He, Hn. destruct Hp as [Hext _|n e' Hb' Hnn Hdot Hext].
  - rewrite basename_no_suffix. by apply lastPart_rel_path.
  - apply basename_strip; try done.
    + intros E. destruct d as [|z d].
      * unfold rel_path in E. simpl in E. rewrite <- E in Hb'.
        apply (f_equal String.length) in Hb'.
        rewrite app_length_s in Hb'. destruct n; [done|]. simpl in Hb'. lia.
      * apply (f_equal (contains "/")) in E. unfold rel_path in E.
        rewrite js_join_app in E by done. rewrite !contains_app in E.
        simpl in E. rewrite orb_true_r in E.
        destruct (name_ok_inv _ Hb) as (_ & Hs & _).
        rewrite Hb' in Hs. rewrite contains_app in Hs. apply orb_false_iff in Hs as [_ Hs].
        simpl in Hs. congruence.
    + by rewrite lastPart_rel_path.
    + pose proof (length_join_last d b) as Hl.
      apply (f_equal String.length) in Hb'. rewrite app_length_s in Hb'.
      unfold rel_path. lia.
Qed.

Lemma hashedName_rel_path d b h :
  names_ok d → name_ok b = true → hashedName (rel_path (d ++ [b])) h = hashedName b h.
Proof.
  intros Hd Hb. unfold hashedName. by rewrite extname_rel_path, basename_rel_path.
Qed.

Lemma hashedName_parts b h :
  name_ok b = true → ∃ n e, name_parts b n e ∧ b = n +:+ e ∧ hashedName b h = n +:+ "." +:+ h +:+ e.
Proof.
  intros Hb. destruct (extname_parts b Hb) as (n & e & Hp & He & Hn & Hbn).
  exists n, e. split; [done|]. split; [done|]. unfold hashedName. by rewrite He, Hn.
Qed.

Lemma hashedName_ok b h :
  name_ok b = true → contains "/" h = false → (2 ≤ String.length h)%nat →
  name_ok (hashedName b h) = true.
Proof.
  intros Hb Hh Hlen. destruct (hashedName_parts b h Hb) as (n & e & _ & Hbn & ->).
  destruct (name_ok_inv _ Hb) as (_ & Hs & _).
  rewrite Hbn, contains_app in Hs. apply orb_false_iff in Hs as [Hs1 Hs2].
  unfold name_ok.
  assert (contains "/" (n +:+ "." +:+ h +:+ e) = false) as ->.
  { rewrite !contains_app, Hs1, Hh, Hs2. done. }
  assert (∀ x, (String.length x ≤ 2)%nat → n +:+ "." +:+ h +:+ e ≠ x) as Hx.
  { intros x Hxl E. apply (f_equal String.length) in E. rewrite !app_length_s in E. simpl in E. lia. }
  rewrite !(proj2 (String.eqb_neq _ _)); [done|apply Hx; simpl; lia..].
Qed.

(** ** The fingerprint is sixteen hexadecimal digits *)

Lemma length_string_of_list l : String.length (string_of_list_ascii l) = length l.
Proof. induction l as [|c l IH]; [done|]. simpl. by rewrite IH. Qed.

Lemma contains_string_of_list c l :
  contains c (string_of_list_ascii l) = true → c ∈ l.
Proof.
  induction l as [|c0 l IH]; [done|]. simpl.
  intros [H|H]%orb_true_iff.
  - apply Ascii.eqb_eq in H as ->. by left.
  - right. by apply IH.
Qed.

Lemma hex_digit_in n : Md5.hex_digit n ∈ Md5.hexchars.
Proof.
  unfold Md5.hex_digit. apply list_elem_of_In.
  destruct (decide (Z.to_nat n < length Md5.hexchars)%nat) as [Hlt|Hge].
  - by apply nth_In.
  - rewrite nth_overflow by lia. by left.
Qed.

Lemma hex_bytes_in l c : c ∈ concat (map Md5.hex_byte l) → c ∈ Md5.hexchars.
Proof.
  induction l as [|b l IH]; simpl; [by intros ?%elem_of_nil|].
  rewrite !elem_of_cons. intros [->|[->|H]]; [apply hex_digit_in..|by apply IH].
Qed.

Lemma length_hex_bytes l : length (concat (map Md5.hex_byte l)) = (2 * length l)%nat.
Proof. induction l as [|b l IH]; [done|]. simpl. rewrite IH. lia. Qed.

Lemma length_le_bytes n x : length (Md5.le_bytes n x) = n.
Proof. unfold Md5.le_bytes. by rewrite length_map, length_seq. Qed.

Lemma length_digest data : length (Md5.digest data) = 16%nat.
Proof.
  unfold Md5.digest. destruct (Md5.blocks _ _ _) as [[[a b] c] d].
  by rewrite !length_app, !length_le_bytes.
Qed.

Lemma length_md5_hex data : String.length (Md5.hex data) = 32%nat.
Proof. unfold Md5.hex. by rewrite length_string_of_list, length_hex_bytes, length_digest. Qed.

Lemma md5_hex_chars data c : contains c (Md5.hex data) = true → c ∈ Md5.hexchars.
Proof. intros H. apply contains_string_of_list in H. by apply hex_bytes_in in H. Qed.

Lemma length_substring_0 m s :
  (m ≤ String.length s)%nat → String.length (substring 0 m s) = m.
Proof.
  revert s. induction m as [|m IH]; intros [|c s] H; simpl in *; try done; try lia.
  rewrite IH; [done|lia].
Qed.

Lemma contains_substring_0 c m s :
  contains c (substring 0 m s) = true → contains c s = true.
Proof.
  revert s. induction m as [|m IH]; intros [|c0 s]; simpl; try done.
  intros [H|H]%orb_true_iff; apply orb_true_iff; [by left|right; by apply IH].
Qed.

Lemma fingerprint_eq data : fingerprint data = substring 0 16 (Md5.hex data).
Proof.
  unfold fingerprint, js_slice, NUM_HEX_CHARS. by rewrite length_md5_hex.
Qed.

Lemma length_fingerprint data : String.length (fingerprint data) = 16%nat.
Proof. rewrite fingerprint_eq. apply length_substring_0. rewrite length_md5_hex. lia. Qed.

Lemma fingerprint_chars data c : contains c (fingerprint data) = true → c ∈ Md5.hexchars.
Proof. rewrite fingerprint_eq. intros H%contains_substring_0. by apply (md5_hex_chars data). Qed.

Lemma fingerprint_no_slash data : contains "/" (fingerprint data) = false.
Proof.
  destruct (contains "/" (fingerprint data)) eqn:E; [|done].
  apply fingerprint_chars in E. unfold Md5.hexchars in E. simpl in E.
  repeat (apply elem_of_cons in E as [E|E]; [done|]). by apply elem_of_nil in E.
Qed.

Lemma fingerprint_no_dot data : contains "." (fingerprint data) = false.
Proof.
  destruct (contains "." (fingerprint data)) eqn:E; [|done].
  apply fingerprint_chars in E. unfold Md5.hexchars in E. simpl in E.
  repeat (apply elem_of_cons in E as [E|E]; [done|]). by apply elem_of_nil in E.
Qed.

Lemma published_name_ok b data : name_ok b = true → name_ok (published_name b data) = true.
Proof.
  intros Hb. apply hashedName_ok; [done|apply fingerprint_no_slash|rewrite length_fingerprint; lia].
Qed.

(** ** The paths [processFile] computes for a scanned file *)

Lemma isAbsolute_rel_path z l : name_ok z = true → Path.isAbsolute (rel_path (z :: l)) = false.
Proof.
  intros Hz. destruct (name_ok_inv _ Hz) as (Hz1 & Hz2 & _).
  unfold Path.isAbsolute, rel_path. rewrite starts_with_join by done.
  destruct z as [|c z]; [done|]. simpl in *. by apply orb_false_iff in Hz2 as [? _].
Qed.

Lemma outputRel_rel_path d b h :
  names_ok d → name_ok b = true → name_ok (hashedName b h) = true →
  outputRel (rel_path (d ++ [b])) h = rel_path (d ++ [hashedName b h]).
Proof.
  intros Hd Hb Hh. unfold outputRel. rewrite hashedName_rel_path, dirname_rel_path by done.
  destruct (name_ok_inv _ Hh) as (Hh1 & _).
  assert (Path.split (hashedName b h) = [hashedName b h]) as Hsp.
  { apply js_split_plain. by destruct (name_ok_inv _ Hh) as (_ & ? & _). }
  destruct d as [|z d].
  - rewrite (join_spec _ ["."] (hashedName b h));
      [|by repeat constructor| |done|constructor; [right; by left|constructor]].
    + simpl. rewrite filter_cons_False by done. by rewrite filter_cons_True.
    + simpl. by rewrite Hsp.
  - rewrite (join_spec _ (z :: d) (hashedName b h));
      [| | |done|by apply clean_names].
    + simpl hd. rewrite isAbsolute_rel_path by (by apply Forall_cons in Hd as [? _]).
      rewrite app_empty_l. f_equal. apply filter_names_ok.
      apply Forall_app. split; [done|]. by apply Forall_singleton.
    + constructor; [|by repeat constructor].
      apply js_join_head_nonempty. apply Forall_cons in Hd as [Hz _].
      by destruct (name_ok_inv _ Hz) as (? & _).
    + simpl. rewrite split_rel_path by done. by rewrite Hsp, app_nil_r.
Qed.

Section StepPaths.

Variable repo : list string.
Hypothesis repo_ok : names_ok repo.

Lemma src_path_eq ks :
  names_ok ks → ks ≠ [] →
  Path.join [CONTENT_DIR repo; rel_path ks] = abs_path (content_key repo ++ ks).
Proof.
  intros Hks Hne. rewrite CONTENT_DIR_eq by done.
  apply join_abs_rel; [by apply content_key_ok|done..].
Qed.

Lemma dest_path_eq ks :
  names_ok ks → ks ≠ [] →
  Path.join [PUBLIC_CONTENT_DIR repo; rel_path ks] = abs_path (public_key repo ++ ks).
Proof.
  intros Hks Hne. rewrite PUBLIC_CONTENT_DIR_eq by done.
  apply join_abs_rel; [by apply public_key_ok|done..].
Qed.

Lemma url_path_eq ks :
  names_ok ks → ks ≠ [] →
  "/" +:+ Path.join ["content"; rel_path ks] = abs_path ("content" :: ks).
Proof.
  intros Hks Hne. destruct ks as [|b pre _] using rev_ind; [done|].
  apply Forall_app in Hks as [Hpre Hb]. rewrite Forall_singleton in Hb.
  rewrite (join_spec _ ("content" :: pre) b); [| | |done|apply clean_names; by constructor].
  - simpl hd. unfold abs_path. f_equal. rewrite app_empty_l. unfold rel_path. f_equal.
    change ("content" :: pre ++ [b]) with (("content" :: pre) ++ [b]).
    apply filter_names_ok. apply Forall_app. split; [|by apply Forall_singleton].
    by constructor.
  - constructor; [done|]. constructor; [|done]. apply rel_path_nonempty.
    by destruct (name_ok_inv _ Hb) as (? & _).
  - simpl. rewrite app_nil_r. f_equal. apply split_rel_path; [by destruct pre|].
    apply Forall_app. split; [done|]. by apply Forall_singleton.
Qed.

End StepPaths.

(** ** Paths of the file system *)

Lemma elem_of_prefixes_ne q k : q ∈ prefixes_ne k ↔ q ≠ [] ∧ q `prefix_of` k.
Proof.
  revert q. induction k as [|x k IH]; intros q; simpl.
  - split; [by intros ?%elem_of_nil|]. intros [Hq Hp]. by apply prefix_nil_inv in Hp.
  - rewrite elem_of_cons, list_elem_of_fmap. split.
    + intros [->|(q' & -> & Hq')].
      * split; [done|]. by apply (prefix_cons x []), prefix_nil.
      * apply IH in Hq' as [_ Hq']. split; [done|]. by apply prefix_cons.
    + intros [Hq Hp]. destruct q as [|y q]; [done|].
      apply prefix_cons_inv_1 in Hp as Hxy. subst y.
      apply prefix_cons_inv_2 in Hp.
      destruct q as [|z q]; [by left|]. right.
      exists (z :: q). split; [done|]. apply IH. done.
Qed.

Lemma prefix_snoc_inv (q k : list string) x :
  q `prefix_of` k ++ [x] → q = k ++ [x] ∨ q `prefix_of` k.
Proof.
  intros [r Hr]. destruct r as [|y r _] using rev_ind.
  - left. by rewrite app_nil_r in Hr.
  - right. rewrite app_assoc in Hr. apply app_inj_tail in Hr as [-> _]. by exists r.
Qed.

Lemma elem_of_ancestors q k :
  q ∈ ancestors k ↔ q ≠ [] ∧ q `prefix_of` k ∧ q ≠ k.
Proof.
  unfold ancestors, parent. rewrite elem_of_prefixes_ne.
  destruct k as [|x k _] using rev_ind.
  - simpl. split; [|tauto]. intros [Hq Hp]. by apply prefix_nil_inv in Hp.
  - rewrite removelast_last. split.
    + intros [Hq Hp]. split; [done|]. split; [by apply prefix_app_r|].
      intros ->. apply prefix_length in Hp. rewrite length_app in Hp. simpl in Hp. lia.
    + intros (Hq & Hp & Hne). split; [done|]. by apply prefix_snoc_inv in Hp as [?|?].
Qed.

Lemma blocked_true k s :
  blocked k s = true ↔ ∃ q, q ∈ ancestors k ∧ is_file (s !! q) = true.
Proof.
  unfold blocked. rewrite existsb_exists. split.
  - intros (q & Hq & Hf). exists q. split; [by apply list_elem_of_In|done].
  - intros (q & Hq & Hf). exists q. split; [by apply list_elem_of_In|done].
Qed.

Lemma lookup_mkdirs k s j :
  mkdirs k s !! j = if decide (j ≠ [] ∧ j `prefix_of` k) then Some Dir else s !! j.
Proof.
  unfold mkdirs.
  assert (∀ l, foldr (fun q s' => <[q := Dir]> s') s l !! j
               = if decide (j ∈ l) then Some Dir else s !! j) as H.
  { induction l as [|q l IH]; cbn [foldr].
    - case_decide as Hin; [by apply elem_of_nil in Hin|done].
    - destruct (decide (q = j)) as [->|Hne].
      + clear IH. rewrite lookup_insert_eq. case_decide as Hin; [done|]. exfalso. apply Hin. by left.
      + rewrite lookup_insert_ne by done. rewrite IH.
        destruct (decide (j ∈ l)) as [Hin|Hin]; destruct (decide (j ∈ q :: l)) as [Hin'|Hin'];
          try done; exfalso.
        * apply Hin'. by right.
        * by apply elem_of_cons in Hin' as [?|?]. }
  rewrite H. clear H.
  destruct (decide (j ∈ prefixes_ne k)) as [Hin|Hin];
    destruct (decide (j ≠ [] ∧ j `prefix_of` k)) as [Hp|Hp]; try done; exfalso.
  - apply Hp. by apply elem_of_prefixes_ne.
  - apply Hin. by apply elem_of_prefixes_ne.
Qed.

Lemma lookup_remove (k : list string) (s : gmap (list string) node) (j : list string) :
  filter (fun kv => ¬ k `prefix_of` kv.1) s !! j = if decide (k `prefix_of` j) then None else s !! j.
Proof.
  destruct (decide (k `prefix_of` j)) as [Hp|Hp].
  - apply map_lookup_filter_None. right. intros n _. simpl. tauto.
  - destruct (s !! j) as [n|] eqn:E.
    + apply map_lookup_filter_Some. done.
    + apply map_lookup_filter_None. by left.
Qed.

(** ** Computations that stay inside a region of the file system *)

Lemma agree_refl K s : agree K s s.
Proof. by intros j _. Qed.

Lemma agree_sym K s t : agree K s t → agree K t s.
Proof. intros H j Hj. symmetry. by apply H. Qed.

Lemma local_ret {A} K (a : A) : local K (ret a).
Proof. intros s t H. done. Qed.

Lemma local_throw {A} K e : local K (@throw A e).
Proof. intros s t H. done. Qed.

Lemma local_bind {A B} K (c : M A) (k : A → M B) :
  local K c → (∀ a, local K (k a)) → local K (bind c k).
Proof.
  intros Hc Hk s t H. unfold bind.
  destruct (Hc s t H) as (H1 & H2 & H3).
  destruct (c s) as [[a|e] s'], (c t) as [[a'|e'] t']; simpl in *; simplify_eq.
  - destruct (Hk a' s' t' H2) as (H4 & H5 & H6).
    split; [done|]. split; [done|]. intros j Hj. rewrite H6 by done. by apply H3.
  - done.
Qed.

Lemma local_if {A} K (b : bool) (c1 c2 : M A) :
  local K c1 → local K c2 → local K (if b then c1 else c2).
Proof. by destruct b. Qed.

Lemma local_forEach {A B} K (f : B → A → M B) (l : list A) :
  (∀ acc x, x ∈ l → local K (f acc x)) → ∀ acc, local K (forEach f l acc).
Proof.
  induction l as [|x l IH]; intros Hf acc; simpl.
  - apply local_ret.
  - apply local_bind.
    + apply Hf. by left.
    + intros acc'. apply IH. intros ? ? ?. apply Hf. by right.
Qed.

Lemma entry_agree K s t k : K k → agree K s t → entry s k = entry t k.
Proof. intros Hk H. destruct k; [done|]. by apply H. Qed.

Lemma blocked_agree K s t k :
  closed_down K → K k → agree K s t → blocked k s = blocked k t.
Proof.
  intros Hcd Hk H. unfold blocked.
  assert (∀ q, q ∈ ancestors k → s !! q = t !! q) as Hq.
  { intros q' Hq'. apply H. apply elem_of_ancestors in Hq' as (_ & Hp & _). by apply (Hcd k). }
  revert Hq. generalize (ancestors k). intros l. induction l as [|q l IH]; intros Hq; [done|].
  simpl. rewrite Hq by (by left). f_equal. apply IH. intros ? ?. apply Hq. by right.
Qed.

Lemma missing_agree K s t k :
  closed_down K → K k → agree K s t → missing k s = missing k t.
Proof. intros ? ? ?. unfold missing. by rewrite (blocked_agree K s t). Qed.

Section LocalOps.

Variable K : list string → Prop.
Hypothesis K_down : closed_down K.

Lemma local_statSync p : K (Path.key_of_path p) → local K (statSync p).
Proof.
  intros Hk s t H. unfold statSync.
  rewrite (entry_agree K s t) by done. rewrite (missing_agree K s t) by done.
  by destruct (entry t _).
Qed.

Lemma local_existsSync p : K (Path.key_of_path p) → local K (existsSync p).
Proof. intros Hk s t H. unfold existsSync. by rewrite (entry_agree K s t). Qed.

Lemma local_chdir p : K (Path.key_of_path p) → local K (chdir p).
Proof.
  intros Hk. apply local_bind; [by apply local_statSync|].
  intros [r d|]; [apply local_throw|apply local_ret].
Qed.

Lemma local_readFileSync p : K (Path.key_of_path p) → local K (readFileSync p).
Proof.
  intros Hk. apply local_bind; [by apply local_statSync|].
  intros [[|] d|]; [apply local_ret|apply local_throw..].
Qed.

Lemma agree_insert s t k n : agree K s t → agree K (<[k := n]> s) (<[k := n]> t).
Proof.
  intros H j Hj. destruct (decide (k = j)) as [->|Hne].
  - by rewrite !lookup_insert_eq.
  - rewrite !lookup_insert_ne by done. by apply H.
Qed.

Lemma agree_delete s t k : agree K s t → agree K (delete k s) (delete k t).
Proof.
  intros H j Hj. destruct (decide (k = j)) as [->|Hne].
  - by rewrite !lookup_delete_eq.
  - rewrite !lookup_delete_ne by done. by apply H.
Qed.

Lemma agree_mkdirs s t k : agree K s t → agree K (mkdirs k s) (mkdirs k t).
Proof. intros H j Hj. rewrite !lookup_mkdirs. case_decide; [done|by apply H]. Qed.

Lemma frame_insert (s : gmap (list string) node) k n j : K k → ¬ K j → <[k := n]> s !! j = s !! j.
Proof. intros Hk Hj. apply lookup_insert_ne. by intros ->. Qed.

Lemma frame_mkdirs (s : gmap (list string) node) k j : K k → ¬ K j → mkdirs k s !! j = s !! j.
Proof.
  intros Hk Hj. rewrite lookup_mkdirs. case_decide as Hp; [|done].
  destruct Hp as [_ Hp]. destruct Hj. by apply (K_down k).
Qed.

Lemma local_unlinkSync p : K (Path.key_of_path p) → local K (unlinkSync p).
Proof.
  intros Hk. apply local_bind; [by apply local_statSync|].
  intros [r d|]; [|apply local_throw].
  intros s t H. simpl. split; [done|]. split; [by apply agree_delete|].
  intros j Hj. apply lookup_delete_ne. by intros <-.
Qed.

Lemma parent_prefix (k : list string) : parent k `prefix_of` k.
Proof.
  unfold parent. destruct k as [|x k _] using rev_ind; [done|].
  rewrite removelast_last. by apply prefix_app_r.
Qed.

Lemma local_writeFileSync p data : K (Path.key_of_path p) → local K (writeFileSync p data).
Proof.
  intros Hk s t H. unfold writeFileSync.
  assert (K (parent (Path.key_of_path p))) as Hp by (apply (K_down _ _ Hk), parent_prefix).
  rewrite (entry_agree K s t) by done.
  rewrite (entry_agree K s t (parent _)) by done.
  rewrite (missing_agree K s t) by done.
  destruct (entry t (Path.key_of_path p)) as [[r d|]|]; simpl.
  - split; [done|]. split; [by apply agree_insert|]. intros j Hj. by apply frame_insert.
  - done.
  - destruct (entry t (parent _)) as [[r d|]|]; simpl; try done.
    split; [done|]. split; [by apply agree_insert|]. intros j Hj. by apply frame_insert.
Qed.

Lemma local_copyFileSync src dest :
  K (Path.key_of_path src) → K (Path.key_of_path dest) → local K (copyFileSync src dest).
Proof.
  intros Hs Hd. apply local_bind; [by apply local_readFileSync|].
  intros data s t H. cbv beta zeta.
  assert (K (parent (Path.key_of_path dest))) as Hp by (apply (K_down _ _ Hd), parent_prefix).
  rewrite (entry_agree K s t) by done.
  rewrite (entry_agree K s t (parent _)) by done.
  rewrite (missing_agree K s t) by done.
  destruct (entry t (Path.key_of_path dest)) as [[r d|]|];
    destruct (entry t (parent (Path.key_of_path dest))) as [[r' d'|]|]; simpl; try done;
    (split; [done|]; split; [by apply agree_insert|]; intros j Hj; by apply frame_insert).
Qed.

Lemma local_ensureDirSync p : K (Path.key_of_path p) → local K (ensureDirSync p).
Proof.
  intros Hk s t H. unfold ensureDirSync.
  rewrite (blocked_agree K s t) by done. rewrite (H _ Hk).
  destruct (blocked _ t); [done|]. destruct (is_file _); [done|]. simpl.
  split; [done|]. split; [by apply agree_mkdirs|]. intros j Hj. by apply frame_mkdirs.
Qed.

Lemma local_removeSync p :
  K (Path.key_of_path p) → covers K (Path.key_of_path p) → local K (removeSync p).
Proof.
  intros Hk Hc s t H. unfold removeSync.
  rewrite (blocked_agree K s t) by done.
  destruct (blocked _ t); [done|]. simpl.
  split; [done|]. split.
  - intros j Hj. rewrite !lookup_remove. case_decide; [done|by apply H].
  - intros j Hj. rewrite lookup_remove. case_decide as Hp; [|done]. destruct Hj. by apply Hc.
Qed.

End LocalOps.

Lemma entry_ne (s : gmap (list string) node) k : k ≠ [] → entry s k = s !! k.
Proof. by destruct k. Qed.

Lemma not_prefix_snoc (ks kp : list string) x :
  ¬ ks `prefix_of` kp ++ [x] → ks ≠ kp ++ [x] ∧ ¬ (ks ≠ [] ∧ ks `prefix_of` kp).
Proof.
  intros H. split.
  - intros ->. by apply H.
  - intros [_ Hp]. apply H. by apply prefix_app_r.
Qed.

Lemma prefixes_ne_snoc_inv (j kp : list string) x :
  j ∉ prefixes_ne (kp ++ [x]) → j ≠ kp ++ [x] ∧ ¬ (j ≠ [] ∧ j `prefix_of` kp).
Proof.
  intros H. split.
  - intros ->. apply H. apply elem_of_prefixes_ne. split; [by destruct kp|done].
  - intros [Hj Hp]. apply H. apply elem_of_prefixes_ne. split; [done|by apply prefix_app_r].
Qed.

Lemma prefix_not_snoc (j kp : list string) x : j `prefix_of` kp → j ≠ kp ++ [x].
Proof.
  intros Hp ->. apply prefix_length in Hp. rewrite length_app in Hp. simpl in Hp. lia.
Qed.

Lemma snoc_ne (kp : list string) x : kp ++ [x] ≠ kp.
Proof. intros E. apply (f_equal length) in E. rewrite length_app in E. simpl in E. lia. Qed.

Lemma entry_delete_snoc (s : gmap (list string) node) kp x :
  entry (delete (kp ++ [x]) s) kp = entry s kp.
Proof.
  destruct (decide (kp = [])) as [->|Hne]; [done|].
  rewrite !entry_ne by done. apply lookup_delete_ne. apply snoc_ne.
Qed.

Lemma entry_insert_snoc (s : gmap (list string) node) kp x n :
  entry (<[kp ++ [x] := n]> s) kp = entry s kp.
Proof.
  destruct (decide (kp = [])) as [->|Hne]; [done|].
  rewrite !entry_ne by done. apply lookup_insert_ne. apply snoc_ne.
Qed.

Lemma entry_mkdirs_self kp s : entry (mkdirs kp s) kp = Some Dir.
Proof.
  destruct (decide (kp = [])) as [->|Hne]; [done|].
  rewrite entry_ne by done. rewrite lookup_mkdirs. by rewrite decide_True.
Qed.

Lemma lookup_mkdirs_other kp s j :
  ¬ (j ≠ [] ∧ j `prefix_of` kp) → mkdirs kp s !! j = s !! j.
Proof. intros H. rewrite lookup_mkdirs. by rewrite decide_False. Qed.

Lemma blocked_false_prefix k s j :
  blocked k s = false → j ≠ [] → j `prefix_of` k → j ≠ k → is_file (s !! j) = false.
Proof.
  intros Hb Hj Hp Hne. destruct (is_file (s !! j)) eqn:E; [|done].
  assert (blocked k s = true); [|congruence].
  apply blocked_true. exists j. split; [|done]. by apply elem_of_ancestors.
Qed.

Lemma copySync_file_inv ks kp x s r s' rd data :
  names_ok ks → ks ≠ [] → names_ok (kp ++ [x]) →
  s !! ks = Some (File rd data) →
  copySync (abs_path ks) (abs_path (kp ++ [x])) s = (r, s') →
  (∀ j, j ∉ prefixes_ne (kp ++ [x]) → s' !! j = s !! j) ∧
  (∀ j, j ∈ prefixes_ne kp → s' !! j = s !! j ∨ (s !! j = None ∧ s' !! j = Some Dir)) ∧
  (r = Ok tt →
     rd = true ∧ s' !! (kp ++ [x]) = Some (File true data)
     ∧ s !! (kp ++ [x]) ≠ Some Dir ∧ entry s' kp = Some Dir
     ∧ (entry s kp = Some Dir ∨ ∀ j, j ∈ prefixes_ne kp → s' !! j = Some Dir)).
Proof.
  intros Hks Hne Hkd Hsrc.
  assert (names_ok kp ∧ name_ok x = true) as [Hkp Hx].
  { apply Forall_app in Hkd as [? Hx]. by rewrite Forall_singleton in Hx. }
  assert (kp ++ [x] ≠ []) as Hkdne by (by destruct kp).
  unfold copySync, bind, statSync, existsSync, ensureDirSync, unlinkSync, copyFileSync,
    readFileSync, bind, statSync, throw, ret.
  rewrite dirname_abs_path by done.
  rewrite !key_of_abs_path by done.
  rewrite (entry_ne s ks), Hsrc, (entry_ne s (kp ++ [x])) by done.
  assert (parent (kp ++ [x]) = kp) as -> by apply removelast_last.
  assert (∀ (t : gmap (list string) node) j,
            j ∉ prefixes_ne (kp ++ [x]) → delete (kp ++ [x]) t !! j = t !! j) as Hdel1.
  { intros t j Hj. apply prefixes_ne_snoc_inv in Hj as [Hj _]. by rewrite lookup_delete_ne. }
  assert (∀ (t : gmap (list string) node) j,
            j ∈ prefixes_ne kp → delete (kp ++ [x]) t !! j = t !! j) as Hdel2.
  { intros t j Hj. apply elem_of_prefixes_ne in Hj as [_ Hj].
    apply prefix_not_snoc with (x:=x) in Hj. by rewrite lookup_delete_ne. }
  assert (∀ (t : gmap (list string) node) j n,
            j ∉ prefixes_ne (kp ++ [x]) → <[kp ++ [x] := n]> t !! j = t !! j) as Hins1.
  { intros t j n Hj. apply prefixes_ne_snoc_inv in Hj as [Hj _]. by rewrite lookup_insert_ne. }
  assert (∀ (t : gmap (list string) node) j n,
            j ∈ prefixes_ne kp → <[kp ++ [x] := n]> t !! j = t !! j) as Hins2.
  { intros t j n Hj. apply elem_of_prefixes_ne in Hj as [_ Hj].
    apply prefix_not_snoc with (x:=x) in Hj. by rewrite lookup_insert_ne. }
  assert (∀ j, j ∉ prefixes_ne (kp ++ [x]) → mkdirs kp s !! j = s !! j) as Hmk1.
  { intros j Hj. apply prefixes_ne_snoc_inv in Hj as [_ Hj]. by apply lookup_mkdirs_other. }
  assert (∀ j, blocked kp s = false → s !! kp = None → j ∈ prefixes_ne kp →
            mkdirs kp s !! j = s !! j ∨ (s !! j = None ∧ mkdirs kp s !! j = Some Dir)) as Hmk2.
  { intros j Hbl Hnone Hj. apply elem_of_prefixes_ne in Hj as [Hj1 Hj2].
    rewrite lookup_mkdirs, decide_True by done.
    destruct (decide (j = kp)) as [->|Hjne]; [by right|].
    pose proof (blocked_false_prefix _ _ _ Hbl Hj1 Hj2 Hjne) as Hf.
    destruct (s !! j) as [[? ?|]|]; [done|by left|by right]. }
  assert (mkdirs kp s !! (kp ++ [x]) = s !! (kp ++ [x])) as Hmkd.
  { apply lookup_mkdirs_other. intros [_ Hp]. by apply (prefix_not_snoc _ _ x) in Hp. }
  destruct (s !! (kp ++ [x])) as [[rk dk|]|] eqn:Hd.
  - (* the destination is a file *)
    case_bool_decide as Heq; [intros [= <- <-]; by repeat split; auto|].
    case_bool_decide as Hpre; [intros [= <- <-]; by repeat split; auto|].
    apply not_prefix_snoc in Hpre as [_ Hpre].
    destruct (entry s kp) as [np|] eqn:Hp.
    + rewrite bool_decide_true by done.
      rewrite (entry_ne s (kp ++ [x])), Hd by done.
      rewrite (entry_ne _ ks), lookup_delete_ne, Hsrc by done.
      destruct rd; [|intros [= <- <-]; repeat split; try done; intros j Hj; auto].
      rewrite (entry_ne _ (kp ++ [x])), lookup_delete_eq by done.
      rewrite entry_delete_snoc, Hp. destruct np as [rp dp|].
      * intros [= <- <-]. repeat split; try done; intros j Hj; auto.
      * intros [= <- <-]. repeat split; try done.
        -- intros j Hj. by rewrite Hins1, Hdel1.
        -- intros j Hj. left. by rewrite Hins2, Hdel2.
        -- by rewrite lookup_insert_eq.
        -- by rewrite entry_insert_snoc, entry_delete_snoc.
        -- by left.
    + rewrite bool_decide_false by (by intros [? ?]).
      assert (kp ≠ []) as Hkpne by (intros ->; done).
      rewrite entry_ne in Hp by done.
      destruct (blocked kp s) eqn:Hbl; [intros [= <- <-]; by repeat split; auto|].
      rewrite Hp. simpl is_file. cbv iota.
      rewrite (entry_ne _ (kp ++ [x])), Hmkd by done.
      rewrite (entry_ne _ ks), lookup_delete_ne, lookup_mkdirs_other, Hsrc by done.
      destruct rd.
      2:{ intros [= <- <-]. repeat split; try done; intros j Hj.
          - by rewrite Hdel1, Hmk1.
          - rewrite Hdel2 by done. by apply (Hmk2 j). }
      rewrite (entry_ne _ (kp ++ [x])), lookup_delete_eq by done.
      rewrite entry_delete_snoc, entry_mkdirs_self.
      intros [= <- <-]. repeat split; try done.
      * intros j Hj. by rewrite Hins1, Hdel1, Hmk1.
      * intros j Hj. rewrite Hins2, Hdel2 by done. by apply (Hmk2 j).
      * by rewrite lookup_insert_eq.
      * by rewrite entry_insert_snoc, entry_delete_snoc, entry_mkdirs_self.
      * right. intros j Hj. rewrite Hins2, Hdel2 by done.
        apply elem_of_prefixes_ne in Hj. by rewrite lookup_mkdirs, decide_True.
  - (* the destination is a directory *)
    intros [= <- <-]. by repeat split; auto.
  - (* the destination does not exist *)
    destruct (blocked (kp ++ [x]) s) eqn:Hbd; [intros [= <- <-]; by repeat split; auto|].
    case_bool_decide as Hpre; [intros [= <- <-]; by repeat split; auto|].
    apply not_prefix_snoc in Hpre as [Heq Hpre].
    destruct (entry s kp) as [np|] eqn:Hp.
    + rewrite bool_decide_true by done.
      rewrite (entry_ne _ ks), Hsrc by done.
      destruct rd; [|intros [= <- <-]; repeat split; try done; intros j Hj; auto].
      rewrite (entry_ne _ (kp ++ [x])), Hd, Hp by done.
      destruct np as [rp dp|].
      * intros [= <- <-]. repeat split; try done; intros j Hj; auto.
      * intros [= <- <-]. repeat split; try done.
        -- intros j Hj. by rewrite Hins1.
        -- intros j Hj. left. by rewrite Hins2.
        -- by rewrite lookup_insert_eq.
        -- by rewrite entry_insert_snoc.
        -- by left.
    + rewrite bool_decide_false by (by intros [? ?]).
      assert (kp ≠ []) as Hkpne by (intros ->; done).
      rewrite entry_ne in Hp by done.
      destruct (blocked kp s) eqn:Hbl; [intros [= <- <-]; by repeat split; auto|].
      rewrite Hp. simpl is_file. cbv iota.
      rewrite (entry_ne _ ks), lookup_mkdirs_other, Hsrc by done.
      destruct rd.
      2:{ intros [= <- <-]. repeat split; try done; intros j Hj. by apply (Hmk2 j). }
      rewrite (entry_ne _ (kp ++ [x])), Hmkd by done.
      rewrite entry_mkdirs_self.
      intros [= <- <-]. repeat split; try done.
      * intros j Hj. by rewrite Hins1, Hmk1.
      * intros j Hj. rewrite Hins2 by done. by apply (Hmk2 j).
      * by rewrite lookup_insert_eq.
      * by rewrite entry_insert_snoc, entry_mkdirs_self.
      * right. intros j Hj. rewrite Hins2 by done.
        apply elem_of_prefixes_ne in Hj. by rewrite lookup_mkdirs, decide_True.
Qed.

Section LocalCopy.

Variable K : list string → Prop.
Hypothesis K_down : closed_down K.

Lemma filter_under_agree (P : list string * node → Prop) `{∀ kv, Decision (P kv)}
    (s t : gmap (list string) node) :
  agree K s t → (∀ kv, P kv → K kv.1) → filter P s = filter P t.
Proof.
  intros Hag HP. apply map_eq. intros j.
  destruct (filter P s !! j) as [n|] eqn:E.
  - apply map_lookup_filter_Some in E as [E1 E2]. symmetry.
    apply map_lookup_filter_Some. split; [|done]. rewrite <- E1. symmetry. apply Hag.
    by apply (HP (j, n)).
  - symmetry. apply map_lookup_filter_None in E as [E|E].
    + destruct (t !! j) as [n|] eqn:Et.
      * apply map_lookup_filter_None. right. intros n' Hn' HPn.
        assert (K j) as Hj by (by apply (HP (j, n'))).
        rewrite <- (Hag j Hj) in Hn'. congruence.
      * apply map_lookup_filter_None. by left.
    + apply map_lookup_filter_None. right. intros n Hn HPn.
      assert (K j) as Hj by (by apply (HP (j, n))).
      rewrite <- (Hag j Hj) in Hn. by apply (E n).
Qed.

Lemma local_copyTree ks kd :
  covers K ks → covers K kd →
  local K (fun s => (Ok tt, copyTree ks kd s)).
Proof.
  intros Hs Hd s t Hag. simpl. unfold copyTree.
  rewrite (filter_under_agree (fun kv => ks `prefix_of` kv.1) s t Hag) by (intros kv ?; by apply Hs).
  generalize (map_to_list (filter (fun kv : list string * node => ks `prefix_of` kv.1) t)).
  intros l. split; [done|]. induction l as [|kv l [IH1 IH2]]; simpl; [done|]. split.
  - by apply agree_insert.
  - intros j Hj. rewrite lookup_insert_ne; [by apply IH2|].
    intros <-. apply Hj, Hd. by apply prefix_app_r.
Qed.

Lemma local_copySync src dest :
  K (Path.key_of_path src) → K (Path.key_of_path dest) →
  K (Path.key_of_path (Path.dirname dest)) →
  covers K (Path.key_of_path src) → covers K (Path.key_of_path dest) →
  local K (copySync src dest).
Proof.
  intros Hs Hd Hp Hcs Hcd. unfold copySync.
  apply local_bind; [by apply local_statSync|]. intros srcStat.
  apply local_bind.
  { intros s t Hag. rewrite (entry_agree K s t), (blocked_agree K s t) by done.
    destruct (entry t _); [done|]. by destruct (blocked _ t). }
  intros destStat. apply local_bind.
  { destruct srcStat as [? ?|], destStat as [[? ?|]|];
      try apply local_throw; try apply local_ret; apply local_if; try apply local_throw; apply local_ret. }
  intros _. apply local_bind; [apply local_if; [apply local_throw|apply local_ret]|].
  intros _. apply local_bind; [by apply local_existsSync|].
  intros parentExists. apply local_bind.
  { apply local_if; [apply local_ret|by apply local_ensureDirSync]. }
  intros _. destruct srcStat as [? ?|].
  - apply local_bind; [|intros _; by apply local_copyFileSync].
    destruct destStat; [by apply local_unlinkSync|apply local_ret].
  - apply local_bind; [by apply local_ensureDirSync|]. intros _. by apply local_copyTree.
Qed.

Lemma local_fg_sync_all cwd dot :
  K (Path.key_of_path cwd) → covers K (Path.key_of_path cwd) → local K (fg_sync_all cwd dot).
Proof.
  intros Hk Hc s t Hag. unfold fg_sync_all.
  rewrite (entry_agree K s t), (blocked_agree K s t) by done.
  rewrite (filter_under_agree (fun kv => globbed (Path.key_of_path cwd) dot kv = true) s t Hag).
  - destruct (entry t _) as [[? ?|]|]; try done. by destruct (blocked _ t).
  - intros kv. unfold globbed. rewrite !andb_true_iff.
    intros [[[_ Hp%bool_decide_eq_true] _] _]. by apply Hc.
Qed.

End LocalCopy.

Lemma near_down k : closed_down (near k).
Proof.
  intros j q [Hj|Hj] Hq.
  - left. by trans j.
  - destruct (prefix_weak_total q k j Hq Hj); [by left|by right].
Qed.

Lemma work_region_down repo : closed_down (work_region repo).
Proof. intros j q [Hj|Hj] Hq; [left|right]; by apply (near_down _ j). Qed.

Lemma near_covers k k' : k `prefix_of` k' → covers (near k) k'.
Proof. intros Hk j Hj. right. by trans k'. Qed.

(** ** Published names do not collide *)

Lemma fromLastDot_app_dotfree s t :
  contains "." t = false → Path.fromLastDot (s +:+ String "." t) = Some (String "." t).
Proof.
  intros Ht. induction s as [|c s IH].
  - rewrite app_empty_l. simpl. by rewrite (proj2 (fromLastDot_None t) Ht).
  - rewrite app_String. simpl. by rewrite IH.
Qed.

Lemma hashedName_inj b1 b2 h1 h2 :
  name_ok b1 = true → name_ok b2 = true →
  String.length h1 = String.length h2 →
  contains "." h1 = false → contains "." h2 = false →
  hashedName b1 h1 = hashedName b2 h2 → b1 = b2.
Proof.
  intros Hb1 Hb2 Hlen Hd1 Hd2.
  destruct (hashedName_parts b1 h1 Hb1) as (n1 & e1 & Hp1 & Hbn1 & ->).
  destruct (hashedName_parts b2 h2 Hb2) as (n2 & e2 & Hp2 & Hbn2 & ->).
  assert (∀ n h : string, n +:+ "." +:+ h +:+ "" = n +:+ String "." h) as Hno.
  { intros. by rewrite app_empty_r. }
  assert (∀ n h e' : string,
            n +:+ "." +:+ h +:+ String "." e' = (n +:+ "." +:+ h) +:+ String "." e') as Hyes.
  { intros. by rewrite !app_assoc_s. }
  (* the case of one name with and one without an extension *)
  assert (∀ b n h h' e', contains "." h = false →
            (contains "." b = false ∨ (∃ rest, b = String "." rest ∧ contains "." rest = false)) →
            n ≠ "" → b +:+ "." +:+ h +:+ "" = n +:+ "." +:+ h' +:+ String "." e' →
            contains "." e' = false → False) as Hmixed.
  { intros b n h h' e' Hh Hb Hn E He'.
    pose proof (f_equal Path.fromLastDot E) as E'.
    rewrite (Hno b h), (Hyes n h' e') in E'.
    rewrite !fromLastDot_app_dotfree in E' by done. injection E' as ->.
    rewrite Hno, Hyes in E. apply app_inv_tail in E. subst b.
    destruct Hb as [Hb|(rest & Hb & Hrest)].
    - rewrite !contains_app in Hb. simpl in Hb. by rewrite orb_true_r in Hb.
    - destruct n as [|c n]; [done|]. rewrite !app_String in Hb. injection Hb as -> <-.
      rewrite !contains_app in Hrest. simpl in Hrest. by rewrite orb_true_r in Hrest. }
  destruct Hp1 as [Hx1 Hs1|n1 e1' Hb1' Hn1 Hdot1 Hx1], Hp2 as [Hx2 Hs2|n2 e2' Hb2' Hn2 Hdot2 Hx2]; intros E.
  - rewrite !app_empty_r in E. apply app_inv_len in E as [? _]; [done|].
    rewrite !app_length_s. by rewrite Hlen.
  - exfalso. by apply (Hmixed _ _ _ _ _ Hd1 Hs1 Hn2 E).
  - exfalso. symmetry in E. by apply (Hmixed _ _ _ _ _ Hd2 Hs2 Hn1 E).
  - pose proof (f_equal Path.fromLastDot E) as E'.
    rewrite !Hyes, !fromLastDot_app_dotfree in E' by done. injection E' as ->.
    rewrite !Hyes in E. apply app_inv_tail in E.
    apply app_inv_len in E as [-> _]; [|rewrite !app_length_s; by rewrite Hlen].
    by rewrite Hb1', Hb2'.
Qed.

Lemma published_name_inj b1 b2 data1 data2 :
  name_ok b1 = true → name_ok b2 = true →
  published_name b1 data1 = published_name b2 data2 → b1 = b2.
Proof.
  intros H1 H2. apply hashedName_inj; try done.
  - by rewrite !length_fingerprint.
  - apply fingerprint_no_dot.
  - apply fingerprint_no_dot.
Qed.

(** ** The scanner *)

Lemma fs_names_ok_spec s k n :
  fs_names_ok s = true → s !! k = Some n → names_ok k.
Proof.
  unfold fs_names_ok. rewrite forallb_forall. intros H Hk.
  apply elem_of_map_to_list, list_elem_of_In in Hk. apply H in Hk. simpl in Hk.
  apply Forall_forall. intros x Hx. rewrite forallb_forall in Hk.
  apply Hk. by apply list_elem_of_In.
Qed.

Lemma fs_names_ok_content repo s : fs_names_ok s = true → content_names_ok repo s.
Proof.
  intros H ks n Hk. apply (fs_names_ok_spec _ _ _ H) in Hk. by apply Forall_app in Hk as [_ ?].
Qed.

Section Scanner.

Variable repo : list string.
Hypothesis repo_ok : names_ok repo.

Lemma getContentFiles_eq s :
  getContentFiles repo s =
    match entry s (content_key repo) with
    | Some Dir => (Ok (map rel_path (scanned repo s)), s)
    | Some (File _ _) => (Throw ENOTDIR, s)
    | None => if blocked (content_key repo) s then (Throw ENOTDIR, s) else (Ok [], s)
    end.
Proof.
  unfold getContentFiles, scanRecursive, bind, fg_sync_all, ret.
  rewrite CONTENT_DIR_eq by done. rewrite key_of_abs_path by (by apply content_key_ok).
  destruct (entry s (content_key repo)) as [[? ?|]|]; try done.
  - f_equal. f_equal. unfold scanned. rewrite !map_map. apply map_ext.
    intros kv. by rewrite js_join_split.
  - by destruct (blocked _ s).
Qed.

Lemma elem_of_scanned s ks :
  ks ∈ scanned repo s ↔
    ks ≠ [] ∧ forallb visible ks = true ∧ ∃ rd data, s !! (content_key repo ++ ks) = Some (File rd data).
Proof.
  unfold scanned. rewrite list_elem_of_fmap. split.
  - intros ([k n] & -> & Hin). apply elem_of_map_to_list in Hin.
    apply map_lookup_filter_Some in Hin as [Hk Hg]. simpl in *.
    unfold globbed in Hg. rewrite !andb_true_iff in Hg. simpl in Hg.
    destruct Hg as [[[Hf Hp%bool_decide_eq_true] Hne%negb_true_iff%bool_decide_eq_false] Hv].
    destruct Hp as [r ->]. rewrite drop_app_length in *.
    split; [intros ->; by rewrite app_nil_r in Hne|]. split; [done|].
    destruct n as [rd data|]; [|done]. by exists rd, data.
  - intros (Hne & Hv & rd & data & Hk).
    exists (content_key repo ++ ks, File rd data). simpl. rewrite drop_app_length.
    split; [done|]. apply elem_of_map_to_list. apply map_lookup_filter_Some.
    split; [done|]. unfold globbed. simpl. rewrite drop_app_length, Hv.
    rewrite bool_decide_true by (by apply prefix_app_r).
    rewrite bool_decide_false; [done|]. intros E.
    rewrite <- (app_nil_r (content_key repo)) in E at 2. by apply app_inv_head in E.
Qed.

Lemma NoDup_scanned s : NoDup (scanned repo s).
Proof.
  unfold scanned. apply NoDup_fmap_2_strong; [|apply NoDup_map_to_list].
  intros [k1 n1] [k2 n2] H1 H2 E. simpl in E.
  apply elem_of_map_to_list in H1, H2.
  apply map_lookup_filter_Some in H1 as [H1 G1], H2 as [H2 G2].
  unfold globbed in G1, G2. rewrite !andb_true_iff in G1, G2. simpl in *.
  destruct G1 as [[[_ [r1 ->]%bool_decide_eq_true] _] _].
  destruct G2 as [[[_ [r2 ->]%bool_decide_eq_true] _] _].
  rewrite !drop_app_length in E. subst r2. rewrite H1 in H2. by injection H2 as ->.
Qed.

Lemma scanned_names_ok s ks : content_names_ok repo s → ks ∈ scanned repo s → names_ok ks.
Proof.
  intros Hok (_ & _ & rd & data & Hk)%elem_of_scanned. by apply (Hok ks _ Hk).
Qed.

Lemma scanned_agree s t :
  agree (work_region repo) s t → scanned repo s = scanned repo t.
Proof.
  intros H. unfold scanned. f_equal. f_equal.
  apply (filter_under_agree (work_region repo)); [done|].
  intros kv. unfold globbed. rewrite !andb_true_iff.
  intros [[[_ Hp%bool_decide_eq_true] _] _]. left. by right.
Qed.

End Scanner.

(** ** One file *)

Lemma published_rel_snoc d b data : published_rel (d ++ [b]) data = d ++ [published_name b data].
Proof. unfold published_rel. by rewrite removelast_last, last_last. Qed.

Lemma published_rel_ok ks data : names_ok ks → ks ≠ [] → names_ok (published_rel ks data).
Proof.
  intros Hks Hne. destruct ks as [|b d _] using rev_ind; [done|].
  rewrite published_rel_snoc. apply Forall_app in Hks as [Hd Hb]. rewrite Forall_singleton in Hb.
  apply Forall_app. split; [done|]. apply Forall_singleton. by apply published_name_ok.
Qed.

Lemma published_rel_inj ks1 ks2 data1 data2 :
  names_ok ks1 → names_ok ks2 → ks1 ≠ [] → ks2 ≠ [] →
  published_rel ks1 data1 = published_rel ks2 data2 → ks1 = ks2.
Proof.
  intros H1 H2 Hne1 Hne2.
  destruct ks1 as [|b1 d1 _] using rev_ind; [done|].
  destruct ks2 as [|b2 d2 _] using rev_ind; [done|].
  rewrite !published_rel_snoc. intros [-> E]%app_inj_tail. f_equal. f_equal.
  apply Forall_app in H1 as [_ H1], H2 as [_ H2]. rewrite Forall_singleton in H1, H2.
  by apply (published_name_inj _ _ data1 data2).
Qed.

Section Step.

Variable repo : list string.
Hypothesis repo_ok : names_ok repo.

Lemma processFile_eq cat ks s :
  names_ok ks → ks ≠ [] →
  processFile repo cat (rel_path ks) s =
    match s !! (content_key repo ++ ks) with
    | Some (File true data) =>
        bind (copySync (abs_path (content_key repo ++ ks)) (abs_path (published_key repo ks data)))
             (fun _ => ret (Js.set cat (rel_path ks) (published_url ks data))) s
    | Some (File false _) => (Throw EACCES, s)
    | Some Dir => (Throw EISDIR, s)
    | None => (Throw (missing (content_key repo ++ ks) s), s)
    end.
Proof.
  intros Hks Hne. unfold processFile.
  rewrite src_path_eq by done.
  unfold bind at 1. unfold readFileSync, bind, statSync.
  assert (names_ok (content_key repo ++ ks)) as Hsrc.
  { apply names_ok_app; [by apply content_key_ok|done]. }
  rewrite key_of_abs_path by done.
  rewrite entry_ne by (by destruct (content_key repo) eqn:E; [destruct repo|]).
  destruct (s !! (content_key repo ++ ks)) as [[[|] data|]|]; try done.
  simpl.
  destruct ks as [|b d _] using rev_ind; [done|].
  apply Forall_app in Hks as [Hd Hb]. rewrite Forall_singleton in Hb.
  assert (name_ok (hashedName b (fingerprint data)) = true) as Hh by (by apply published_name_ok).
  rewrite outputRel_rel_path by done.
  assert (names_ok (d ++ [hashedName b (fingerprint data)])) as Hout.
  { apply Forall_app. split; [done|]. by apply Forall_singleton. }
  rewrite dest_path_eq, url_path_eq by (try done; by destruct d).
  unfold published_key, published_url. by rewrite published_rel_snoc.
Qed.

Lemma step_frame_refl s : step_frame repo s s.
Proof. intros j _. by left. Qed.

Lemma step_frame_trans s1 s2 s3 : step_frame repo s1 s2 → step_frame repo s2 s3 → step_frame repo s1 s3.
Proof.
  intros H12 H23 j Hj. destruct (H12 j Hj) as [E1|(E1 & E1' & ? & ?)], (H23 j Hj) as [E2|(E2 & E2' & ? & ?)].
  - left. congruence.
  - right. rewrite <- E1. done.
  - right. rewrite E2. done.
  - congruence.
Qed.

Lemma processFile_inv cat ks s r s' :
  names_ok ks → ks ≠ [] →
  processFile repo cat (rel_path ks) s = (r, s') →
  step_frame repo s s' ∧
  (∀ j, (∀ data, j ≠ published_key repo ks data) →
        s' !! j = s !! j ∨ (s !! j = None ∧ s' !! j = Some Dir)) ∧
  (∀ cat', r = Ok cat' →
     ∃ data, s !! (content_key repo ++ ks) = Some (File true data)
       ∧ cat' = Js.set cat (rel_path ks) (published_url ks data)
       ∧ s' !! published_key repo ks data = Some (File true data)
       ∧ s !! published_key repo ks data ≠ Some Dir
       ∧ (∀ j, j ∉ prefixes_ne (published_key repo ks data) → s' !! j = s !! j)
       ∧ (∀ j, j ∈ prefixes_ne (parent (published_key repo ks data)) →
               s' !! j = s !! j ∨ (s !! j = None ∧ s' !! j = Some Dir))
       ∧ entry s' (parent (published_key repo ks data)) = Some Dir
       ∧ (entry s (parent (published_key repo ks data)) = Some Dir
          ∨ ∀ j, j ∈ prefixes_ne (parent (published_key repo ks data)) → s' !! j = Some Dir)).
Proof.
  intros Hks Hne. rewrite processFile_eq by done.
  destruct (s !! (content_key repo ++ ks)) as [[[|] data|]|] eqn:Hsrc;
    try (intros [= <- <-]; split; [apply step_frame_refl|]; split; [by left|done]).
  unfold bind, ret.
  destruct (copySync _ _ s) as [r0 s0] eqn:Hcopy.
  destruct ks as [|b d _] using rev_ind; [done|].
  assert (∀ data0, published_key repo (d ++ [b]) data0
                   = (public_key repo ++ d) ++ [published_name b data0]) as Hpk.
  { intros. unfold published_key. by rewrite published_rel_snoc, app_assoc. }
  rewrite Hpk in Hcopy.
  apply copySync_file_inv with (rd := true) (data := data) in Hcopy as (Hf1 & Hf2 & Hf3); try done.
  2:{ apply names_ok_app; [by apply content_key_ok|done]. }
  2:{ by destruct (content_key repo) eqn:E; [destruct repo|]. }
  2:{ rewrite <- app_assoc. apply names_ok_app; [by apply public_key_ok|].
      rewrite <- published_rel_snoc. by apply published_rel_ok. }
  assert (parent ((public_key repo ++ d) ++ [published_name b data]) = public_key repo ++ d) as Hpar
    by apply removelast_last.
  assert (∀ j, s0 !! j = s !! j ∨ j = (public_key repo ++ d) ++ [published_name b data]
               ∨ (j ∈ prefixes_ne (public_key repo ++ d) ∧ s !! j = None ∧ s0 !! j = Some Dir)) as Hall.
  { intros j. destruct (decide (j ∈ prefixes_ne ((public_key repo ++ d) ++ [published_name b data]))) as [Hin|Hin].
    - apply elem_of_prefixes_ne in Hin as [Hj1 Hj2].
      apply prefix_snoc_inv in Hj2 as [->|Hj2]; [by right; left|].
      destruct (Hf2 j) as [?|[? ?]]; [by apply elem_of_prefixes_ne|by left|].
      right. right. split; [by apply elem_of_prefixes_ne|done].
    - left. by apply Hf1. }
  assert (step_frame repo s s0) as Hframe.
  { intros j Hj. destruct (Hall j) as [?|[->|(Hin & ? & ?)]]; [by left| |].
    - destruct Hj. split; [rewrite <- app_assoc; by apply prefix_app_r|].
      rewrite <- app_assoc. intros E. rewrite <- (app_nil_r (public_key repo)) in E at 2.
      apply app_inv_head in E. by destruct d.
    - right. apply elem_of_prefixes_ne in Hin as [Hj1 Hj2]. repeat split; try done.
      destruct (prefix_weak_total j (public_key repo) (public_key repo ++ d)) as [?|Hp];
        [done|by apply prefix_app_r|done|].
      destruct (decide (j = public_key repo)) as [->|?]; [done|]. by destruct Hj. }
  assert (∀ j, (∀ data0, j ≠ (public_key repo ++ d) ++ [published_name b data0]) →
               s0 !! j = s !! j ∨ (s !! j = None ∧ s0 !! j = Some Dir)) as Hother.
  { intros j Hj. destruct (Hall j) as [?|[->|(_ & ? & ?)]]; [by left|by destruct (Hj data)|by right]. }
  assert (∀ j, (∀ data0, j ≠ published_key repo (d ++ [b]) data0) →
               s0 !! j = s !! j ∨ (s !! j = None ∧ s0 !! j = Some Dir)) as Hother'.
  { intros j Hj. apply Hother. intros data0. rewrite <- Hpk. apply Hj. }
  destruct r0 as [[]|e]; intros [= <- <-].
  - split; [done|]. split; [done|]. intros cat' [= <-].
    destruct (Hf3 eq_refl) as (_ & H1 & H2 & H3 & H4).
    exists data. rewrite Hpk, Hpar. repeat split; try done.
  - split; [done|]. split; [done|]. done.
Qed.

End Step.

(** ** The steps of [main] stay in their region *)

Section Region.

Variable repo : list string.
Hypothesis repo_ok : names_ok repo.

Lemma region_content ks : work_region repo (content_key repo ++ ks).
Proof. left. right. by apply prefix_app_r. Qed.

Lemma region_public ks : work_region repo (public_key repo ++ ks).
Proof. right. right. by apply prefix_app_r. Qed.

Lemma region_covers_content ks : covers (work_region repo) (content_key repo ++ ks).
Proof. intros j Hj. left. right. trans (content_key repo ++ ks); [by apply prefix_app_r|done]. Qed.

Lemma region_covers_public ks : covers (work_region repo) (public_key repo ++ ks).
Proof. intros j Hj. right. right. trans (public_key repo ++ ks); [by apply prefix_app_r|done]. Qed.

Lemma region_repo : work_region repo repo.
Proof. left. left. by apply prefix_app_r. Qed.

Lemma REPO_ROOT_key : Path.key_of_path (REPO_ROOT repo) = repo.
Proof. by apply key_of_abs_path. Qed.

Lemma local_processFile cat ks :
  names_ok ks → ks ≠ [] → local (work_region repo) (processFile repo cat (rel_path ks)).
Proof.
  intros Hks Hne. unfold processFile. rewrite src_path_eq by done.
  pose proof (work_region_down repo) as Hdown.
  assert (names_ok (content_key repo ++ ks)) as Hsrc.
  { apply names_ok_app; [by apply content_key_ok|done]. }
  apply local_bind.
  { apply local_readFileSync; [done|]. rewrite key_of_abs_path by done. apply region_content. }
  intros buffer.
  destruct ks as [|b d _] using rev_ind; [done|].
  apply Forall_app in Hks as [Hd Hb]. rewrite Forall_singleton in Hb.
  assert (name_ok (hashedName b (fingerprint buffer)) = true) as Hh by (by apply published_name_ok).
  rewrite outputRel_rel_path by done.
  assert (names_ok (d ++ [hashedName b (fingerprint buffer)])) as Hout.
  { apply Forall_app. split; [done|]. by apply Forall_singleton. }
  rewrite dest_path_eq by (try done; by destruct d).
  assert (names_ok (public_key repo ++ d)) as Hpd.
  { apply names_ok_app; [by apply public_key_ok|done]. }
  apply local_bind; [|intros; apply local_ret].
  assert (names_ok (public_key repo ++ d ++ [hashedName b (fingerprint buffer)])) as Hdest.
  { apply names_ok_app; [by apply public_key_ok|done]. }
  apply local_copySync; try done.
  - rewrite key_of_abs_path by done. apply region_content.
  - rewrite key_of_abs_path by done. apply region_public.
  - rewrite app_assoc. rewrite dirname_abs_path, key_of_abs_path by done. apply region_public.
  - rewrite key_of_abs_path by done. apply region_covers_content.
  - rewrite key_of_abs_path by done. apply region_covers_public.
Qed.

Lemma local_processFiles kss cat :
  Forall (fun ks => names_ok ks ∧ ks ≠ []) kss →
  local (work_region repo) (forEach (processFile repo) (map rel_path kss) cat).
Proof.
  intros H. apply local_forEach. intros acc x Hx.
  apply list_elem_of_fmap in Hx as (ks & -> & Hks).
  rewrite Forall_forall in H. destruct (H ks Hks). by apply local_processFile.
Qed.

Lemma local_clearPublicContent : local (work_region repo) (clearPublicContent repo).
Proof.
  unfold clearPublicContent. rewrite PUBLIC_CONTENT_DIR_eq by done.
  pose proof (work_region_down repo) as Hdown.
  pose proof (region_public []) as Hk. pose proof (region_covers_public []) as Hc.
  rewrite app_nil_r in Hk, Hc.
  apply local_bind; [|intros _].
  - apply local_removeSync; rewrite ?key_of_abs_path by (by apply public_key_ok); done.
  - apply local_ensureDirSync; rewrite ?key_of_abs_path by (by apply public_key_ok); done.
Qed.

Lemma local_getContentFiles : local (work_region repo) (getContentFiles repo).
Proof.
  unfold getContentFiles, scanRecursive. rewrite CONTENT_DIR_eq by done.
  pose proof (work_region_down repo) as Hdown.
  pose proof (region_content []) as Hk. pose proof (region_covers_content []) as Hc.
  rewrite app_nil_r in Hk, Hc.
  apply local_bind; [|intros; apply local_ret].
  apply local_fg_sync_all; rewrite ?key_of_abs_path by (by apply content_key_ok); done.
Qed.

Lemma local_chdir_root : local (work_region repo) (chdir (REPO_ROOT repo)).
Proof.
  apply local_chdir; [apply work_region_down|]. rewrite REPO_ROOT_key. apply region_repo.
Qed.

End Region.

(** ** Clearing the output root and writing the catalog *)

Section Stages.

Variable repo : list string.
Hypothesis repo_ok : names_ok repo.

Lemma public_key_ne : public_key repo ≠ [].
Proof. unfold public_key. by destruct repo. Qed.

Lemma blocked_remove k s :
  blocked k (filter (fun kv => ¬ k `prefix_of` kv.1) s) = blocked k s.
Proof.
  unfold blocked.
  assert (∀ q, q ∈ ancestors k → filter (fun kv => ¬ k `prefix_of` kv.1) s !! q = s !! q) as Hq.
  { intros q (Hq1 & Hq2 & Hq3)%elem_of_ancestors. rewrite lookup_remove.
    rewrite decide_False; [done|]. intros Hp. apply Hq3. by apply (anti_symm prefix). }
  revert Hq. generalize (ancestors k). intros l. induction l as [|q l IH]; intros Hq; [done|].
  simpl. rewrite Hq by (by left). f_equal. apply IH. intros ? ?. apply Hq. by right.
Qed.

Lemma clearPublicContent_eq s :
  clearPublicContent repo s =
    if blocked (public_key repo) s then (Throw ENOTDIR, s) else (Ok tt, cleared repo s).
Proof.
  unfold clearPublicContent, bind, removeSync, ensureDirSync.
  rewrite PUBLIC_CONTENT_DIR_eq by done. rewrite key_of_abs_path by (by apply public_key_ok).
  destruct (blocked (public_key repo) s) eqn:Hb; [done|].
  rewrite blocked_remove, Hb. rewrite lookup_remove, decide_True by done. done.
Qed.

Lemma lookup_cleared s j :
  cleared repo s !! j =
    if decide (j ≠ [] ∧ j `prefix_of` public_key repo) then Some Dir
    else if decide (public_key repo `prefix_of` j) then None else s !! j.
Proof. unfold cleared. by rewrite lookup_mkdirs, lookup_remove. Qed.

Lemma assets_key_ne : assets_key repo ≠ [].
Proof. unfold assets_key. by destruct repo. Qed.

Lemma catalog_key_snoc : catalog_key repo = assets_key repo ++ ["content-catalog.json"].
Proof. unfold catalog_key, assets_key. by rewrite <- app_assoc. Qed.

Lemma writeCatalog_eq cat s :
  writeCatalog repo cat s =
    if blocked (assets_key repo) s then (Throw ENOTDIR, s)
    else if is_file (s !! assets_key repo) then (Throw EEXIST, s)
    else match s !! catalog_key repo with
         | Some Dir => (Throw EISDIR, mkdirs (assets_key repo) s)
         | _ => (Ok tt, with_catalog repo cat s)
         end.
Proof.
  unfold writeCatalog, writeJsonSync, bind, ensureDirSync, writeFileSync.
  rewrite CATALOG_FILE_eq by done. rewrite catalog_key_snoc.
  rewrite dirname_abs_path by (try done; by apply assets_key_ok).
  rewrite !key_of_abs_path; [|rewrite <- catalog_key_snoc; by apply catalog_key_ok|by apply assets_key_ok].
  destruct (blocked (assets_key repo) s); [done|].
  destruct (is_file (s !! assets_key repo)); [done|].
  assert (parent (assets_key repo ++ ["content-catalog.json"]) = assets_key repo) as ->
    by apply removelast_last.
  rewrite entry_mkdirs_self.
  rewrite entry_ne by (by destruct (assets_key repo)).
  rewrite lookup_mkdirs_other by (intros [_ Hp]; by apply (prefix_not_snoc _ _ "content-catalog.json") in Hp).
  unfold with_catalog, catalog_bytes. rewrite catalog_key_snoc.
  by destruct (s !! (assets_key repo ++ ["content-catalog.json"])) as [[? ?|]|].
Qed.

Lemma chdir_root_eq s :
  chdir (REPO_ROOT repo) s =
    match entry s repo with
    | Some Dir => (Ok tt, s)
    | Some (File _ _) => (Throw ENOTDIR, s)
    | None => (Throw (missing repo s), s)
    end.
Proof.
  unfold chdir, bind, statSync. rewrite REPO_ROOT_key by done.
  by destruct (entry s repo) as [[? ?|]|].
Qed.

End Stages.

(** ** The whole list of files *)

Section Run.

Variable repo : list string.
Hypothesis repo_ok : names_ok repo.

Lemma content_not_public ks :
  ¬ public_key repo `prefix_of` content_key repo ++ ks
  ∧ ¬ content_key repo ++ ks `prefix_of` public_key repo.
Proof.
  unfold public_key, content_key. rewrite <- app_assoc. split; intros H%prefix_app_inv.
  - by apply prefix_cons_inv_1 in H.
  - by apply prefix_cons_inv_1 in H.
Qed.

Lemma step_frame_content s s' ks :
  step_frame repo s s' → s' !! (content_key repo ++ ks) = s !! (content_key repo ++ ks).
Proof.
  intros H. destruct (content_not_public ks) as [H1 H2].
  destruct (H (content_key repo ++ ks)) as [?|(_ & _ & _ & ?)]; [by intros [? _]|done|done].
Qed.

Lemma step_frame_content_data s s' ks :
  step_frame repo s s' → content_data repo s' ks = content_data repo s ks.
Proof. intros H. unfold content_data. by rewrite (step_frame_content s s'). Qed.

Lemma forEach_cons cat ks kss s :
  forEach (processFile repo) (map rel_path (ks :: kss)) cat s =
    match processFile repo cat (rel_path ks) s with
    | (Ok cat1, s1) => forEach (processFile repo) (map rel_path kss) cat1 s1
    | (Throw e, s1) => (Throw e, s1)
    end.
Proof. reflexivity. Qed.

Lemma run_frame kss cat s r s' :
  files_ok kss →
  forEach (processFile repo) (map rel_path kss) cat s = (r, s') → step_frame repo s s'.
Proof.
  intros Hok. revert cat s. induction Hok as [|ks kss [Hks Hne] _ IH]; intros cat s.
  - intros [= <- <-]. apply step_frame_refl.
  - rewrite forEach_cons. destruct (processFile _ _ _ s) as [[cat1|e] s1] eqn:Hstep.
    + intros Hrest. apply (processFile_inv repo repo_ok) in Hstep as (Hf & _); try done.
      eapply step_frame_trans; [done|]. by eapply IH.
    + intros [= <- <-]. by apply (processFile_inv repo repo_ok) in Hstep as (Hf & _).
Qed.

Lemma run_preserves_file kss cat s r s' j rd data :
  files_ok kss →
  forEach (processFile repo) (map rel_path kss) cat s = (r, s') →
  s !! j = Some (File rd data) →
  (∀ ks data', ks ∈ kss → j ≠ published_key repo ks data') →
  s' !! j = Some (File rd data).
Proof.
  intros Hok. revert cat s. induction Hok as [|ks kss [Hks Hne] _ IH]; intros cat s.
  - by intros [= <- <-].
  - rewrite forEach_cons. intros Hrun Hj Hother.
    destruct (processFile _ _ _ s) as [r1 s1] eqn:Hstep.
    apply (processFile_inv repo repo_ok) in Hstep as (_ & Hst & _); try done.
    assert (s1 !! j = Some (File rd data)) as Hj1.
    { destruct (Hst j) as [E|[E _]]; [intros ?; apply Hother; by left|by rewrite E|congruence]. }
    destruct r1 as [cat1|e].
    + eapply IH; [done..|]. intros ? ? ?. apply Hother. by right.
    + by injection Hrun as <- <-.
Qed.

(** After a run without error every listed file is published, with the
    bytes it has under the content root. *)
Lemma run_published kss cat s cat' s' :
  files_ok kss → NoDup kss →
  forEach (processFile repo) (map rel_path kss) cat s = (Ok cat', s') →
  ∀ ks, ks ∈ kss →
    ∃ data, s !! (content_key repo ++ ks) = Some (File true data)
          ∧ s' !! published_key repo ks data = Some (File true data).
Proof.
  intros Hok. revert cat s. induction Hok as [|ks kss [Hks Hne] Hok IH]; intros cat s Hnd.
  - intros _ ks Hin. by apply elem_of_nil in Hin.
  - apply NoDup_cons in Hnd as [Hnotin Hnd].
    rewrite forEach_cons. destruct (processFile _ _ _ s) as [[cat1|e] s1] eqn:Hstep; [|done].
    intros Hrest ks' Hin.
    apply (processFile_inv repo repo_ok) in Hstep as (Hf & _ & Hs); try done.
    destruct (Hs cat1 eq_refl) as (data & Hsrc & _ & Hdest & _).
    apply elem_of_cons in Hin as [->|Hin].
    + exists data. split; [done|].
      eapply run_preserves_file; [exact Hok|exact Hrest|done|].
      intros ks2 data2 Hin2 E. unfold published_key in E. apply app_inv_head in E.
      apply published_rel_inj in E; try done.
      * by subst ks2.
      * rewrite Forall_forall in Hok. by destruct (Hok ks2 Hin2).
      * rewrite Forall_forall in Hok. by destruct (Hok ks2 Hin2).
    + destruct (IH cat1 s1 Hnd Hrest ks' Hin) as (data' & Hsrc' & Hdest').
      exists data'. split; [|done]. by rewrite <- (step_frame_content s s1).
Qed.

(** Whatever a run without error leaves in the file system was there
    before, or is a published file or a directory on the way to one. *)
Lemma run_origin kss cat s cat' s' j n :
  files_ok kss →
  forEach (processFile repo) (map rel_path kss) cat s = (Ok cat', s') →
  s' !! j = Some n →
  s !! j = Some n
  ∨ ∃ ks, ks ∈ kss ∧
      ((j = published_key repo ks (content_data repo s ks)
        ∧ n = File true (content_data repo s ks))
       ∨ (n = Dir ∧ j ≠ [] ∧ j `prefix_of` parent (published_key repo ks (content_data repo s ks)))).
Proof.
  intros Hok. revert cat s. induction Hok as [|ks kss [Hks Hne] Hok IH]; intros cat s.
  - intros [= <- <-] ?. by left.
  - rewrite forEach_cons. destruct (processFile _ _ _ s) as [[cat1|e] s1] eqn:Hstep; [|done].
    intros Hrun Hj.
    apply (processFile_inv repo repo_ok) in Hstep as (Hf & Hst & Hs); try done.
    destruct (Hs cat1 eq_refl) as (data & Hsrc & _ & Hdest & _ & Hfr & Hdirs & _).
    assert (content_data repo s ks = data) as Hcd by (unfold content_data; by rewrite Hsrc).
    destruct (IH cat1 s1 Hrun Hj) as [Hj1|(ks' & Hin & Hks')].
    + destruct (decide (j ∈ prefixes_ne (published_key repo ks data))) as [Hin|Hin].
      * apply elem_of_prefixes_ne in Hin as [Hj0 Hp].
        destruct (decide (j = published_key repo ks data)) as [->|Hjne].
        -- right. exists ks. split; [by left|]. left. rewrite Hcd. split; [done|]. congruence.
        -- assert (j ∈ prefixes_ne (parent (published_key repo ks data))) as Hin'.
           { assert (j ∈ ancestors (published_key repo ks data)) as Ha by (by apply elem_of_ancestors).
             done. }
           destruct (Hdirs j Hin') as [E|[E1 E2]].
           ++ left. by rewrite <- E.
           ++ right. exists ks. split; [by left|]. right. rewrite Hcd.
              apply elem_of_prefixes_ne in Hin' as [? ?]. split; [congruence|done].
      * left. by rewrite <- (Hfr j Hin).
    + right. exists ks'. split; [by right|].
      by rewrite <- (step_frame_content_data s s1).
Qed.

Lemma processFile_closed cat ks s cat' s' :
  names_ok ks → ks ≠ [] →
  processFile repo cat (rel_path ks) s = (Ok cat', s') →
  public_closed repo s → public_closed repo s'.
Proof.
  intros Hks Hne Hstep Hcl.
  apply (processFile_inv repo repo_ok) in Hstep as (Hf & Hst & Hs); try done.
  destruct (Hs cat' eq_refl) as (data & Hsrc & _ & Hdest & Hnd & Hfr & Hdirs & Hpar & Hmk).
  set (kd := published_key repo ks data) in *.
  assert (kd ≠ []) as Hkdne by (unfold kd, published_key; by destruct (public_key repo) eqn:E; [destruct repo|]).
  assert (public_key repo `prefix_of` parent kd) as Hpkp.
  { unfold kd, published_key, published_rel, parent. rewrite app_assoc, removelast_last.
    by apply prefix_app_r. }
  assert (parent kd ≠ []) as Hpne.
  { intros E. rewrite E in Hpkp. apply prefix_nil_inv in Hpkp. by destruct repo. }
  assert (∀ q, q ∈ prefixes_ne (parent kd) → s' !! q = Some Dir) as Hup.
  { destruct Hmk as [Hmk|Hmk]; [|done].
    rewrite entry_ne in Hmk by done. intros q Hq.
    destruct (Hdirs q Hq) as [E|[_ ?]]; [|done]. rewrite E.
    apply elem_of_prefixes_ne in Hq as [Hq0 Hq1].
    destruct (decide (q = parent kd)) as [->|Hqne]; [done|].
    apply (Hcl (parent kd) Dir Hmk Hpkp). by apply elem_of_ancestors. }
  intros j n Hj Hpj q Hq.
  destruct (decide (j = kd)) as [->|Hjne]; [by apply Hup|].
  destruct (decide (j ∈ prefixes_ne (parent kd))) as [Hin|Hin].
  - apply Hup. apply elem_of_prefixes_ne. apply elem_of_ancestors in Hq as (? & ? & ?).
    split; [done|]. apply elem_of_prefixes_ne in Hin as [_ Hin]. by trans j.
  - assert (j ∉ prefixes_ne kd) as Hin2.
    { intros Hin2. apply Hin. assert (j ∈ ancestors kd) as Ha; [|done].
      apply elem_of_prefixes_ne in Hin2 as [? ?]. by apply elem_of_ancestors. }
    rewrite (Hfr j Hin2) in Hj.
    pose proof (Hcl j n Hj Hpj q Hq) as Hqs.
    destruct (decide (q ∈ prefixes_ne kd)) as [Hqin|Hqin]; [|by rewrite (Hfr q Hqin)].
    apply elem_of_prefixes_ne in Hqin as [Hq0 Hq1].
    destruct (decide (q = kd)) as [->|Hqne]; [done|].
    apply Hup. assert (q ∈ ancestors kd) as Ha; [by apply elem_of_ancestors|done].
Qed.

Lemma run_closed kss cat s cat' s' :
  files_ok kss →
  forEach (processFile repo) (map rel_path kss) cat s = (Ok cat', s') →
  public_closed repo s → public_closed repo s'.
Proof.
  intros Hok. revert cat s. induction Hok as [|ks kss [Hks Hne] Hok IH]; intros cat s.
  - by intros [= <- <-].
  - rewrite forEach_cons. destruct (processFile _ _ _ s) as [[cat1|e] s1] eqn:Hstep; [|done].
    intros Hrun Hcl. eapply IH; [done|]. by eapply processFile_closed.
Qed.

Lemma cleared_closed s : public_closed repo (cleared repo s).
Proof.
  intros j n Hj Hpj q Hq. rewrite lookup_cleared in *.
  apply elem_of_ancestors in Hq as (Hq0 & Hq1 & Hq2).
  case_decide as Hd; [|by case_decide].
  destruct Hd as [_ Hd]. rewrite decide_True; [done|]. split; [done|]. by trans j.
Qed.

End Run.

(** ** The run as a whole *)

Section Main.

Variable repo : list string.
Hypothesis repo_ok : names_ok repo.

Lemma content_key_ne : content_key repo ≠ [].
Proof. unfold content_key. by destruct repo. Qed.

Lemma cleared_content s ks :
  cleared repo s !! (content_key repo ++ ks) = s !! (content_key repo ++ ks).
Proof.
  destruct (content_not_public repo ks) as [H1 H2].
  rewrite lookup_cleared. rewrite decide_False by (by intros [_ ?]). by rewrite decide_False.
Qed.

Lemma scanned_cleared s : scanned repo (cleared repo s) = scanned repo s.
Proof.
  unfold scanned. f_equal. f_equal.
  apply (filter_under_agree (fun j => content_key repo `prefix_of` j)).
  - intros j [r ->]. apply cleared_content.
  - intros kv. unfold globbed. rewrite !andb_true_iff.
    by intros [[[_ Hp%bool_decide_eq_true] _] _].
Qed.

Lemma entry_cleared_content s :
  entry (cleared repo s) (content_key repo) = entry s (content_key repo).
Proof.
  rewrite !entry_ne by (by apply content_key_ne).
  pose proof (cleared_content s []) as H. by rewrite app_nil_r in H.
Qed.

Lemma blocked_cleared_content s :
  blocked (public_key repo) s = false →
  blocked (content_key repo) (cleared repo s) = blocked (content_key repo) s.
Proof.
  intros Hb. unfold blocked.
  assert (∀ q, q ∈ ancestors (content_key repo) →
               is_file (cleared repo s !! q) = is_file (s !! q)) as Hq.
  { intros q Hq. unfold content_key, ancestors, parent in Hq. rewrite removelast_last in Hq.
    apply elem_of_prefixes_ne in Hq as [Hq0 Hq1].
    rewrite lookup_cleared. rewrite decide_True by (split; [done|by apply prefix_app_r]).
    symmetry. apply (blocked_false_prefix _ _ _ Hb Hq0); [by apply prefix_app_r|].
    intros ->. apply prefix_length in Hq1. unfold public_key in Hq1.
    rewrite length_app in Hq1. simpl in Hq1. lia. }
  revert Hq. generalize (ancestors (content_key repo)). intros l.
  induction l as [|q l IH]; intros Hq; [done|].
  simpl. rewrite Hq by (by left). f_equal. apply IH. intros ? ?. apply Hq. by right.
Qed.

Lemma main_eq s :
  main repo s =
    match entry s repo with
    | Some Dir =>
        if blocked (public_key repo) s then (Throw ENOTDIR, s)
        else
          match entry s (content_key repo) with
          | Some (File _ _) => (Throw ENOTDIR, cleared repo s)
          | o =>
              if match o with None => blocked (content_key repo) s | _ => false end
              then (Throw ENOTDIR, cleared repo s)
              else
                match forEach (processFile repo) (map rel_path (scan_list repo s)) Js.empty (cleared repo s) with
                | (Ok cat, p) =>
                    match writeCatalog repo cat p with
                    | (Ok _, s') => (Ok (main_message repo (length (scan_list repo s))), s')
                    | (Throw e, s') => (Throw e, s')
                    end
                | (Throw e, p) => (Throw e, p)
                end
          end
    | Some (File _ _) => (Throw ENOTDIR, s)
    | None => (Throw (missing repo s), s)
    end.
Proof.
  unfold main. unfold bind at 1. rewrite chdir_root_eq by done.
  destruct (entry s repo) as [[? ?|]|]; try done.
  unfold bind at 1. rewrite clearPublicContent_eq by done.
  destruct (blocked (public_key repo) s) eqn:Hb; [done|].
  unfold bind at 1. rewrite getContentFiles_eq by done.
  rewrite entry_cleared_content, blocked_cleared_content, scanned_cleared by done.
  unfold scan_list, processFiles.
  destruct (entry s (content_key repo)) as [[? ?|]|]; try done.
  - unfold bind. destruct (forEach _ _ _ _) as [[cat|e] p]; [|done].
    destruct (writeCatalog repo cat p) as [[[]|e] s']; [|done].
    unfold ret, main_message. by rewrite length_map.
  - destruct (blocked (content_key repo) s); [done|].
    unfold bind. simpl forEach. unfold ret.
    destruct (writeCatalog repo Js.empty (cleared repo s)) as [[[]|e] s']; done.
Qed.

Lemma scan_list_ok s : content_names_ok repo s → files_ok (scan_list repo s).
Proof.
  intros Hok. unfold scan_list. destruct (entry s (content_key repo)) as [[? ?|]|]; try by constructor.
  apply Forall_forall. intros ks Hks. split; [by eapply scanned_names_ok|].
  by apply elem_of_scanned in Hks as (? & _).
Qed.

Lemma NoDup_scan_list s : NoDup (scan_list repo s).
Proof.
  unfold scan_list. destruct (entry s (content_key repo)) as [[? ?|]|]; try by constructor.
  apply NoDup_scanned.
Qed.

End Main.

(** ** What a run may change *)

Section Frame.

Variable repo : list string.
Hypothesis repo_ok : names_ok repo.

Lemma outer_frame_refl s : outer_frame repo s s.
Proof. intros j _ _. by left. Qed.

Lemma outer_frame_trans s1 s2 s3 : outer_frame repo s1 s2 → outer_frame repo s2 s3 → outer_frame repo s1 s3.
Proof.
  intros H12 H23 j Hj Hc.
  destruct (H12 j Hj Hc) as [E1|(E1 & E1' & ? & ?)], (H23 j Hj Hc) as [E2|(E2 & E2' & ? & ?)].
  - left. congruence.
  - right. rewrite <- E1. done.
  - right. rewrite E2. done.
  - congruence.
Qed.

Lemma step_frame_outer s s' : step_frame repo s s' → outer_frame repo s s'.
Proof.
  intros H j Hj _. destruct (H j) as [?|(? & ? & ? & ?)]; [by intros [? _]|by left|].
  right. repeat split; try done. by left.
Qed.

Lemma mkdirs_grow k s j :
  blocked k s = false → is_file (s !! k) = false →
  mkdirs k s !! j = s !! j ∨ (s !! j = None ∧ mkdirs k s !! j = Some Dir ∧ j ≠ [] ∧ j `prefix_of` k).
Proof.
  intros Hb Hf. rewrite lookup_mkdirs. case_decide as Hd; [|by left].
  destruct Hd as [Hj0 Hj1].
  assert (is_file (s !! j) = false) as Hfj.
  { destruct (decide (j = k)) as [->|Hne]; [done|]. by apply (blocked_false_prefix k). }
  destruct (s !! j) as [[? ?|]|]; [done|by left|by right].
Qed.

Lemma cleared_outer s : blocked (public_key repo) s = false → outer_frame repo s (cleared repo s).
Proof.
  intros Hb j Hj _. rewrite lookup_cleared. case_decide as Hd.
  - destruct Hd as [Hj0 Hj1].
    assert (is_file (s !! j) = false) as Hfj.
    { apply (blocked_false_prefix _ _ _ Hb Hj0 Hj1). intros ->. by apply Hj. }
    destruct (s !! j) as [[? ?|]|]; [done|by left|]. right. repeat split; try done. by left.
  - rewrite decide_False by done. by left.
Qed.

Lemma writeCatalog_outer cat s r s' : writeCatalog repo cat s = (r, s') → outer_frame repo s s'.
Proof.
  rewrite writeCatalog_eq by done.
  destruct (blocked (assets_key repo) s) eqn:Hb; [intros [= <- <-]; apply outer_frame_refl|].
  destruct (is_file (s !! assets_key repo)) eqn:Hf; [intros [= <- <-]; apply outer_frame_refl|].
  assert (outer_frame repo s (mkdirs (assets_key repo) s)) as Hmk.
  { intros j _ _. destruct (mkdirs_grow (assets_key repo) s j Hb Hf) as [?|(? & ? & ? & ?)]; [by left|].
    right. repeat split; try done. by right. }
  destruct (s !! catalog_key repo) as [[? ?|]|]; intros [= <- <-]; try done.
  - intros j Hj Hc. unfold with_catalog. rewrite lookup_insert_ne by done. by apply Hmk.
  - intros j Hj Hc. unfold with_catalog. rewrite lookup_insert_ne by done. by apply Hmk.
Qed.

Lemma main_outer s r s' : content_names_ok repo s → main repo s = (r, s') → outer_frame repo s s'.
Proof.
  intros Hnames. rewrite main_eq by done.
  destruct (entry s repo) as [[? ?|]|]; try (intros [= <- <-]; apply outer_frame_refl).
  destruct (blocked (public_key repo) s) eqn:Hb; [intros [= <- <-]; apply outer_frame_refl|].
  pose proof (cleared_outer s Hb) as Hcl.
  pose proof (scan_list_ok repo s Hnames) as Hok.
  assert (∀ r s', match forEach (processFile repo) (map rel_path (scan_list repo s)) Js.empty (cleared repo s) with
            | (Ok cat, p) =>
                match writeCatalog repo cat p with
                | (Ok _, s') => (Ok (main_message repo (length (scan_list repo s))), s')
                | (Throw e, s') => (Throw e, s')
                end
            | (Throw e, p) => (Throw e, p)
            end = (r, s') → outer_frame repo s s') as Hrest.
  { clear r s'. intros r s'.
    destruct (forEach _ _ _ _) as [[cat|e] p] eqn:Hrun.
    - apply (run_frame repo repo_ok) in Hrun; [|done].
      destruct (writeCatalog repo cat p) as [[[]|e] s''] eqn:Hw; intros [= <- <-];
        (eapply outer_frame_trans; [exact Hcl|]; eapply outer_frame_trans;
         [by apply step_frame_outer|by eapply writeCatalog_outer]).
    - intros [= <- <-]. apply (run_frame repo repo_ok) in Hrun; [|done].
      eapply outer_frame_trans; [exact Hcl|]. by apply step_frame_outer. }
  destruct (entry s (content_key repo)) as [[? ?|]|].
  - by intros [= <- <-].
  - apply Hrest.
  - destruct (blocked (content_key repo) s); [by intros [= <- <-]|]. apply Hrest.
Qed.

Lemma content_apart ks j :
  j = content_key repo ++ ks →
  ¬ public_key repo `prefix_of` j ∧ j ≠ catalog_key repo
  ∧ ¬ j `prefix_of` public_key repo ∧ ¬ j `prefix_of` assets_key repo.
Proof.
  intros ->. destruct (content_not_public repo ks) as [H1 H2]. repeat split; try done.
  - unfold content_key, catalog_key. rewrite <- app_assoc. intros E%app_inv_head. done.
  - unfold content_key, assets_key. rewrite <- app_assoc. intros H%prefix_app_inv.
    by apply prefix_cons_inv_1 in H.
Qed.

Lemma catalog_apart :
  ¬ public_key repo `prefix_of` catalog_key repo
  ∧ ¬ catalog_key repo `prefix_of` public_key repo.
Proof.
  unfold public_key, catalog_key. split; intros H%prefix_app_inv; by apply prefix_cons_inv_1 in H.
Qed.

End Frame.

(** ** From the checks on names to the predicates *)

Lemma forallb_names_ok ks : forallb name_ok ks = true → names_ok ks.
Proof.
  rewrite forallb_forall. intros H. apply Forall_forall. intros x Hx.
  apply H. by apply list_elem_of_In.
Qed.

(** [processFile] computes the fingerprint the way [Fingerprinter] does:
    it is the script's lines 67 to 69, followed by the copy and the
    catalog entry. *)
Lemma processFile_Fingerprinter repo catalog relPath s :
  processFile repo catalog relPath s =
    bind (Fingerprinter repo relPath)
         (fun hash =>
            bind (copySync (Path.join [CONTENT_DIR repo; relPath])
                           (Path.join [PUBLIC_CONTENT_DIR repo; outputRel relPath hash]))
                 (fun _ => ret (Js.set catalog relPath
                                       ("/" +:+ Path.join ["content"; outputRel relPath hash])))) s.
Proof.
  unfold processFile, Fingerprinter, bind, ret.
  by destruct (readFileSync _ s) as [[buffer|e] s1].
Qed.

Lemma forEach_app {A B} (f : B → A → M B) (l1 l2 : list A) acc s :
  forEach f (l1 ++ l2) acc s =
    match forEach f l1 acc s with
    | (Ok acc1, s1) => forEach f l2 acc1 s1
    | (Throw e, s1) => (Throw e, s1)
    end.
Proof.
  revert acc s. induction l1 as [|x l1 IH]; intros acc s; [done|].
  simpl. unfold bind. destruct (f acc x s) as [[acc1|e] s1]; [apply IH|done].
Qed.

Lemma forEach_abort {A B} (f : B → A → M B) (pre post : list A) x acc s acc1 s1 e s2 :
  forEach f pre acc s = (Ok acc1, s1) → f acc1 x s1 = (Throw e, s2) →
  forEach f (pre ++ x :: post) acc s = (Throw e, s2).
Proof. intros H1 H2. rewrite forEach_app, H1. simpl. unfold bind. by rewrite H2. Qed.

Lemma run_pair {A} (c : M A) s r : (c s).1 = r → c s = (r, (c s).2).
Proof. intros <-. apply surjective_pairing. Qed.

Lemma chdir_root_Ok repo s :
  names_ok repo → entry s repo = Some Dir → chdir (REPO_ROOT repo) s = (Ok tt, s).
Proof. intros Hrepo H. rewrite chdir_root_eq by done. by rewrite H. Qed.

Lemma clearPublicContent_Ok repo s :
  names_ok repo → blocked (public_key repo) s = false →
  clearPublicContent repo s = (Ok tt, cleared repo s).
Proof. intros Hrepo H. rewrite clearPublicContent_eq by done. by rewrite H. Qed.

Lemma getContentFiles_Ok repo s l :
  names_ok repo → entry s (content_key repo) = Some Dir →
  map rel_path (scanned repo s) = l → getContentFiles repo s = (Ok l, s).
Proof. intros Hrepo H <-. rewrite getContentFiles_eq by done. by rewrite H. Qed.

Lemma sample_repo_ok : names_ok sample_repo.
Proof. by apply forallb_names_ok. Qed.

(** ** A run without error *)

Section Success.

Variable repo : list string.
Hypothesis repo_ok : names_ok repo.

Lemma lookup_with_catalog cat p j :
  with_catalog repo cat p !! j =
    if decide (j = catalog_key repo)
    then Some (File (match p !! catalog_key repo with Some (File r _) => r | _ => true end)
                    (catalog_bytes cat))
    else if decide (j ≠ [] ∧ j `prefix_of` assets_key repo) then Some Dir else p !! j.
Proof.
  unfold with_catalog. destruct (decide (j = catalog_key repo)) as [->|Hne].
  - by rewrite lookup_insert_eq.
  - rewrite lookup_insert_ne by done. by rewrite lookup_mkdirs.
Qed.

Lemma writeCatalog_Ok cat p s' :
  writeCatalog repo cat p = (Ok tt, s') →
  s' = with_catalog repo cat p
  ∧ blocked (assets_key repo) p = false ∧ is_file (p !! assets_key repo) = false
  ∧ p !! catalog_key repo ≠ Some Dir.
Proof.
  rewrite writeCatalog_eq by done.
  destruct (blocked (assets_key repo) p); [done|].
  destruct (is_file (p !! assets_key repo)); [done|].
  destruct (p !! catalog_key repo) as [[? ?|]|]; intros [= <-]; done.
Qed.

Lemma main_Ok_inv s msg s' :
  main repo s = (Ok msg, s') →
  ∃ cat p,
    entry s repo = Some Dir ∧ blocked (public_key repo) s = false
    ∧ (entry s (content_key repo) = Some Dir
       ∨ (entry s (content_key repo) = None ∧ blocked (content_key repo) s = false))
    ∧ forEach (processFile repo) (map rel_path (scan_list repo s)) Js.empty (cleared repo s) = (Ok cat, p)
    ∧ writeCatalog repo cat p = (Ok tt, s')
    ∧ msg = main_message repo (length (scan_list repo s)).
Proof.
  rewrite main_eq by done.
  destruct (entry s repo) as [[? ?|]|]; try done.
  destruct (blocked (public_key repo) s); [done|].
  destruct (entry s (content_key repo)) as [[? ?|]|] eqn:Hck; try done.
  - destruct (forEach _ _ _ _) as [[cat|e] p] eqn:Hrun; [|done].
    destruct (writeCatalog repo cat p) as [[[]|e] s''] eqn:Hw; [|done].
    intros [= <- <-]. exists cat, p. repeat split; try done. by left.
  - destruct (blocked (content_key repo) s) eqn:Hbc; [done|].
    destruct (forEach _ _ _ _) as [[cat|e] p] eqn:Hrun; [|done].
    destruct (writeCatalog repo cat p) as [[[]|e] s''] eqn:Hw; [|done].
    intros [= <- <-]. exists cat, p. repeat split; try done. by right.
Qed.

Lemma public_not_assets j :
  public_key repo `prefix_of` j → j ≠ catalog_key repo ∧ ¬ (j ≠ [] ∧ j `prefix_of` assets_key repo).
Proof.
  intros Hp. split.
  - intros ->. by destruct (catalog_apart repo).
  - intros [_ Hj]. assert (public_key repo `prefix_of` assets_key repo) as H by (by trans j).
    unfold public_key, assets_key in H. apply prefix_app_inv in H. by apply prefix_cons_inv_1 in H.
Qed.

Lemma below_public_not_assets j k :
  j `prefix_of` public_key repo ++ k → j ≠ catalog_key repo.
Proof.
  intros Hj ->. unfold catalog_key, public_key in Hj. rewrite <- app_assoc in Hj.
  apply prefix_app_inv in Hj. by apply prefix_cons_inv_1 in Hj.
Qed.

(** The core of C4 and C5: after a run without error, every file of the
    scan is published with its bytes, the directories above it exist,
    and the output root holds nothing else. *)
Lemma main_published s msg s' :
  content_names_ok repo s →
  main repo s = (Ok msg, s') →
  (∀ ks, ks ∈ scan_list repo s →
     ∃ data, s !! (content_key repo ++ ks) = Some (File true data)
       ∧ s' !! published_key repo ks data = Some (File true data)
       ∧ ∀ q, q ≠ [] → q `prefix_of` parent (published_key repo ks data) → s' !! q = Some Dir)
  ∧ s' !! public_key repo = Some Dir
  ∧ (∀ j n, s' !! j = Some n → public_key repo `prefix_of` j → j ≠ public_key repo →
       ∃ ks, ks ∈ scan_list repo s ∧
         ((j = published_key repo ks (content_data repo s ks)
           ∧ n = File true (content_data repo s ks))
          ∨ (n = Dir ∧ j `prefix_of` parent (published_key repo ks (content_data repo s ks))))).
Proof.
  intros Hnames Hmain.
  destruct (main_Ok_inv s msg s' Hmain) as (cat & p & Hroot & Hb & Hck & Hrun & Hw & _).
  apply writeCatalog_Ok in Hw as (-> & _).
  pose proof (scan_list_ok repo s Hnames) as Hok.
  pose proof (run_closed repo repo_ok _ _ _ _ _ Hok Hrun (cleared_closed repo s)) as Hcl.
  assert (∀ j, public_key repo `prefix_of` j → with_catalog repo cat p !! j = p !! j) as Hsame.
  { intros j Hj. destruct (public_not_assets j Hj) as [H1 H2].
    rewrite lookup_with_catalog. rewrite decide_False by done. by rewrite decide_False. }
  split; [|split].
  - intros ks Hks.
    destruct (run_published repo repo_ok _ _ _ _ _ Hok (NoDup_scan_list repo s) Hrun ks Hks)
      as (data & Hsrc & Hdest).
    rewrite cleared_content in Hsrc by done.
    exists data. split; [done|].
    assert (public_key repo `prefix_of` published_key repo ks data) as Hpk by (by apply prefix_app_r).
    split; [by rewrite Hsame|].
    intros q Hq0 Hq1.
    assert (p !! q = Some Dir) as Hq.
    { apply (Hcl _ _ Hdest Hpk). apply elem_of_ancestors. split; [done|].
      assert (q ∈ prefixes_ne (parent (published_key repo ks data))) as Hin
        by (by apply elem_of_prefixes_ne).
      by apply elem_of_ancestors in Hin as (_ & ? & ?). }
    rewrite lookup_with_catalog. rewrite decide_False.
    + case_decide; done.
    + apply (below_public_not_assets _ (published_rel ks data)).
      trans (parent (published_key repo ks data)); [done|apply parent_prefix].
  - rewrite Hsame by done.
    assert (Hfr := Hrun). apply (run_frame repo repo_ok) in Hfr; [|done].
    destruct (Hfr (public_key repo)) as [E|(_ & E & _)]; [by intros [_ ?]| |done].
    rewrite E, lookup_cleared by done.
    rewrite decide_True; [done|]. split; [by apply public_key_ne|done].
  - intros j n Hj Hp Hne. rewrite Hsame in Hj by done.
    destruct (run_origin repo repo_ok _ _ _ _ _ j n Hok Hrun Hj) as [Hc|(ks & Hks & Hcase)].
    + rewrite lookup_cleared in Hc by done. case_decide as Hd.
      * destruct Hd as [_ Hd]. destruct Hne. by apply (anti_symm prefix).
      * by rewrite decide_True in Hc.
    + exists ks. split; [done|].
      assert (content_data repo (cleared repo s) ks = content_data repo s ks) as Hcd.
      { unfold content_data. by rewrite cleared_content. }
      rewrite Hcd in Hcase. destruct Hcase as [?|(? & _ & ?)]; [by left|by right].
Qed.

End Success.

Lemma elem_of_scan_list repo s ks :
  ks ∈ scan_list repo s ↔
    entry s (content_key repo) = Some Dir ∧ ks ≠ [] ∧ forallb visible ks = true
    ∧ ∃ rd data, s !! (content_key repo ++ ks) = Some (File rd data).
Proof.
  unfold scan_list. destruct (entry s (content_key repo)) as [[? ?|]|].
  - split; [by intros ?%elem_of_nil|by intros [? _]].
  - rewrite elem_of_scanned. tauto.
  - split; [by intros ?%elem_of_nil|by intros [? _]].
Qed.

(** ** Running twice *)

Lemma blocked_ext (k : list string) (s t : gmap (list string) node) :
  (∀ q, q ∈ ancestors k → is_file (s !! q) = is_file (t !! q)) → blocked k s = blocked k t.
Proof.
  unfold blocked. generalize (ancestors k). intros l.
  induction l as [|q l IH]; intros Hq; [done|].
  simpl. rewrite Hq by (by left). f_equal. apply IH. intros ? ?. apply Hq. by right.
Qed.

Section Twice.

Variable repo : list string.
Hypothesis repo_ok : names_ok repo.

Lemma outer_frame_is_file s s1 q :
  outer_frame repo s s1 → ¬ public_key repo `prefix_of` q → q ≠ catalog_key repo →
  is_file (s1 !! q) = is_file (s !! q).
Proof.
  intros H H1 H2. destruct (H q H1 H2) as [->|(-> & -> & _)]; done.
Qed.

Lemma proper_prefix_public q :
  q ∈ ancestors (public_key repo) →
  ¬ public_key repo `prefix_of` q ∧ q ≠ catalog_key repo.
Proof.
  intros (Hq0 & Hq1 & Hq2)%elem_of_ancestors. split.
  - intros Hp. apply Hq2. by apply (anti_symm prefix).
  - intros ->. by destruct (catalog_apart repo).
Qed.

Lemma proper_prefix_content q :
  q ∈ ancestors (content_key repo) →
  ¬ public_key repo `prefix_of` q ∧ q ≠ catalog_key repo.
Proof.
  intros Hq. unfold ancestors, parent, content_key in Hq. rewrite removelast_last in Hq.
  apply elem_of_prefixes_ne in Hq as [Hq0 Hq1]. split.
  - intros Hp. assert (public_key repo `prefix_of` repo) as H by (by trans q).
    apply prefix_length in H. unfold public_key in H. rewrite length_app in H. simpl in H. lia.
  - intros ->. apply prefix_length in Hq1. unfold catalog_key in Hq1.
    rewrite length_app in Hq1. simpl in Hq1. lia.
Qed.

Lemma not_region_cleared s j : ¬ work_region repo j → cleared repo s !! j = s !! j.
Proof.
  intros Hj. rewrite lookup_cleared. rewrite decide_False.
  - rewrite decide_False; [done|]. intros Hp. apply Hj. right. by right.
  - intros [_ Hp]. apply Hj. right. by left.
Qed.

Lemma region_prefix_of_content j :
  j `prefix_of` content_key repo → j = content_key repo ∨ j `prefix_of` public_key repo.
Proof.
  intros Hj. unfold content_key in *. apply prefix_snoc_inv in Hj as [?|Hj]; [by left|].
  right. by apply prefix_app_r.
Qed.

Lemma assets_not_region j :
  j `prefix_of` assets_key repo → ¬ j `prefix_of` repo → ¬ work_region repo j.
Proof.
  intros Hj Hn.
  assert (∃ r, j = repo ++ "src" :: r) as [r ->].
  { destruct (prefix_weak_total j repo (assets_key repo)) as [?|[r ->]];
      [done|by apply prefix_app_r|done|].
    destruct r as [|x r]; [destruct Hn; by rewrite app_nil_r|].
    unfold assets_key in Hj. apply prefix_app_inv in Hj.
    apply prefix_cons_inv_1 in Hj as ->. by exists r. }
  intros [[H|H]|[H|H]].
  - unfold content_key in H. apply prefix_app_inv in H. by apply prefix_cons_inv_1 in H.
  - unfold content_key in H. apply prefix_app_inv in H. by apply prefix_cons_inv_1 in H.
  - unfold public_key in H. apply prefix_app_inv in H. by apply prefix_cons_inv_1 in H.
  - unfold public_key in H. apply prefix_app_inv in H. by apply prefix_cons_inv_1 in H.
Qed.

Lemma catalog_not_region : ¬ work_region repo (catalog_key repo).
Proof.
  unfold catalog_key. intros [[H|H]|[H|H]].
  - unfold content_key in H. apply prefix_app_inv in H. by apply prefix_cons_inv_1 in H.
  - unfold content_key in H. apply prefix_app_inv in H. by apply prefix_cons_inv_1 in H.
  - unfold public_key in H. apply prefix_app_inv in H. by apply prefix_cons_inv_1 in H.
  - unfold public_key in H. apply prefix_app_inv in H. by apply prefix_cons_inv_1 in H.
Qed.

Lemma region_outer_same s s1 j :
  outer_frame repo s s1 → work_region repo j →
  ¬ public_key repo `prefix_of` j → ¬ (j ≠ [] ∧ j `prefix_of` public_key repo) →
  s1 !! j = s !! j.
Proof.
  intros Hout Hj Hp Hq.
  assert (j ≠ catalog_key repo) as Hc by (intros ->; by apply catalog_not_region in Hj).
  destruct (Hout j Hp Hc) as [?|(_ & _ & Hne & [Hpre|Hpre])]; [done|by destruct Hq|].
  destruct (decide (j `prefix_of` repo)) as [Hr|Hr].
  - destruct Hq. split; [done|]. by apply prefix_app_r.
  - by apply assets_not_region in Hj.
Qed.

Lemma cleared_twice_agree s s1 :
  outer_frame repo s s1 → agree (work_region repo) (cleared repo s1) (cleared repo s).
Proof.
  intros Hout j Hj. rewrite !lookup_cleared.
  destruct (decide (j ≠ [] ∧ j `prefix_of` public_key repo)) as [|Hq]; [done|].
  destruct (decide (public_key repo `prefix_of` j)) as [|Hp]; [done|].
  by apply region_outer_same.
Qed.

Lemma main_twice s msg s1 :
  content_names_ok repo s → main repo s = (Ok msg, s1) → main repo s1 = (Ok msg, s1).
Proof.
  intros Hnames Hmain.
  pose proof (main_outer repo repo_ok s _ _ Hnames Hmain) as Hout.
  destruct (main_Ok_inv repo repo_ok s msg s1 Hmain)
    as (cat & p & Hroot & Hb & Hck & Hrun & Hw & ->).
  destruct (writeCatalog_Ok repo repo_ok cat p s1 Hw) as (Hs1 & Hba & Hfa & Hcat).
  pose proof (cleared_twice_agree s s1 Hout) as Hag.
  assert (∀ ks, s1 !! (content_key repo ++ ks) = s !! (content_key repo ++ ks)) as Hcontent.
  { intros ks. destruct (content_apart repo ks _ eq_refl) as (H1 & H2 & H3 & H4).
    destruct (Hout _ H1 H2) as [?|(_ & _ & _ & [?|?])]; done. }
  assert (entry s1 (content_key repo) = entry s (content_key repo)) as Heck.
  { rewrite !entry_ne by (by apply content_key_ne).
    rewrite <- (app_nil_r (content_key repo)). apply Hcontent. }
  assert (scan_list repo s1 = scan_list repo s) as Hscan.
  { unfold scan_list. rewrite Heck.
    rewrite <- (scanned_cleared repo s1), <- (scanned_cleared repo s).
    by rewrite (scanned_agree repo _ _ Hag). }
  assert (entry s1 repo = Some Dir) as Hroot1.
  { destruct (decide (repo = [])) as [->|Hne]; [done|].
    rewrite entry_ne in * by done.
    assert (¬ public_key repo `prefix_of` repo) as H1.
    { intros H%prefix_length. unfold public_key in H. rewrite length_app in H. simpl in H. lia. }
    assert (repo ≠ catalog_key repo) as H2.
    { intros H%(f_equal length). unfold catalog_key in H. rewrite length_app in H. simpl in H. lia. }
    destruct (Hout _ H1 H2) as [->|(H & _)]; [done|congruence]. }
  assert (blocked (public_key repo) s1 = false) as Hb1.
  { rewrite <- Hb. apply blocked_ext. intros q [H1 H2]%proper_prefix_public.
    by apply outer_frame_is_file. }
  assert (blocked (content_key repo) s1 = blocked (content_key repo) s) as Hbc1.
  { apply blocked_ext. intros q [H1 H2]%proper_prefix_content.
    by apply outer_frame_is_file. }
  destruct (local_processFiles repo repo_ok (scan_list repo s) Js.empty
              (scan_list_ok repo s Hnames) (cleared repo s1) (cleared repo s) Hag)
    as (Hres & Hag2 & Hfr).
  rewrite Hrun in Hres, Hag2.
  destruct (forEach (processFile repo) (map rel_path (scan_list repo s)) Js.empty
              (cleared repo s1)) as [r2 p2] eqn:Hrun2.
  simpl in Hres, Hag2, Hfr. subst r2.
  assert (∀ j, ¬ work_region repo j → p2 !! j = with_catalog repo cat p !! j) as Hout2.
  { intros j Hj. rewrite Hfr, not_region_cleared by done. by rewrite <- Hs1. }
  assert (p2 !! catalog_key repo
          = Some (File (match p !! catalog_key repo with Some (File r _) => r | _ => true end)
                       (catalog_bytes cat))) as Hcat2.
  { rewrite Hout2 by apply catalog_not_region.
    rewrite lookup_with_catalog by done. by rewrite decide_True. }
  assert (∀ q, q ≠ [] → q `prefix_of` assets_key repo → is_file (p2 !! q) = false) as Hup.
  { intros q Hq0 Hq. destruct (decide (q `prefix_of` repo)) as [Hr|Hr].
    - rewrite Hag2 by (left; left; by apply prefix_app_r).
      destruct (decide (q = assets_key repo)) as [->|Hne]; [done|].
      by apply (blocked_false_prefix (assets_key repo)).
    - rewrite Hout2 by (by apply assets_not_region).
      rewrite lookup_with_catalog by done. rewrite decide_False.
      + by rewrite decide_True.
      + intros ->. apply prefix_length in Hq. unfold catalog_key, assets_key in Hq.
        rewrite !length_app in Hq. simpl in Hq. lia. }
  assert (writeCatalog repo cat p2 = (Ok tt, s1)) as Hw2.
  { rewrite writeCatalog_eq by done.
    assert (blocked (assets_key repo) p2 = false) as ->.
    { apply not_true_is_false. intros (q & Hq & Hf)%blocked_true.
      apply elem_of_ancestors in Hq as (Hq0 & Hq1 & _). by rewrite Hup in Hf. }
    rewrite Hup by (done || by apply assets_key_ne). rewrite Hcat2. f_equal.
    rewrite Hs1. apply map_eq. intros j. rewrite !lookup_with_catalog by done.
    rewrite Hcat2. destruct (decide (j = catalog_key repo)) as [|Hjc]; [done|].
    destruct (decide (j ≠ [] ∧ j `prefix_of` assets_key repo)) as [|Hja]; [done|].
    destruct (decide (work_region repo j)) as [Hj|Hj]; [by apply Hag2|].
    rewrite Hout2 by done. rewrite lookup_with_catalog by done.
    by rewrite !decide_False. }
  rewrite main_eq by done. rewrite Hroot1, Hb1, Heck, Hbc1, Hscan, Hrun2, Hw2.
  by destruct Hck as [->| [-> ->]].
Qed.

End Twice.

(** ** The catalog object *)

Lemma rel_path_inj ks ks' :
  names_ok ks → ks ≠ [] → names_ok ks' → ks' ≠ [] → rel_path ks = rel_path ks' → ks = ks'.
Proof.
  intros H1 H2 H3 H4 E.
  rewrite <- (split_rel_path ks), <- (split_rel_path ks') by done. by rewrite E.
Qed.

Lemma has_snoc o k v k' : Js.has (o ++ [(k, v)]) k' = Js.has o k' || String.eqb k k'.
Proof. unfold Js.has. rewrite existsb_app. simpl. by rewrite orb_false_r. Qed.

Section Catalog.

Variable repo : list string.
Hypothesis repo_ok : names_ok repo.

Lemma catalog_of_step s s1 kss :
  step_frame repo s s1 → catalog_of repo s1 kss = catalog_of repo s kss.
Proof.
  intros H. unfold catalog_of. f_equal. apply map_ext. intros ks.
  unfold catalog_entry. by rewrite (step_frame_content_data repo s s1).
Qed.

Lemma catalog_of_cons s ks kss :
  catalog_of repo s (ks :: kss) = catalog_entry repo s ks ++ catalog_of repo s kss.
Proof. reflexivity. Qed.

Lemma run_catalog kss cat s cat' s' :
  files_ok kss → NoDup kss →
  (∀ ks, ks ∈ kss → Js.has cat (rel_path ks) = false) →
  forEach (processFile repo) (map rel_path kss) cat s = (Ok cat', s') →
  cat' = cat ++ catalog_of repo s kss.
Proof.
  intros Hok. revert cat s. induction Hok as [|ks kss [Hks Hne] Hok IH]; intros cat s Hnd Hfresh.
  - intros [= <- <-]. unfold catalog_of. simpl. by rewrite app_nil_r.
  - apply NoDup_cons in Hnd as [Hnotin Hnd].
    rewrite forEach_cons. destruct (processFile _ _ _ s) as [[cat1|e] s1] eqn:Hstep; [|done].
    intros Hrest.
    apply (processFile_inv repo repo_ok) in Hstep as (Hf & _ & Hs); try done.
    destruct (Hs cat1 eq_refl) as (data & Hsrc & -> & _).
    assert (Js.has cat (rel_path ks) = false) as Hk by (apply Hfresh; by left).
    apply IH in Hrest; [|done|].
    + rewrite Hrest, (catalog_of_step s s1) by done.
      rewrite catalog_of_cons. unfold catalog_entry, content_data, Js.set. rewrite Hsrc, Hk.
      destruct (String.eqb (rel_path ks) "__proto__"); [done|]. by rewrite <- app_assoc.
    + intros ks' Hin. unfold Js.set.
      destruct (String.eqb (rel_path ks) "__proto__"); [apply Hfresh; by right|].
      rewrite Hk, has_snoc, Hfresh by (by right). simpl.
      apply String.eqb_neq. intros E. apply rel_path_inj in E; try done.
      * by subst ks'.
      * rewrite Forall_forall in Hok. by destruct (Hok ks' Hin).
      * rewrite Forall_forall in Hok. by destruct (Hok ks' Hin).
Qed.

Lemma catalog_of_cleared s kss : catalog_of repo (cleared repo s) kss = catalog_of repo s kss.
Proof.
  unfold catalog_of. f_equal. apply map_ext. intros ks.
  unfold catalog_entry, content_data. by rewrite cleared_content.
Qed.

Lemma main_catalog s msg s' :
  content_names_ok repo s → main repo s = (Ok msg, s') →
  ∃ r, s' !! catalog_key repo
       = Some (File r (catalog_bytes (catalog_of repo s (scan_list repo s)))).
Proof.
  intros Hnames Hmain.
  destruct (main_Ok_inv repo repo_ok s msg s' Hmain) as (cat & p & _ & _ & _ & Hrun & Hw & _).
  apply (writeCatalog_Ok repo repo_ok) in Hw as (-> & _).
  apply run_catalog in Hrun; [|by apply scan_list_ok|apply NoDup_scan_list|done].
  rewrite catalog_of_cleared in Hrun. simpl in Hrun. subst cat.
  rewrite lookup_with_catalog by done. rewrite decide_True by done. eauto.
Qed.

End Catalog.

Lemma get_cons k' v' o k :
  Js.get ((k', v') :: o) k = if String.eqb k' k then Some v' else Js.get o k.
Proof. unfold Js.get. simpl. by destruct (String.eqb k' k). Qed.

Lemma catalog_of_get repo s kss ks :
  files_ok kss → ks ∈ kss → rel_path ks ≠ "__proto__" →
  Js.get (catalog_of repo s kss) (rel_path ks)
  = Some (published_url ks (content_data repo s ks)).
Proof.
  intros Hok Hin Hne. induction Hok as [|ks' kss [Hks' Hne'] Hok IH].
  - by apply elem_of_nil in Hin.
  - assert (names_ok ks ∧ ks ≠ []) as [Hks Hks0].
    { apply elem_of_cons in Hin as [->|Hin]; [done|].
      rewrite Forall_forall in Hok. by apply Hok. }
    rewrite catalog_of_cons. unfold catalog_entry.
    destruct (String.eqb (rel_path ks') "__proto__") eqn:E'.
    + apply String.eqb_eq in E'. simpl. apply IH.
      apply elem_of_cons in Hin as [->|Hin]; done.
    + simpl. rewrite get_cons. destruct (String.eqb (rel_path ks') (rel_path ks)) eqn:E.
      * apply String.eqb_eq, rel_path_inj in E; try done. by subst ks'.
      * apply IH. apply elem_of_cons in Hin as [->|Hin]; [|done].
        by rewrite String.eqb_refl in E.
Qed.

Lemma catalog_of_keys repo s kss :
  Js.keys_in_creation_order (catalog_of repo s kss)
  = filter (fun k => k ≠ "__proto__") (map rel_path kss).
Proof.
  unfold Js.keys_in_creation_order.
  induction kss as [|ks kss IH]; [done|].
  rewrite catalog_of_cons, map_app, IH. simpl. rewrite filter_cons. unfold catalog_entry.
  destruct (String.eqb (rel_path ks) "__proto__") eqn:E.
  - apply String.eqb_eq in E. by rewrite decide_False by (by intros ?).
  - apply String.eqb_neq in E. by rewrite decide_True.
Qed.

Lemma rel_path_proto ks : names_ok ks → ks ≠ [] → rel_path ks = "__proto__" → ks = ["__proto__"].
Proof.
  intros H1 H2 E. apply rel_path_inj; try done. by repeat constructor.
Qed.

Lemma main_scans repo s msg s' :
  names_ok repo → main repo s = (Ok msg, s') →
  getContentFiles repo (cleared repo s) = (Ok (map rel_path (scan_list repo s)), cleared repo s).
Proof.
  intros Hrepo Hmain.
  destruct (main_Ok_inv repo Hrepo s msg s' Hmain) as (_ & _ & _ & Hb & Hck & _).
  rewrite getContentFiles_eq, entry_cleared_content by done. unfold scan_list.
  destruct Hck as [->|[-> Hbc]]; [by rewrite scanned_cleared|].
  by rewrite blocked_cleared_content, Hbc.
Qed.

Lemma main_catalog_object repo s msg s' :
  names_ok repo → content_names_ok repo s → main repo s = (Ok msg, s') →
  (processFiles repo (map rel_path (scan_list repo s)) (cleared repo s)).1
  = Ok (catalog_of repo s (scan_list repo s)).
Proof.
  intros Hrepo Hnames Hmain.
  destruct (main_Ok_inv repo Hrepo s msg s' Hmain) as (cat & p & _ & _ & _ & Hrun & _).
  unfold processFiles. rewrite Hrun. simpl. f_equal.
  apply (run_catalog repo Hrepo) in Hrun; [|by apply scan_list_ok|apply NoDup_scan_list|done].
  by rewrite catalog_of_cleared in Hrun.
Qed.

Lemma NoDup_rel_paths kss : files_ok kss → NoDup kss → NoDup (map rel_path kss).
Proof.
  intros Hok Hnd. apply (NoDup_fmap_2_strong rel_path); [|done].
  intros ks1 ks2 H1 H2 E. unfold files_ok in Hok. rewrite Forall_forall in Hok.
  destruct (Hok _ H1), (Hok _ H2). by apply rel_path_inj.
Qed.

(** ** The keys of an object as [Object.keys] gives them *)

Lemma insert_by_index_perm x l : Js.insert_by_index x l ≡ₚ x :: l.
Proof.
  induction l as [|y l IH]; [done|]. simpl.
  destruct (x.1 <=? y.1)%N; [done|]. rewrite IH. apply perm_swap.
Qed.

Lemma indexed_properties (o : list (string * string)) :
  map snd (omap (fun kv => option_map (fun n => (n, kv)) (Js.array_index kv.1)) o)
  = filter (fun kv => Js.array_index kv.1 ≠ None) o.
Proof.
  induction o as [|kv o IH]; [done|]. rewrite filter_cons. cbn [omap list_omap].
  destruct (Js.array_index kv.1) as [n|] eqn:E; cbn [option_map map snd].
  - rewrite decide_True by done. by rewrite IH.
  - by rewrite decide_False by (by intros ?).
Qed.

Lemma properties_perm (o : Js.object) : Js.properties o ≡ₚ o.
Proof.
  unfold Js.properties, Js.object in *.
  assert (∀ l : list (N * (string * string)), foldr Js.insert_by_index [] l ≡ₚ l) as Hsort.
  { induction l as [|x l IH]; [done|]. simpl. by rewrite insert_by_index_perm, IH. }
  rewrite Hsort, indexed_properties. clear Hsort.
  induction o as [|kv o IH]; [done|]. rewrite !filter_cons.
  destruct (Js.array_index kv.1) as [n|] eqn:E.
  - rewrite decide_True by done. rewrite decide_False by done. simpl. by rewrite IH.
  - rewrite decide_False by (by intros ?). rewrite decide_True by done.
    rewrite <- Permutation_middle. by rewrite IH.
Qed.

Lemma keys_perm (o : Js.object) : Js.keys o ≡ₚ Js.keys_in_creation_order o.
Proof. unfold Js.keys, Js.keys_in_creation_order. by rewrite properties_perm. Qed.

(** ** A run without a content root *)

Lemma main_missing_content repo s :
  names_ok repo →
  entry s (content_key repo) = None → blocked (content_key repo) s = false →
  main repo s
  = (chdir (REPO_ROOT repo) ;; clearPublicContent repo ;; writeCatalog repo Js.empty ;;
     ret ("Processed 0 files. Catalog written to " +:+ CATALOG_FILE repo)) s.
Proof.
  intros Hrepo He Hb. unfold main, bind.
  rewrite chdir_root_eq by done. destruct (entry s repo) as [[? ?|]|]; try done.
  rewrite clearPublicContent_eq by done.
  destruct (blocked (public_key repo) s) eqn:Hbp; [done|].
  rewrite getContentFiles_eq, entry_cleared_content, He by done.
  rewrite blocked_cleared_content, Hb by done.
  unfold processFiles. simpl. unfold ret.
  by destruct (writeCatalog repo Js.empty (cleared repo s)) as [[[]|e] s2].
Qed.

(** * The claims *)

(** C1. Two files with the same bytes get the same fingerprint, whatever
    their relative paths and whatever else the file system holds: it is
    the first [NUM_HEX_CHARS] characters of the MD5 hex digest of the
    bytes, and it has that length. *)
Theorem fingerprint_of_bytes_alone repo relPath1 relPath2 s1 s2 data :
  entry s1 (Path.key_of_path (Path.join [CONTENT_DIR repo; relPath1])) = Some (File true data) →
  entry s2 (Path.key_of_path (Path.join [CONTENT_DIR repo; relPath2])) = Some (File true data) →
  Fingerprinter repo relPath1 s1 = (Ok (js_slice (Md5.hex data) 0 NUM_HEX_CHARS), s1)
  ∧ Fingerprinter repo relPath2 s2 = (Ok (js_slice (Md5.hex data) 0 NUM_HEX_CHARS), s2)
  ∧ String.length (js_slice (Md5.hex data) 0 NUM_HEX_CHARS) = Z.to_nat NUM_HEX_CHARS.
Proof.
  intros H1 H2. split; [|split].
  - unfold Fingerprinter, bind, readFileSync, bind, statSync, ret, fingerprint. by rewrite H1.
  - unfold Fingerprinter, bind, readFileSync, bind, statSync, ret, fingerprint. by rewrite H2.
  - exact (length_fingerprint data).
Qed.

Lemma fingerprint_of_bytes_alone_witness :
  Fingerprinter sample_repo "docs/a.txt" sample_fs = (Ok "5d41402abc4b2a76", sample_fs)
  ∧ Fingerprinter sample_repo "img/copy.bin" other_fs = (Ok "5d41402abc4b2a76", other_fs)
  ∧ String.length "5d41402abc4b2a76" = 16%nat.
Proof.
  exact (fingerprint_of_bytes_alone sample_repo "docs/a.txt" "img/copy.bin"
           sample_fs other_fs (bytes_of "hello") eq_refl eq_refl).
Defined.

(** C2. A second run, on the file system that a first run without error
    has left, prints the same line and leaves that file system exactly as
    it is: the catalog file has the same bytes, and the output root holds
    the same published files under the same names. *)
Theorem run_twice_same_result repo s msg s1 :
  forallb name_ok repo = true → fs_names_ok s = true →
  main repo s = (Ok msg, s1) →
  main repo s1 = (Ok msg, s1).
Proof.
  intros Hrepo%forallb_names_ok Hfs Hmain.
  apply (main_twice repo Hrepo s); [|done]. by apply fs_names_ok_content.
Qed.

Lemma run_twice_same_result_witness :
  main sample_repo (main sample_repo sample_fs).2
  = (Ok "Processed 3 files. Catalog written to /srv/viewer/src/assets/content-catalog.json",
     (main sample_repo sample_fs).2).
Proof.
  apply (run_twice_same_result sample_repo sample_fs).
  - vm_compute; reflexivity.
  - vm_compute; reflexivity.
  - apply run_pair. vm_compute; reflexivity.
Defined.

(** C3 fails on a content root with a file [__proto__] at its top: the
    scanner returns the path, the run goes through and counts one file,
    and the catalog object has no key at all. *)
Example proto_path_is_no_catalog_key :
  (getContentFiles sample_repo (cleared sample_repo proto_fs)).1 = Ok ["__proto__"]
  ∧ (processFiles sample_repo ["__proto__"] (cleared sample_repo proto_fs)).1 = Ok Js.empty
  ∧ (main sample_repo proto_fs).1
    = Ok "Processed 1 files. Catalog written to /srv/viewer/src/assets/content-catalog.json"
  ∧ (main sample_repo proto_fs).2 !! catalog_key sample_repo
    = Some (File true (bytes_of ("{}" +:+ Js.newline))).
Proof. split; [|split; [|split]]; vm_compute; reflexivity. Qed.

(** X1. Where the content root has no file [__proto__] at its top, the
    keys of the catalog object of a run without error, as [Object.keys]
    gives them, are the relative paths that the scanner has returned,
    each of them once, and the catalog file is the JSON text of that
    object. *)
Theorem catalog_keys_are_scanned_paths repo s msg s' :
  forallb name_ok repo = true → fs_names_ok s = true →
  main repo s = (Ok msg, s') →
  is_file (s !! (content_key repo ++ ["__proto__"])) = false →
  ∃ files cat r,
    getContentFiles repo (cleared repo s) = (Ok files, cleared repo s)
    ∧ (processFiles repo files (cleared repo s)).1 = Ok cat
    ∧ s' !! catalog_key repo
      = Some (File r (list_byte_of_string (Js.stringify cat 2 +:+ Js.newline)))
    ∧ Js.keys cat ≡ₚ files
    ∧ NoDup (Js.keys cat).
Proof.
  intros Hrepo%forallb_names_ok Hfs Hmain Hproto.
  pose proof (fs_names_ok_content repo s Hfs) as Hnames.
  pose proof (scan_list_ok repo s Hnames) as Hok.
  destruct (main_catalog repo Hrepo s msg s' Hnames Hmain) as [r Hr].
  exists (map rel_path (scan_list repo s)), (catalog_of repo s (scan_list repo s)), r.
  split; [by apply (main_scans repo s msg s')|].
  split; [by apply (main_catalog_object repo s msg s')|].
  split; [exact Hr|].
  assert (Js.keys (catalog_of repo s (scan_list repo s)) ≡ₚ map rel_path (scan_list repo s))
    as Hkeys.
  { rewrite keys_perm, catalog_of_keys. rewrite filter_all; [done|].
    apply Forall_forall. intros k Hk E.
    apply list_elem_of_fmap in Hk as (ks & -> & Hks).
    unfold files_ok in Hok. rewrite Forall_forall in Hok. destruct (Hok ks Hks) as [H1 H2].
    apply rel_path_proto in E; [|done..]. subst ks.
    apply elem_of_scan_list in Hks as (_ & _ & _ & rd & data & Hfile).
    by rewrite Hfile in Hproto. }
  split; [exact Hkeys|]. rewrite Hkeys.
  apply NoDup_rel_paths; [done|apply NoDup_scan_list].
Qed.

Lemma catalog_keys_are_scanned_paths_witness :
  ∃ files cat r,
    getContentFiles sample_repo (cleared sample_repo sample_fs)
    = (Ok files, cleared sample_repo sample_fs)
    ∧ (processFiles sample_repo files (cleared sample_repo sample_fs)).1 = Ok cat
    ∧ (main sample_repo sample_fs).2 !! catalog_key sample_repo
      = Some (File r (list_byte_of_string (Js.stringify cat 2 +:+ Js.newline)))
    ∧ Js.keys cat ≡ₚ files
    ∧ NoDup (Js.keys cat).
Proof.
  apply (catalog_keys_are_scanned_paths sample_repo sample_fs
           "Processed 3 files. Catalog written to /srv/viewer/src/assets/content-catalog.json").
  - vm_compute; reflexivity.
  - vm_compute; reflexivity.
  - apply run_pair. vm_compute; reflexivity.
  - vm_compute; reflexivity.
Defined.





(** C6 fails on the same content root: the file [__proto__] is processed
    and published under its hashed name, and the catalog has no URL for
    its relative path. *)
Example proto_file_has_no_url :
  (main sample_repo proto_fs).2 !! (public_key sample_repo ++ ["__proto__.5d41402abc4b2a76"])
  = Some (File true (bytes_of "hello"))
  ∧ ∃ cat, (processFiles sample_repo ["__proto__"] (cleared sample_repo proto_fs)).1 = Ok cat
           ∧ Js.get cat "__proto__" = None.
Proof.
  split; [vm_compute; reflexivity|]. exists Js.empty. split; vm_compute; reflexivity.
Qed.



(** X4. The scenario of the specification: with [docs/a.txt] holding
    [hello] and [docs/b.txt] holding [world], the scanner returns the two
    paths, the output root gets [docs/a.<hash1>.txt] and
    [docs/b.<hash2>.txt], and the catalog file is the JSON text of an
    object with two keys that maps the two paths to their URLs. *)
Example scenario_two_documents :
  (main sample_repo scenario_fs).1
  = Ok "Processed 2 files. Catalog written to /srv/viewer/src/assets/content-catalog.json"
  ∧ (main sample_repo scenario_fs).2 !! (public_key sample_repo ++ ["docs"; "a.5d41402abc4b2a76.txt"])
    = Some (File true (bytes_of "hello"))
  ∧ (main sample_repo scenario_fs).2 !! (public_key sample_repo ++ ["docs"; "b.7d793037a0760186.txt"])
    = Some (File true (bytes_of "world"))
  ∧ ∃ files cat,
      (getContentFiles sample_repo (cleared sample_repo scenario_fs)).1 = Ok files
      ∧ files ≡ₚ ["docs/a.txt"; "docs/b.txt"]
      ∧ (processFiles sample_repo files (cleared sample_repo scenario_fs)).1 = Ok cat
      ∧ (main sample_repo scenario_fs).2 !! catalog_key sample_repo
        = Some (File true (list_byte_of_string (Js.stringify cat 2 +:+ Js.newline)))
      ∧ Js.keys cat ≡ₚ ["docs/a.txt"; "docs/b.txt"]
      ∧ Js.get cat "docs/a.txt" = Some "/content/docs/a.5d41402abc4b2a76.txt"
      ∧ Js.get cat "docs/b.txt" = Some "/content/docs/b.7d793037a0760186.txt".
Proof.
  split; [vm_compute; reflexivity|]. split; [vm_compute; reflexivity|].
  split; [vm_compute; reflexivity|].
  exists ["docs/b.txt"; "docs/a.txt"],
         [("docs/b.txt", "/content/docs/b.7d793037a0760186.txt");
          ("docs/a.txt", "/content/docs/a.5d41402abc4b2a76.txt")].
  split; [vm_compute; reflexivity|]. split; [apply perm_swap|].
  split; [vm_compute; reflexivity|]. split; [vm_compute; reflexivity|].
  split; [apply perm_swap|]. split; vm_compute; reflexivity.
Qed.

(** C7. When reading, hashing or copying a file of the scan list fails,
    the run ends there with that error: the file system is left as the
    failing step left it, whatever files come later in the list, and the
    catalog file is as it was before the run. *)
Theorem run_aborts_at_first_failure repo s sc before relPath after catalog sp e sf :
  forallb name_ok repo = true → fs_names_ok s = true →
  chdir (REPO_ROOT repo) s = (Ok tt, s) →
  clearPublicContent repo s = (Ok tt, sc) →
  getContentFiles repo sc = (Ok (before ++ relPath :: after), sc) →
  processFiles repo before sc = (Ok catalog, sp) →
  processFile repo catalog relPath sp = (Throw e, sf) →
  main repo s = (Throw e, sf)
  ∧ (∀ later, processFiles repo (before ++ relPath :: later) sc = (Throw e, sf))
  ∧ sf !! catalog_key repo = s !! catalog_key repo.
Proof.
  intros Hrepo Hnames Hcd Hclear Hscan Hpre Hstep.
  assert (∀ later, processFiles repo (before ++ relPath :: later) sc = (Throw e, sf)) as Hlater.
  { intros later. by apply (forEach_abort _ _ _ _ _ _ _ _ _ _ Hpre Hstep). }
  assert (main repo s = (Throw e, sf)) as Hmain.
  { unfold main, bind. rewrite Hcd, Hclear, Hscan. by rewrite Hlater. }
  split; [done|]. split; [done|].
  apply forallb_names_ok in Hrepo. apply (fs_names_ok_content repo) in Hnames.
  rewrite clearPublicContent_eq in Hclear by done.
  destruct (blocked (public_key repo) s) eqn:Hb; [done|]. injection Hclear as <-.
  destruct (catalog_apart repo) as [Hc1 Hc2].
  assert (cleared repo s !! catalog_key repo = s !! catalog_key repo) as Hcl.
  { rewrite lookup_cleared. rewrite decide_False by (by intros [_ ?]). by rewrite decide_False. }
  assert (before ++ relPath :: after = map rel_path (scan_list repo s)) as Hfiles.
  { rewrite getContentFiles_eq in Hscan by done.
    rewrite entry_cleared_content in Hscan by done. unfold scan_list.
    destruct (entry s (content_key repo)) as [[? ?|]|]; try done.
    - injection Hscan as Hs. rewrite <- Hs. by rewrite scanned_cleared.
    - destruct (blocked (content_key repo) (cleared repo s)); [done|].
      injection Hscan as Hs. by destruct before. }
  pose proof (Hlater after) as Hrun. unfold processFiles in Hrun. rewrite Hfiles in Hrun.
  apply (run_frame repo Hrepo) in Hrun; [|by apply scan_list_ok].
  destruct (Hrun (catalog_key repo)) as [E|(_ & _ & _ & ?)]; [by intros [? _]|congruence|done].
Qed.

Lemma run_aborts_at_first_failure_witness :
  main sample_repo unreadable_fs
  = (Throw EACCES,
     (processFile sample_repo [("z.txt", "/content/z.5d41402abc4b2a76.txt")] "secret.txt"
        (processFiles sample_repo ["z.txt"] (cleared sample_repo unreadable_fs)).2).2)
  ∧ processFiles sample_repo (["z.txt"] ++ "secret.txt" :: ["a.txt"; "later.txt"])
      (cleared sample_repo unreadable_fs)
    = (Throw EACCES,
       (processFile sample_repo [("z.txt", "/content/z.5d41402abc4b2a76.txt")] "secret.txt"
          (processFiles sample_repo ["z.txt"] (cleared sample_repo unreadable_fs)).2).2)
  ∧ (processFile sample_repo [("z.txt", "/content/z.5d41402abc4b2a76.txt")] "secret.txt"
       (processFiles sample_repo ["z.txt"] (cleared sample_repo unreadable_fs)).2).2
      !! catalog_key sample_repo
    = unreadable_fs !! catalog_key sample_repo.
Proof.
  destruct (run_aborts_at_first_failure sample_repo unreadable_fs
              (cleared sample_repo unreadable_fs) ["z.txt"] "secret.txt" ["a.txt"]
              [("z.txt", "/content/z.5d41402abc4b2a76.txt")]
              (processFiles sample_repo ["z.txt"] (cleared sample_repo unreadable_fs)).2
              EACCES
              (processFile sample_repo [("z.txt", "/content/z.5d41402abc4b2a76.txt")] "secret.txt"
                 (processFiles sample_repo ["z.txt"] (cleared sample_repo unreadable_fs)).2).2)
    as (H1 & H2 & H3).
  - vm_compute; reflexivity.
  - vm_compute; reflexivity.
  - apply chdir_root_Ok; [apply sample_repo_ok|vm_compute; reflexivity].
  - apply clearPublicContent_Ok; [apply sample_repo_ok|vm_compute; reflexivity].
  - apply getContentFiles_Ok; [apply sample_repo_ok|vm_compute; reflexivity..].
  - apply (run_pair (processFiles sample_repo ["z.txt"])). vm_compute; reflexivity.
  - apply (run_pair (processFile sample_repo [("z.txt", "/content/z.5d41402abc4b2a76.txt")] "secret.txt")).
    vm_compute; reflexivity.
  - split; [exact H1|]. split; [exact (H2 ["a.txt"; "later.txt"])|exact H3].
Defined.

(** C8, as the code has it.  Where the content root does not exist (and
    no directory above it is a regular file), the scanner does not fail:
    it returns the empty list and leaves the file system as it is.  The
    run then is the run on an empty list of files: it clears the output
    root and writes the catalog of the empty object, and when these go
    through it reports zero files and the catalog file holds [{}]. *)
Theorem scanner_of_missing_root repo s :
  forallb name_ok repo = true →
  entry s (Path.key_of_path (CONTENT_DIR repo)) = None →
  blocked (Path.key_of_path (CONTENT_DIR repo)) s = false →
  getContentFiles repo s = (Ok [], s)
  ∧ main repo s
    = (chdir (REPO_ROOT repo) ;; clearPublicContent repo ;; writeCatalog repo Js.empty ;;
       ret ("Processed 0 files. Catalog written to " +:+ CATALOG_FILE repo)) s
  ∧ (∀ msg s', main repo s = (Ok msg, s') →
       msg = "Processed 0 files. Catalog written to " +:+ CATALOG_FILE repo
       ∧ (∃ r, s' !! catalog_key repo = Some (File r (bytes_of ("{}" +:+ Js.newline))))
       ∧ ∀ j, public_key repo `prefix_of` j → j ≠ public_key repo → s' !! j = None).
Proof.
  intros Hrepo%forallb_names_ok He Hb.
  split.
  { unfold getContentFiles, scanRecursive, bind, fg_sync_all, ret. by rewrite He, Hb. }
  rewrite CONTENT_DIR_eq, key_of_abs_path in He, Hb by (try done; by apply content_key_ok).
  pose proof (main_missing_content repo s Hrepo He Hb) as Hmain.
  split; [exact Hmain|].
  intros msg s' Hok. rewrite Hmain in Hok. unfold bind, ret in Hok.
  destruct (chdir (REPO_ROOT repo) s) as [[[]|?] s0] eqn:Hcd; [|done].
  rewrite chdir_root_eq in Hcd by done.
  assert (s0 = s) as -> by (destruct (entry s repo) as [[? ?|]|]; congruence).
  destruct (clearPublicContent repo s) as [[[]|?] s1] eqn:Hcl; [|done].
  rewrite clearPublicContent_eq in Hcl by done.
  destruct (blocked (public_key repo) s); [done|]. injection Hcl as <-.
  destruct (writeCatalog repo Js.empty (cleared repo s)) as [[[]|?] s2] eqn:Hw; [|done].
  injection Hok as <- <-.
  apply (writeCatalog_Ok repo Hrepo) in Hw as (-> & _).
  split; [done|]. split.
  - rewrite lookup_with_catalog. rewrite decide_True by done. eauto.
  - intros j Hj Hne. destruct (public_not_assets repo j Hj) as [H1 H2].
    rewrite lookup_with_catalog. rewrite decide_False by done. rewrite decide_False by done.
    rewrite lookup_cleared by done. rewrite decide_False.
    + by rewrite decide_True.
    + intros [_ H]. apply Hne. by apply (anti_symm prefix).
Qed.

Lemma scanner_of_missing_root_witness :
  getContentFiles sample_repo no_content_fs = (Ok [], no_content_fs)
  ∧ (main sample_repo no_content_fs).1
    = Ok "Processed 0 files. Catalog written to /srv/viewer/src/assets/content-catalog.json"
  ∧ ∃ r, (main sample_repo no_content_fs).2 !! catalog_key sample_repo
         = Some (File r (bytes_of ("{}" +:+ Js.newline))).
Proof.
  destruct (scanner_of_missing_root sample_repo no_content_fs) as (H1 & _ & H3).
  - vm_compute; reflexivity.
  - vm_compute; reflexivity.
  - vm_compute; reflexivity.
  - split; [exact H1|].
    assert ((main sample_repo no_content_fs).1
            = Ok "Processed 0 files. Catalog written to /srv/viewer/src/assets/content-catalog.json")
      as Hmsg by (vm_compute; reflexivity).
    split; [exact Hmsg|].
    destruct (H3 _ _ (run_pair _ _ _ Hmsg)) as (_ & Hcat & _). exact Hcat.
Defined.

(** C8 as stated fails: here the content root does not exist, the scanner
    returns the empty list, and the run goes on to write an empty
    catalog. *)
Lemma scanner_of_missing_root_counterexample :
  entry no_content_fs (Path.key_of_path (CONTENT_DIR sample_repo)) = None
  ∧ (getContentFiles sample_repo no_content_fs).1 = Ok []
  ∧ (main sample_repo no_content_fs).1
    = Ok "Processed 0 files. Catalog written to /srv/viewer/src/assets/content-catalog.json"
  ∧ (main sample_repo no_content_fs).2 !! catalog_key sample_repo
    = Some (File true (bytes_of ("{}" +:+ Js.newline))).
Proof. split; [|split; [|split]]; vm_compute; reflexivity. Qed.

(** C9, as the code has it.  Whatever the outcome of a run, nothing at or
    below the content root changes; and every path that changes lies at
    or below the output root, or is the catalog file, or is a directory
    that was missing above one of the two and has been created. *)
Theorem run_leaves_content_root repo s r s' :
  forallb name_ok repo = true → fs_names_ok s = true →
  main repo s = (r, s') →
  (∀ ks, s' !! (content_key repo ++ ks) = s !! (content_key repo ++ ks))
  ∧ (∀ j, s' !! j = s !! j
          ∨ public_key repo `prefix_of` j
          ∨ j = catalog_key repo
          ∨ (s !! j = None ∧ s' !! j = Some Dir
             ∧ (j `prefix_of` public_key repo ∨ j `prefix_of` assets_key repo))).
Proof.
  intros Hrepo%forallb_names_ok Hnames%(fs_names_ok_content repo) Hmain.
  pose proof (main_outer repo Hrepo s r s' Hnames Hmain) as Hout.
  split.
  - intros ks. destruct (content_apart repo ks _ eq_refl) as (H1 & H2 & H3 & H4).
    destruct (Hout _ H1 H2) as [?|(_ & _ & _ & [?|?])]; done.
  - intros j. destruct (decide (public_key repo `prefix_of` j)) as [?|Hp]; [by right; left|].
    destruct (decide (j = catalog_key repo)) as [?|Hc]; [by right; right; left|].
    destruct (Hout j Hp Hc) as [?|(? & ? & _ & ?)]; [by left|]. by right; right; right.
Qed.

Lemma run_leaves_content_root_witness :
  (main sample_repo sample_fs).2 !! (content_key sample_repo ++ ["docs"; "a.txt"])
  = sample_fs !! (content_key sample_repo ++ ["docs"; "a.txt"])
  ∧ ((main sample_repo sample_fs).2 !! ["srv"; "viewer"; "src"] = sample_fs !! ["srv"; "viewer"; "src"]
     ∨ public_key sample_repo `prefix_of` ["srv"; "viewer"; "src"]
     ∨ ["srv"; "viewer"; "src"] = catalog_key sample_repo
     ∨ (sample_fs !! ["srv"; "viewer"; "src"] = None
        ∧ (main sample_repo sample_fs).2 !! ["srv"; "viewer"; "src"] = Some Dir
        ∧ (["srv"; "viewer"; "src"] `prefix_of` public_key sample_repo
           ∨ ["srv"; "viewer"; "src"] `prefix_of` assets_key sample_repo))).
Proof.
  destruct (run_leaves_content_root sample_repo sample_fs
              (main sample_repo sample_fs).1 (main sample_repo sample_fs).2
              eq_refl eq_refl (surjective_pairing _)) as [H1 H2].
  split; [apply H1|apply H2].
Defined.

(** C9 as stated fails: the run creates [src/assets], which is neither
    below the output root nor the catalog file. *)
Lemma run_leaves_content_root_counterexample :
  sample_fs !! ["srv"; "viewer"; "src"; "assets"] = None
  ∧ (main sample_repo sample_fs).2 !! ["srv"; "viewer"; "src"; "assets"] = Some Dir
  ∧ bool_decide (public_key sample_repo `prefix_of` ["srv"; "viewer"; "src"; "assets"]) = false
  ∧ bool_decide (["srv"; "viewer"; "src"; "assets"] = catalog_key sample_repo) = false.
Proof. split; [|split; [|split]]; vm_compute; reflexivity. Qed.

(** X3. Two relative paths made of proper names that are published under
    the same output path are the same path: no two scanned files share
    a published copy, whatever their fingerprints. *)
Theorem output_paths_do_not_collide d1 b1 data1 d2 b2 data2 :
  forallb name_ok (d1 ++ [b1]) = true → forallb name_ok (d2 ++ [b2]) = true →
  outputRel (js_join "/" (d1 ++ [b1])) (fingerprint data1)
  = outputRel (js_join "/" (d2 ++ [b2])) (fingerprint data2) →
  d1 = d2 ∧ b1 = b2.
Proof.
  intros [Hd1 Hb1]%forallb_names_ok%Forall_app [Hd2 Hb2]%forallb_names_ok%Forall_app E.
  rewrite Forall_singleton in Hb1, Hb2.
  fold (rel_path (d1 ++ [b1])) (rel_path (d2 ++ [b2])) in E.
  pose proof (published_name_ok b1 data1 Hb1) as Hp1.
  pose proof (published_name_ok b2 data2 Hb2) as Hp2.
  unfold published_name in Hp1, Hp2.
  rewrite !outputRel_rel_path in E by done.
  apply rel_path_inj in E.
  - apply app_inj_tail in E as [-> E]. split; [done|].
    by apply (published_name_inj b1 b2 data1 data2).
  - apply Forall_app. split; [done|]. by apply Forall_singleton.
  - by destruct d1.
  - apply Forall_app. split; [done|]. by apply Forall_singleton.
  - by destruct d2.
Qed.

Lemma output_paths_do_not_collide_witness :
  ["docs"] = ["docs"] ∧ "a.txt" = "a.txt".
Proof.
  apply (output_paths_do_not_collide ["docs"] "a.txt" (bytes_of "hello")
           ["docs"] "a.txt" (bytes_of "hello")); reflexivity.
Defined.

(** * Further properties of the script *)

(** ** [scanRecursive] *)

Lemma elem_of_globbed (k : list string) (hidden : bool) (s : gmap (list string) node)
    (kv : list string * node) :
  kv ∈ map_to_list (filter (fun kv => globbed k hidden kv = true) s) ↔
    ∃ ks rd data, kv = (k ++ ks, File rd data) ∧ ks ≠ []
      ∧ s !! (k ++ ks) = Some (File rd data)
      ∧ (hidden = true ∨ forallb visible ks = true).
Proof.
  destruct kv as [j n]. rewrite elem_of_map_to_list, map_lookup_filter_Some. simpl.
  unfold globbed. simpl. rewrite !andb_true_iff, negb_true_iff, orb_true_iff.
  rewrite bool_decide_eq_true, bool_decide_eq_false. split.
  - intros (Hj & ((Hf & [ks ->]) & Hne) & Hv). rewrite drop_app_length in Hv.
    destruct n as [rd data|]; [|done]. exists ks, rd, data.
    split; [done|]. split; [|done]. intros ->. by rewrite app_nil_r in Hne.
  - intros (ks & rd & data & [= -> ->] & Hne & Hk & Hv). rewrite drop_app_length.
    split; [done|]. split; [|done]. split; [split; [done|by apply prefix_app_r]|].
    intros E. rewrite <- (app_nil_r k) in E at 2. by apply app_inv_head in E.
Qed.

Example utf8_ok_values :
  utf8_ok "docs" = true
  ∧ utf8_ok (String "195" (String "169" "t")) = true
  ∧ utf8_ok (String "226" (String "130" (String "172" ""))) = true
  ∧ utf8_ok (String "240" (String "159" (String "152" (String "128" "")))) = true
  ∧ utf8_ok (String "255" ".txt") = false
  ∧ utf8_ok (String "192" (String "175" "")) = false
  ∧ utf8_ok (String "237" (String "160" (String "128" ""))) = false
  ∧ utf8_ok (String "244" (String "144" (String "128" (String "128" "")))) = false
  ∧ utf8_ok (String "195" "") = false.
Proof. vm_compute. repeat split. Qed.

(** X5. When [scanRecursive] returns, on a directory that exists in a
    file system whose names are well-formed UTF-8, it has returned, each
    once, the relative paths of the regular files below the directory,
    with ["/"] between the components; a path with a component that
    starts with a dot is returned only under the option [dot: true].  The
    file system is left as it is. *)
Theorem scanRecursive_lists_files root opts s files s' :
  forallb name_ok root = true → fs_names_ok s = true → fs_utf8_ok s = true →
  entry s root = Some Dir →
  scanRecursive (abs_path root) opts s = (Ok files, s') →
  s' = s
  ∧ NoDup files
  ∧ ∀ p, p ∈ files ↔
      ∃ ks rd data, p = js_join "/" ks ∧ ks ≠ []
        ∧ s !! (root ++ ks) = Some (File rd data)
        ∧ (dot opts = Some true ∨ forallb visible ks = true).
Proof.
  intros Hroot%forallb_names_ok Hfs _ Hdir.
  set (l := map_to_list (filter (fun kv => globbed root (Js.Boolean (dot opts)) kv = true) s)).
  assert (∀ b : option bool, Js.Boolean b = true ↔ b = Some true) as Hbool.
  { intros [[]|]; simpl; split; congruence. }
  assert (scanRecursive (abs_path root) opts s
          = (Ok (map (fun kv : list string * node => rel_path (drop (length root) kv.1)) l), s))
    as ->.
  { unfold scanRecursive, bind, fg_sync_all, ret. rewrite key_of_abs_path, Hdir by done.
    fold l. rewrite map_map. f_equal. f_equal. apply map_ext. intros kv.
    unfold Path.sep. by rewrite js_join_split. }
  intros [= <- <-]. split; [done|]. split.
  - apply NoDup_fmap_2_strong; [|apply NoDup_map_to_list].
    intros kv1 kv2 (ks1 & rd1 & d1 & -> & Hn1 & Hk1 & _)%elem_of_globbed
                   (ks2 & rd2 & d2 & -> & Hn2 & Hk2 & _)%elem_of_globbed E.
    simpl in E. rewrite !drop_app_length in E.
    pose proof (fs_names_ok_spec _ _ _ Hfs Hk1) as [_ H1]%Forall_app.
    pose proof (fs_names_ok_spec _ _ _ Hfs Hk2) as [_ H2]%Forall_app.
    apply rel_path_inj in E; try done. subst ks2. rewrite Hk1 in Hk2. by injection Hk2 as -> ->.
  - intros p. rewrite list_elem_of_fmap. split.
    + intros (kv & -> & (ks & rd & data & -> & Hne & Hk & Hv)%elem_of_globbed).
      simpl. rewrite drop_app_length. exists ks, rd, data. rewrite Hbool in Hv. done.
    + intros (ks & rd & data & -> & Hne & Hk & Hv).
      exists (root ++ ks, File rd data). simpl. rewrite drop_app_length. split; [done|].
      apply elem_of_globbed. exists ks, rd, data. rewrite Hbool. done.
Qed.

Lemma scanRecursive_lists_files_witness :
  (scanRecursive (abs_path (content_key sample_repo)) {| dot := Some true |} sample_fs).2
  = sample_fs
  ∧ NoDup ["docs/b.txt"; "docs/a.txt"; "img/copy.bin"; ".hidden"]
  ∧ ∀ p, p ∈ ["docs/b.txt"; "docs/a.txt"; "img/copy.bin"; ".hidden"] ↔
      ∃ ks rd data, p = js_join "/" ks ∧ ks ≠ []
        ∧ sample_fs !! (content_key sample_repo ++ ks) = Some (File rd data)
        ∧ (dot {| dot := Some true |} = Some true ∨ forallb visible ks = true).
Proof.
  apply (scanRecursive_lists_files (content_key sample_repo) {| dot := Some true |} sample_fs).
  - vm_compute; reflexivity.
  - vm_compute; reflexivity.
  - vm_compute; reflexivity.
  - vm_compute; reflexivity.
  - apply run_pair. vm_compute; reflexivity.
Defined.

(** X6. [scanRecursive] never changes the file system, whatever it
    returns.  It throws ENOTDIR when the directory to scan is a regular
    file, and when it does not exist and a directory above it is a
    regular file. *)
Theorem scanRecursive_reads_only root opts s :
  forallb name_ok root = true →
  (scanRecursive (abs_path root) opts s).2 = s
  ∧ (is_file (s !! root) = true → root ≠ [] →
     (scanRecursive (abs_path root) opts s).1 = Throw ENOTDIR)
  ∧ (s !! root = None →
     (∃ q, q ≠ [] ∧ q `prefix_of` root ∧ q ≠ root ∧ is_file (s !! q) = true) →
     (scanRecursive (abs_path root) opts s).1 = Throw ENOTDIR).
Proof.
  intros Hroot%forallb_names_ok.
  unfold scanRecursive, bind, fg_sync_all, ret. rewrite key_of_abs_path by done.
  split; [|split].
  - destruct (entry s root) as [[rd data|]|]; [done|done|]. by destruct (blocked root s).
  - intros Hf Hne. rewrite entry_ne by done. by destruct (s !! root) as [[? ?|]|].
  - intros Hnone (q & H0 & H1 & H2 & Hf).
    assert (root ≠ []) as Hne by (intros ->; apply prefix_nil_inv in H1; done).
    rewrite entry_ne, Hnone by done.
    assert (blocked root s = true) as ->; [|done].
    apply blocked_true. exists q. split; [|done]. by apply elem_of_ancestors.
Qed.

Lemma scanRecursive_reads_only_witness :
  (scanRecursive (abs_path (content_key sample_repo)) {| dot := None |} files_in_the_way_fs).2
  = files_in_the_way_fs
  ∧ (scanRecursive (abs_path (content_key sample_repo)) {| dot := None |} files_in_the_way_fs).1
    = Throw ENOTDIR
  ∧ (scanRecursive (abs_path (public_key sample_repo)) {| dot := None |} files_in_the_way_fs).1
    = Throw ENOTDIR.
Proof.
  destruct (scanRecursive_reads_only (content_key sample_repo) {| dot := None |}
              files_in_the_way_fs) as (H1 & H2 & _); [vm_compute; reflexivity|].
  destruct (scanRecursive_reads_only (public_key sample_repo) {| dot := None |}
              files_in_the_way_fs) as (_ & _ & H3); [vm_compute; reflexivity|].
  split; [exact H1|]. split; [apply H2; [vm_compute; reflexivity|done]|].
  apply H3; [vm_compute; reflexivity|].
  exists ["srv"; "viewer"; "public"]. split; [done|]. split; [by exists ["content"]|].
  split; [done|]. vm_compute; reflexivity.
Defined.

(** ** [clearPublicContent] *)

Lemma blocked_false_iff (k : list string) (s : gmap (list string) node) :
  blocked k s = false ↔ ∀ q, q ≠ [] → q `prefix_of` k → q ≠ k → is_file (s !! q) = false.
Proof.
  split.
  - intros Hb q H0 H1 H2. by apply (blocked_false_prefix k).
  - intros H. apply not_true_is_false. intros (q & (H0 & H1 & H2)%elem_of_ancestors & Hf)%blocked_true.
    by rewrite H in Hf.
Qed.

(** X7. After [clearPublicContent] the output root is a directory with
    nothing in it, whatever was there before (a regular file at its place
    is removed as well), and the directories above it exist.  Nothing
    else changes. *)
Theorem clearPublicContent_leaves_empty_directory repo s s' :
  forallb name_ok repo = true →
  clearPublicContent repo s = (Ok tt, s') →
  (∀ q, q ≠ [] → q `prefix_of` public_key repo → s' !! q = Some Dir)
  ∧ (∀ j, public_key repo `prefix_of` j → j ≠ public_key repo → s' !! j = None)
  ∧ (∀ j, ¬ public_key repo `prefix_of` j → ¬ j `prefix_of` public_key repo →
       s' !! j = s !! j)
  ∧ (∀ q, q ≠ [] → q `prefix_of` public_key repo → q ≠ public_key repo →
       s !! q = None ∨ s !! q = Some Dir).
Proof.
  intros Hrepo%forallb_names_ok. rewrite clearPublicContent_eq by done.
  destruct (blocked (public_key repo) s) eqn:Hb; [done|]. intros [= <-].
  split; [|split; [|split]].
  - intros q H0 H1. rewrite lookup_cleared by done. by rewrite decide_True.
  - intros j H1 H2. rewrite lookup_cleared by done. rewrite decide_False.
    + by rewrite decide_True.
    + intros [_ H]. apply H2. by apply (anti_symm prefix).
  - intros j H1 H2. rewrite lookup_cleared by done. rewrite decide_False by (by intros [_ ?]).
    by rewrite decide_False.
  - intros q H0 H1 H2. pose proof (blocked_false_prefix _ _ q Hb H0 H1 H2) as Hf.
    destruct (s !! q) as [[? ?|]|]; [done|by right|by left].
Qed.

Lemma clearPublicContent_leaves_empty_directory_witness :
  (clearPublicContent sample_repo sample_fs).2 !! public_key sample_repo = Some Dir
  ∧ (clearPublicContent sample_repo sample_fs).2
      !! (public_key sample_repo ++ ["old.0123456789abcdef.txt"]) = None
  ∧ (clearPublicContent sample_repo sample_fs).2 !! (content_key sample_repo ++ ["docs"; "a.txt"])
    = sample_fs !! (content_key sample_repo ++ ["docs"; "a.txt"]).
Proof.
  destruct (clearPublicContent_leaves_empty_directory sample_repo sample_fs
              (clearPublicContent sample_repo sample_fs).2) as (H1 & H2 & H3 & _).
  - vm_compute; reflexivity.
  - apply run_pair. vm_compute; reflexivity.
  - split; [apply H1; done|]. split.
    + apply H2; [by apply prefix_app_r|]. intros E.
      rewrite <- (app_nil_r (public_key sample_repo)) in E at 2. by apply app_inv_head in E.
    + apply H3; intros [r Hr]; discriminate.
Defined.

(** X8. Clearing twice is clearing once: on the file system it has left,
    [clearPublicContent] succeeds again and changes nothing. *)
Theorem clearPublicContent_twice repo s s' :
  forallb name_ok repo = true →
  clearPublicContent repo s = (Ok tt, s') →
  clearPublicContent repo s' = (Ok tt, s').
Proof.
  intros Hrepo%forallb_names_ok. rewrite !clearPublicContent_eq by done.
  destruct (blocked (public_key repo) s) eqn:Hb; [done|]. intros [= <-].
  assert (blocked (public_key repo) (cleared repo s) = false) as ->.
  { apply blocked_false_iff. intros q H0 H1 H2. rewrite lookup_cleared by done.
    by rewrite decide_True. }
  f_equal. apply map_eq. intros j. rewrite !lookup_cleared by done.
  destruct (decide (j ≠ [] ∧ j `prefix_of` public_key repo)); [done|].
  by destruct (decide (public_key repo `prefix_of` j)).
Qed.

Lemma clearPublicContent_twice_witness :
  clearPublicContent sample_repo (clearPublicContent sample_repo sample_fs).2
  = (Ok tt, (clearPublicContent sample_repo sample_fs).2).
Proof.
  apply (clearPublicContent_twice sample_repo sample_fs).
  - vm_compute; reflexivity.
  - apply run_pair. vm_compute; reflexivity.
Defined.

(** X9. When a directory above the output root is a regular file,
    [clearPublicContent] throws ENOTDIR and nothing is removed or
    created. *)
Theorem clearPublicContent_failure repo s q :
  forallb name_ok repo = true →
  q ≠ [] → q `prefix_of` public_key repo → q ≠ public_key repo →
  is_file (s !! q) = true →
  clearPublicContent repo s = (Throw ENOTDIR, s).
Proof.
  intros Hrepo%forallb_names_ok H0 H1 H2 Hf. rewrite clearPublicContent_eq by done.
  assert (blocked (public_key repo) s = true) as ->; [|done].
  apply blocked_true. exists q. split; [|done]. by apply elem_of_ancestors.
Qed.

Lemma clearPublicContent_failure_witness :
  clearPublicContent sample_repo files_in_the_way_fs = (Throw ENOTDIR, files_in_the_way_fs).
Proof.
  apply (clearPublicContent_failure sample_repo files_in_the_way_fs ["srv"; "viewer"; "public"]).
  - vm_compute; reflexivity.
  - done.
  - by exists ["content"].
  - done.
  - vm_compute; reflexivity.
Defined.

(** ** [writeCatalog] *)

(** X10. After [writeCatalog] the catalog file holds the JSON text of the
    object, indented by two spaces and ended by a newline, in place of
    whatever it held; [src/assets] and the directories above it exist;
    nothing else changes. *)
Theorem writeCatalog_writes_json repo catalog s s' :
  forallb name_ok repo = true →
  writeCatalog repo catalog s = (Ok tt, s') →
  (∃ r, s' !! catalog_key repo
        = Some (File r (list_byte_of_string (Js.stringify catalog 2 +:+ Js.newline))))
  ∧ (∀ q, q ≠ [] → q `prefix_of` assets_key repo → s' !! q = Some Dir)
  ∧ (∀ j, j ≠ catalog_key repo → ¬ j `prefix_of` assets_key repo → s' !! j = s !! j).
Proof.
  intros Hrepo%forallb_names_ok Hw.
  apply (writeCatalog_Ok repo Hrepo) in Hw as (-> & _).
  split; [|split].
  - rewrite lookup_with_catalog by done. rewrite decide_True by done. eauto.
  - intros q H0 H1. rewrite lookup_with_catalog by done. rewrite decide_False.
    + by rewrite decide_True.
    + intros ->. apply prefix_length in H1. unfold catalog_key, assets_key in H1.
      rewrite !length_app in H1. simpl in H1. lia.
  - intros j H1 H2. rewrite lookup_with_catalog by done. rewrite decide_False by done.
    by rewrite decide_False by (by intros [_ ?]).
Qed.

Lemma writeCatalog_writes_json_witness :
  (∃ r, (writeCatalog sample_repo [("k", "v")] unreadable_fs).2 !! catalog_key sample_repo
        = Some (File r (list_byte_of_string (Js.stringify [("k", "v")] 2 +:+ Js.newline))))
  ∧ (writeCatalog sample_repo [("k", "v")] unreadable_fs).2 !! assets_key sample_repo = Some Dir
  ∧ (writeCatalog sample_repo [("k", "v")] unreadable_fs).2
      !! (content_key sample_repo ++ ["a.txt"])
    = unreadable_fs !! (content_key sample_repo ++ ["a.txt"]).
Proof.
  destruct (writeCatalog_writes_json sample_repo [("k", "v")] unreadable_fs
              (writeCatalog sample_repo [("k", "v")] unreadable_fs).2) as (H1 & H2 & H3).
  - vm_compute; reflexivity.
  - apply run_pair. vm_compute; reflexivity.
  - split; [exact H1|]. split; [by apply H2|]. apply H3; [done|]. intros [r Hr]; discriminate.
Defined.

(** X11. The catalog file is overwritten, not merged: writing a second
    object after a first one gives what writing the second alone
    gives. *)
Theorem writeCatalog_overwrites repo catalog1 catalog2 s s1 :
  forallb name_ok repo = true →
  writeCatalog repo catalog1 s = (Ok tt, s1) →
  writeCatalog repo catalog2 s1 = writeCatalog repo catalog2 s
  ∧ (writeCatalog repo catalog2 s).1 = Ok tt.
Proof.
  intros Hrepo%forallb_names_ok Hw.
  apply (writeCatalog_Ok repo Hrepo) in Hw as (-> & Hb & Hf & Hc).
  rewrite !writeCatalog_eq by done. rewrite Hb, Hf.
  assert (blocked (assets_key repo) (with_catalog repo catalog1 s) = false) as ->.
  { apply blocked_false_iff. intros q H0 H1 H2. rewrite lookup_with_catalog by done.
    rewrite decide_False.
    - by rewrite decide_True.
    - intros ->. apply prefix_length in H1. unfold catalog_key, assets_key in H1.
      rewrite !length_app in H1. simpl in H1. lia. }
  assert (with_catalog repo catalog1 s !! assets_key repo = Some Dir) as ->.
  { rewrite lookup_with_catalog by done. rewrite decide_False.
    - rewrite decide_True; [done|]. split; [by apply assets_key_ne|done].
    - intros E%(f_equal length). unfold catalog_key, assets_key in E.
      rewrite !length_app in E. simpl in E. lia. }
  simpl. rewrite (lookup_with_catalog repo catalog1 s (catalog_key repo)).
  rewrite decide_True by done.
  assert (with_catalog repo catalog2 (with_catalog repo catalog1 s) = with_catalog repo catalog2 s)
    as ->.
  { apply map_eq. intros j. rewrite !(lookup_with_catalog repo _ _ j).
    rewrite (lookup_with_catalog repo catalog1 s (catalog_key repo)).
    rewrite (decide_True (P := catalog_key repo = catalog_key repo)) by done.
    destruct (decide (j = catalog_key repo)); [|by destruct (decide _)].
    by destruct (s !! catalog_key repo) as [[? ?|]|]. }
  by destruct (s !! catalog_key repo) as [[? ?|]|].
Qed.

Lemma writeCatalog_overwrites_witness :
  writeCatalog sample_repo [] (writeCatalog sample_repo [("k", "v")] sample_fs).2
  = writeCatalog sample_repo [] sample_fs
  ∧ (writeCatalog sample_repo [] sample_fs).1 = Ok tt.
Proof.
  apply (writeCatalog_overwrites sample_repo [("k", "v")] [] sample_fs).
  - vm_compute; reflexivity.
  - apply run_pair. vm_compute; reflexivity.
Defined.

(** X12. Three ways in which [writeCatalog] fails, each leaving the
    catalog path as it was: with ENOTDIR when a directory above
    [src/assets] is a regular file and with EEXIST when [src/assets] is
    one, without changing anything; and with EISDIR when the catalog path
    is a directory, after creating [src/assets]. *)
Theorem writeCatalog_failure repo catalog s :
  forallb name_ok repo = true →
  ((∃ q, q ≠ [] ∧ q `prefix_of` assets_key repo ∧ q ≠ assets_key repo
         ∧ is_file (s !! q) = true) →
   writeCatalog repo catalog s = (Throw ENOTDIR, s))
  ∧ ((∀ q, q ≠ [] → q `prefix_of` assets_key repo → q ≠ assets_key repo →
           is_file (s !! q) = false) →
     (is_file (s !! assets_key repo) = true →
      writeCatalog repo catalog s = (Throw EEXIST, s))
     ∧ (is_file (s !! assets_key repo) = false → s !! catalog_key repo = Some Dir →
        (writeCatalog repo catalog s).1 = Throw EISDIR
        ∧ (writeCatalog repo catalog s).2 !! catalog_key repo = Some Dir
        ∧ (∀ q, q ≠ [] → q `prefix_of` assets_key repo →
             (writeCatalog repo catalog s).2 !! q = Some Dir)
        ∧ (∀ j, ¬ j `prefix_of` assets_key repo →
             (writeCatalog repo catalog s).2 !! j = s !! j))).
Proof.
  intros Hrepo%forallb_names_ok. rewrite !writeCatalog_eq by done. split.
  - intros (q & H0 & H1 & H2 & Hf).
    assert (blocked (assets_key repo) s = true) as ->; [|done].
    apply blocked_true. exists q. split; [|done]. by apply elem_of_ancestors.
  - intros Hb%blocked_false_iff. rewrite Hb. split.
    + by intros ->.
    + intros -> Hc. rewrite Hc. simpl.
      assert (∀ j, ¬ j `prefix_of` assets_key repo → mkdirs (assets_key repo) s !! j = s !! j)
        as Hout.
      { intros j Hj. rewrite lookup_mkdirs. by rewrite decide_False by (by intros [_ ?]). }
      split; [done|]. split; [|split; [|done]].
      * rewrite Hout, Hc; [done|]. intros H%prefix_length. unfold catalog_key, assets_key in H.
        rewrite !length_app in H. simpl in H. lia.
      * intros q H0 H1. rewrite lookup_mkdirs. by rewrite decide_True.
Qed.

Lemma writeCatalog_failure_witness :
  writeCatalog sample_repo [] files_in_the_way_fs = (Throw ENOTDIR, files_in_the_way_fs).
Proof.
  destruct (writeCatalog_failure sample_repo [] files_in_the_way_fs) as [H _].
  - vm_compute; reflexivity.
  - apply H. exists ["srv"; "viewer"; "src"]. split; [done|]. split; [by exists ["assets"]|].
    split; [done|]. vm_compute; reflexivity.
Defined.

(** ** [processFiles]: one file *)

(** X13. A file of the list that cannot be read stops [processFiles]
    before anything is written: the step throws EACCES for a file without
    read permission, EISDIR for a directory, ENOENT for a path that does
    not exist and ENOTDIR when a regular file is in the way, and the file
    system is left as it is. *)
Theorem processFile_unreadable_source repo catalog ks s :
  forallb name_ok repo = true → forallb name_ok ks = true → ks ≠ [] →
  (∀ data, s !! (content_key repo ++ ks) ≠ Some (File true data)) →
  processFile repo catalog (js_join "/" ks) s
  = (Throw (match s !! (content_key repo ++ ks) with
            | Some (File _ _) => EACCES
            | Some Dir => EISDIR
            | None => if blocked (content_key repo ++ ks) s then ENOTDIR else ENOENT
            end), s).
Proof.
  intros Hrepo%forallb_names_ok Hks%forallb_names_ok Hne Hsrc.
  fold (rel_path ks). rewrite processFile_eq by done.
  destruct (s !! (content_key repo ++ ks)) as [[[] data|]|]; try done.
  by destruct (Hsrc data).
Qed.

Lemma processFile_unreadable_source_witness :
  processFile sample_repo [] (js_join "/" ["secret.txt"]) unreadable_fs
  = (Throw (match unreadable_fs !! (content_key sample_repo ++ ["secret.txt"]) with
            | Some (File _ _) => EACCES
            | Some Dir => EISDIR
            | None => if blocked (content_key sample_repo ++ ["secret.txt"]) unreadable_fs
                      then ENOTDIR else ENOENT
            end), unreadable_fs)
  ∧ unreadable_fs !! (content_key sample_repo ++ ["secret.txt"])
    = Some (File false (bytes_of "hello")).
Proof.
  assert (unreadable_fs !! (content_key sample_repo ++ ["secret.txt"])
          = Some (File false (bytes_of "hello"))) as E by (vm_compute; reflexivity).
  split; [|exact E].
  apply (processFile_unreadable_source sample_repo [] ["secret.txt"] unreadable_fs);
    [vm_compute; reflexivity|vm_compute; reflexivity|done|].
  intros data. rewrite E. discriminate.
Defined.

(** ** The published name *)

Lemma extname_snoc_ext m e' :
  name_ok (m +:+ String "." e') = true → m ≠ "" → contains "." e' = false →
  (2 < String.length (m +:+ String "." e'))%nat ∨ e' ≠ "" →
  Path.extname (m +:+ String "." e') = String "." e'.
Proof.
  intros Hok Hm He Hlen. unfold Path.extname. rewrite lastPart_name by done.
  rewrite fromLastDot_app_dotfree by done.
  assert (String.eqb (String "." e') (m +:+ String "." e') = false) as ->.
  { apply String.eqb_neq. intros E%(f_equal String.length).
    rewrite app_length_s in E. destruct m; [done|]. simpl in E. lia. }
  assert (String.eqb (m +:+ String "." e') ".." = false) as ->; [|done].
  apply String.eqb_neq. intros E. destruct Hlen as [Hlen|Hlen].
  - rewrite E in Hlen. simpl in Hlen. lia.
  - apply (f_equal String.length) in E. rewrite app_length_s in E.
    destruct m; [done|]. destruct e'; [done|]. simpl in E. lia.
Qed.

(** X14. The published name keeps the extension of a name that has one;
    a name without extension is published with the fingerprint as its
    extension. *)
Theorem hashedName_extension b data :
  name_ok b = true →
  Path.extname (hashedName b (fingerprint data))
  = (if String.eqb (Path.extname b) "" then "." +:+ fingerprint data else Path.extname b).
Proof.
  intros Hb. pose proof (published_name_ok b data Hb) as Hok. unfold published_name in Hok.
  pose proof (length_fingerprint data) as Hlen.
  destruct (hashedName_parts b (fingerprint data) Hb) as (n & e & Hparts & Hbn & Hh).
  rewrite Hh in *. destruct Hparts as [He Hd|n e' Hb' Hn Hd He]; rewrite He.
  - simpl. rewrite app_empty_r in *.
    change (b +:+ "." +:+ fingerprint data) with (b +:+ String "." (fingerprint data)) in *.
    apply extname_snoc_ext; [done| |apply fingerprint_no_dot|].
    + by destruct (name_ok_inv _ Hb) as (? & _).
    + right. intros E. rewrite E in Hlen. done.
  - simpl.
    replace (n +:+ "." +:+ fingerprint data +:+ String "." e')
      with ((n +:+ "." +:+ fingerprint data) +:+ String "." e') in *
      by (by rewrite !app_assoc_s).
    apply extname_snoc_ext; [done| |done|].
    + intros [E _]%app_eq_empty. done.
    + left. rewrite !app_length_s, Hlen. simpl. lia.
Qed.

Lemma hashedName_extension_witness :
  Path.extname (hashedName "a.txt" (fingerprint (bytes_of "hello")))
  = (if String.eqb (Path.extname "a.txt") "" then "." +:+ fingerprint (bytes_of "hello")
     else Path.extname "a.txt")
  ∧ Path.extname (hashedName "README" (fingerprint (bytes_of "hello")))
    = (if String.eqb (Path.extname "README") "" then "." +:+ fingerprint (bytes_of "hello")
       else Path.extname "README").
Proof.
  split.
  - apply (hashedName_extension "a.txt" (bytes_of "hello")). reflexivity.
  - apply (hashedName_extension "README" (bytes_of "hello")). reflexivity.
Defined.

(** X15. The published name is a proper file name, seventeen characters
    longer than the original (a dot and the sixteen hexadecimal digits),
    and it starts with a dot exactly when the original does. *)
Theorem hashedName_shape b data :
  name_ok b = true →
  name_ok (hashedName b (fingerprint data)) = true
  ∧ String.length (hashedName b (fingerprint data)) = (String.length b + 17)%nat
  ∧ visible (hashedName b (fingerprint data)) = visible b.
Proof.
  intros Hb. split; [exact (published_name_ok b data Hb)|].
  destruct (hashedName_parts b (fingerprint data) Hb) as (n & e & Hparts & Hbn & ->).
  pose proof (length_fingerprint data) as Hlen.
  assert (n ≠ "") as Hn.
  { destruct Hparts; [|done]. rewrite app_empty_r in Hbn.
    by destruct (name_ok_inv _ Hb) as (? & _). }
  split.
  - rewrite Hbn, !app_length_s, Hlen. simpl. lia.
  - unfold visible. rewrite Hbn. by rewrite !starts_with_app.
Qed.

Lemma hashedName_shape_witness :
  name_ok (hashedName ".env" (fingerprint (bytes_of "x"))) = true
  ∧ String.length (hashedName ".env" (fingerprint (bytes_of "x"))) = (String.length ".env" + 17)%nat
  ∧ visible (hashedName ".env" (fingerprint (bytes_of "x"))) = visible ".env".
Proof. apply (hashedName_shape ".env" (bytes_of "x")). reflexivity. Defined.

(** ** The catalog and the output root of a run *)

Lemma get_Some_elem o k v : Js.get o k = Some v → (k, v) ∈ o.
Proof.
  unfold Js.get. destruct (find _ o) as [[k' v']|] eqn:E; [|done]. simpl. intros [= ->].
  apply find_some in E as [Hin Hk]. simpl in Hk. apply String.eqb_eq in Hk as ->.
  by apply list_elem_of_In.
Qed.

Lemma elem_of_catalog_of repo s kss k v :
  (k, v) ∈ catalog_of repo s kss →
  ∃ ks, ks ∈ kss ∧ k = rel_path ks ∧ v = published_url ks (content_data repo s ks).
Proof.
  induction kss as [|ks kss IH]; [by intros ?%elem_of_nil|].
  rewrite catalog_of_cons. intros [Hin|Hin]%elem_of_app.
  - exists ks. split; [by left|]. unfold catalog_entry in Hin.
    destruct (String.eqb (rel_path ks) "__proto__"); [by apply elem_of_nil in Hin|].
    apply list_elem_of_singleton in Hin. by injection Hin as -> ->.
  - destruct (IH Hin) as (ks' & ? & ? & ?). exists ks'. split; [by right|done].
Qed.

(** X16. The catalog of a run without error has no dangling entry: every
    key is the relative path of a file of the content root, and its URL
    is [/content/] followed by the path, below the output root, of a file
    that exists after the run and holds the bytes of that file. *)
Theorem catalog_entries_are_published repo s msg s' :
  forallb name_ok repo = true → fs_names_ok s = true →
  main repo s = (Ok msg, s') →
  ∃ files cat r,
    getContentFiles repo (cleared repo s) = (Ok files, cleared repo s)
    ∧ (processFiles repo files (cleared repo s)).1 = Ok cat
    ∧ s' !! catalog_key repo
      = Some (File r (list_byte_of_string (Js.stringify cat 2 +:+ Js.newline)))
    ∧ ∀ k url, Js.get cat k = Some url →
        ∃ d b data,
          k = js_join "/" (d ++ [b])
          ∧ s !! (content_key repo ++ d ++ [b]) = Some (File true data)
          ∧ url = "/" +:+ js_join "/" ("content" :: d ++ [hashedName b (fingerprint data)])
          ∧ s' !! (public_key repo ++ d ++ [hashedName b (fingerprint data)])
            = Some (File true data).
Proof.
  intros Hrepo%forallb_names_ok Hfs Hmain.
  pose proof (fs_names_ok_content repo s Hfs) as Hnames.
  destruct (main_catalog repo Hrepo s msg s' Hnames Hmain) as [r Hr].
  destruct (main_published repo Hrepo s msg s' Hnames Hmain) as (Hpub & _ & _).
  exists (map rel_path (scan_list repo s)), (catalog_of repo s (scan_list repo s)), r.
  split; [by apply (main_scans repo s msg s')|].
  split; [by apply (main_catalog_object repo s msg s')|].
  split; [exact Hr|].
  intros k url (ks & Hks & -> & ->)%get_Some_elem%elem_of_catalog_of.
  destruct (Hpub ks Hks) as (data & Hsrc & Hdest & _).
  apply elem_of_scan_list in Hks as (_ & Hks0 & _).
  destruct ks as [|b d _] using rev_ind; [done|]. exists d, b, data.
  unfold content_data. rewrite Hsrc. unfold published_url, published_key in *.
  rewrite published_rel_snoc in *. done.
Qed.

Lemma catalog_entries_are_published_witness :
  ∃ files cat r,
    getContentFiles sample_repo (cleared sample_repo sample_fs)
    = (Ok files, cleared sample_repo sample_fs)
    ∧ (processFiles sample_repo files (cleared sample_repo sample_fs)).1 = Ok cat
    ∧ (main sample_repo sample_fs).2 !! catalog_key sample_repo
      = Some (File r (list_byte_of_string (Js.stringify cat 2 +:+ Js.newline)))
    ∧ ∀ k url, Js.get cat k = Some url →
        ∃ d b data,
          k = js_join "/" (d ++ [b])
          ∧ sample_fs !! (content_key sample_repo ++ d ++ [b]) = Some (File true data)
          ∧ url = "/" +:+ js_join "/" ("content" :: d ++ [hashedName b (fingerprint data)])
          ∧ (main sample_repo sample_fs).2
              !! (public_key sample_repo ++ d ++ [hashedName b (fingerprint data)])
            = Some (File true data).
Proof.
  apply (catalog_entries_are_published sample_repo sample_fs
           "Processed 3 files. Catalog written to /srv/viewer/src/assets/content-catalog.json").
  - vm_compute; reflexivity.
  - vm_compute; reflexivity.
  - apply run_pair. vm_compute; reflexivity.
Defined.





(** ** The order of the file list *)

Lemma elem_of_catalog_of_key repo s kss k v :
  (k, v) ∈ catalog_of repo s kss →
  ∃ ks, ks ∈ kss ∧ k = rel_path ks ∧ rel_path ks ≠ "__proto__"
        ∧ v = published_url ks (content_data repo s ks).
Proof.
  induction kss as [|ks kss IH]; [by intros ?%elem_of_nil|].
  rewrite catalog_of_cons. intros [Hin|Hin]%elem_of_app.
  - exists ks. split; [by left|]. unfold catalog_entry in Hin.
    destruct (String.eqb (rel_path ks) "__proto__") eqn:E; [by apply elem_of_nil in Hin|].
    apply String.eqb_neq in E.
    apply list_elem_of_singleton in Hin. by injection Hin as -> ->.
  - destruct (IH Hin) as (ks' & ? & ? & ? & ?). exists ks'. split; [by right|done].
Qed.

Section Order.

Variable repo : list string.
Hypothesis repo_ok : names_ok repo.

(** The file system that [processFiles] leaves when it starts from an
    emptied output root. *)
Lemma run_from_cleared kss cat s cat' p :
  files_ok kss → NoDup kss →
  forEach (processFile repo) (map rel_path kss) cat (cleared repo s) = (Ok cat', p) →
  (∀ ks, ks ∈ kss →
     ∃ data, s !! (content_key repo ++ ks) = Some (File true data)
       ∧ p !! published_key repo ks data = Some (File true data)
       ∧ ∀ q, q ≠ [] → q `prefix_of` parent (published_key repo ks data) → p !! q = Some Dir)
  ∧ (∀ j n, p !! j = Some n → public_key repo `prefix_of` j → j ≠ public_key repo →
       ∃ ks data, ks ∈ kss ∧ s !! (content_key repo ++ ks) = Some (File true data) ∧
         ((j = published_key repo ks data ∧ n = File true data)
          ∨ (n = Dir ∧ j `prefix_of` parent (published_key repo ks data))))
  ∧ (∀ j, ¬ (public_key repo `prefix_of` j ∧ j ≠ public_key repo) →
       p !! j = cleared repo s !! j).
Proof.
  intros Hok Hnd Hrun.
  pose proof (run_closed repo repo_ok _ _ _ _ _ Hok Hrun (cleared_closed repo s)) as Hcl.
  assert (∀ ks, ks ∈ kss →
            ∃ data, s !! (content_key repo ++ ks) = Some (File true data)
                    ∧ p !! published_key repo ks data = Some (File true data)) as Hpub.
  { intros ks Hks.
    destruct (run_published repo repo_ok _ _ _ _ _ Hok Hnd Hrun ks Hks) as (data & Hsrc & Hdest).
    rewrite cleared_content in Hsrc by done. eauto. }
  split; [|split].
  - intros ks Hks. destruct (Hpub ks Hks) as (data & Hsrc & Hdest).
    exists data. split; [done|]. split; [done|].
    intros q Hq0 Hq1.
    assert (public_key repo `prefix_of` published_key repo ks data) as Hpk by (by apply prefix_app_r).
    apply (Hcl _ _ Hdest Hpk). apply elem_of_ancestors. split; [done|].
    assert (q ∈ prefixes_ne (parent (published_key repo ks data))) as Hin
      by (by apply elem_of_prefixes_ne).
    by apply elem_of_ancestors in Hin as (_ & ? & ?).
  - intros j n Hj Hp Hne.
    destruct (run_origin repo repo_ok _ _ _ _ _ j n Hok Hrun Hj) as [Hc|(ks & Hks & Hcase)].
    + rewrite lookup_cleared in Hc by done. case_decide as Hd.
      * destruct Hd as [_ Hd]. destruct Hne. by apply (anti_symm prefix).
      * by rewrite decide_True in Hc.
    + destruct (Hpub ks Hks) as (data & Hsrc & _). exists ks, data.
      split; [done|]. split; [done|].
      assert (content_data repo (cleared repo s) ks = data) as Hcd.
      { unfold content_data. by rewrite cleared_content, Hsrc. }
      rewrite Hcd in Hcase. destruct Hcase as [?|(? & _ & ?)]; [by left|by right].
  - intros j Hj. apply (run_frame repo repo_ok) in Hrun; [|done].
    destruct (Hrun j Hj) as [E|(E & _ & H0 & Hpre)]; [done|].
    rewrite lookup_cleared in E by done. by rewrite decide_True in E.
Qed.

Lemma run_order kss1 kss2 cat s cat1 cat2 p1 p2 :
  files_ok kss1 → NoDup kss1 → kss1 ≡ₚ kss2 →
  forEach (processFile repo) (map rel_path kss1) cat (cleared repo s) = (Ok cat1, p1) →
  forEach (processFile repo) (map rel_path kss2) cat (cleared repo s) = (Ok cat2, p2) →
  p1 = p2.
Proof.
  intros Hok1 Hnd1 Hperm H1 H2.
  assert (files_ok kss2) as Hok2 by (unfold files_ok; by rewrite <- Hperm).
  assert (NoDup kss2) as Hnd2 by (by rewrite <- Hperm).
  assert (∀ l1 l2 c1 c2 q1 q2,
            files_ok l1 → NoDup l1 → files_ok l2 → NoDup l2 → (∀ ks, ks ∈ l1 → ks ∈ l2) →
            forEach (processFile repo) (map rel_path l1) cat (cleared repo s) = (Ok c1, q1) →
            forEach (processFile repo) (map rel_path l2) cat (cleared repo s) = (Ok c2, q2) →
            ∀ j n, q1 !! j = Some n → q2 !! j = Some n) as Hone.
  { intros l1 l2 c1 c2 q1 q2 Ho1 Hn1 Ho2 Hn2 Hsub Hr1 Hr2 j n Hj.
    destruct (run_from_cleared l1 cat s c1 q1 Ho1 Hn1 Hr1) as (_ & Honly & Hout).
    destruct (run_from_cleared l2 cat s c2 q2 Ho2 Hn2 Hr2) as (Hpub & _ & Hout').
    destruct (decide (public_key repo `prefix_of` j ∧ j ≠ public_key repo)) as [[Hp Hne]|Hno].
    - destruct (Honly j n Hj Hp Hne) as (ks & data & Hks & Hsrc & Hcase).
      destruct (Hpub ks (Hsub ks Hks)) as (data' & Hsrc' & Hdest & Hdirs).
      rewrite Hsrc in Hsrc'. injection Hsrc' as <-.
      destruct Hcase as [[-> ->]|[-> Hpre]]; [done|].
      apply Hdirs; [|done]. intros ->. apply prefix_length in Hp.
      unfold public_key in Hp. rewrite length_app in Hp. simpl in Hp. lia.
    - rewrite Hout' by done. by rewrite <- Hout. }
  apply map_eq. intros j. destruct (p1 !! j) as [n|] eqn:E1.
  - symmetry. apply (Hone kss1 kss2 cat1 cat2 p1 p2); try done.
    intros ks. by rewrite Hperm.
  - destruct (p2 !! j) as [n|] eqn:E2; [|done].
    apply (Hone kss2 kss1 cat2 cat1 p2 p1) in E2; try done; [congruence|].
    intros ks. by rewrite Hperm.
Qed.

End Order.

(** X18. The order of the file list does not matter: from an emptied
    output root, [processFiles] on the same files in another order, when
    both runs go through, leaves the same file system and a catalog
    object with the same value under every key. *)
Theorem processFiles_order_irrelevant repo s s0 kss1 kss2 cat1 cat2 p1 p2 :
  forallb name_ok repo = true →
  Forall (fun ks => forallb name_ok ks = true ∧ ks ≠ []) kss1 →
  NoDup kss1 → kss1 ≡ₚ kss2 →
  clearPublicContent repo s = (Ok tt, s0) →
  processFiles repo (map (js_join "/") kss1) s0 = (Ok cat1, p1) →
  processFiles repo (map (js_join "/") kss2) s0 = (Ok cat2, p2) →
  p1 = p2 ∧ ∀ k, Js.get cat1 k = Js.get cat2 k.
Proof.
  intros Hrepo%forallb_names_ok Hall Hnd Hperm Hclear H1 H2.
  rewrite clearPublicContent_eq in Hclear by done.
  destruct (blocked (public_key repo) s); [done|]. injection Hclear as <-.
  assert (files_ok kss1) as Hok1.
  { unfold files_ok. eapply Forall_impl; [exact Hall|].
    intros ks [Hks ?]. split; [by apply forallb_names_ok|done]. }
  assert (files_ok kss2) as Hok2 by (unfold files_ok; by rewrite <- Hperm).
  assert (NoDup kss2) as Hnd2 by (by rewrite <- Hperm).
  unfold processFiles in H1, H2. fold rel_path in H1, H2.
  split; [by apply (run_order repo Hrepo kss1 kss2 Js.empty s cat1 cat2)|].
  apply (run_catalog repo Hrepo) in H1; [|done..]. apply (run_catalog repo Hrepo) in H2; [|done..].
  simpl in H1, H2. subst cat1 cat2.
  assert (∀ l1 l2 k v, files_ok l2 → (∀ ks, ks ∈ l1 → ks ∈ l2) →
            Js.get (catalog_of repo (cleared repo s) l1) k = Some v →
            Js.get (catalog_of repo (cleared repo s) l2) k = Some v) as Hone.
  { intros l1 l2 k v Ho2 Hsub (ks & Hks & -> & Hproto & ->)%get_Some_elem%elem_of_catalog_of_key.
    by apply catalog_of_get; [|apply Hsub|]. }
  intros k. destruct (Js.get (catalog_of repo (cleared repo s) kss1) k) as [v|] eqn:E1.
  - symmetry. apply (Hone kss1 kss2); [done| |done]. intros ks. by rewrite Hperm.
  - destruct (Js.get (catalog_of repo (cleared repo s) kss2) k) as [v|] eqn:E2; [|done].
    apply (Hone kss2 kss1) in E2; [congruence|done|]. intros ks. by rewrite Hperm.
Qed.

Lemma processFiles_order_irrelevant_witness :
  (processFiles sample_repo (map (js_join "/") [["docs"; "a.txt"]; ["img"; "copy.bin"]])
     (clearPublicContent sample_repo sample_fs).2).2
  = (processFiles sample_repo (map (js_join "/") [["img"; "copy.bin"]; ["docs"; "a.txt"]])
       (clearPublicContent sample_repo sample_fs).2).2
  ∧ ∀ k,
      Js.get [("docs/a.txt", "/content/docs/a.5d41402abc4b2a76.txt");
              ("img/copy.bin", "/content/img/copy.5d41402abc4b2a76.bin")] k
      = Js.get [("img/copy.bin", "/content/img/copy.5d41402abc4b2a76.bin");
                ("docs/a.txt", "/content/docs/a.5d41402abc4b2a76.txt")] k.
Proof.
  apply (processFiles_order_irrelevant sample_repo sample_fs
           (clearPublicContent sample_repo sample_fs).2
           [["docs"; "a.txt"]; ["img"; "copy.bin"]] [["img"; "copy.bin"]; ["docs"; "a.txt"]]).
  - vm_compute; reflexivity.
  - repeat constructor; done.
  - apply NoDup_cons. split; [|apply NoDup_singleton].
    intros H%list_elem_of_singleton. discriminate.
  - apply perm_swap.
  - apply run_pair. vm_compute; reflexivity.
  - apply run_pair. vm_compute; reflexivity.
  - apply run_pair. vm_compute; reflexivity.
Defined.

(** ** Runs that fail, and the empty run *)






(** X21. A run on a content root without visible files goes the same
    way as any other: it reports zero files, writes the catalog [{}] and
    leaves the output root an empty directory, whatever it held. *)
Theorem main_on_empty_content repo s msg s' :
  forallb name_ok repo = true → fs_names_ok s = true →
  main repo s = (Ok msg, s') →
  (∀ ks rd data, s !! (content_key repo ++ ks) = Some (File rd data) →
     forallb visible ks = false) →
  msg = "Processed 0 files. Catalog written to " +:+ CATALOG_FILE repo
  ∧ (∃ r, s' !! catalog_key repo = Some (File r (bytes_of ("{}" +:+ Js.newline))))
  ∧ s' !! public_key repo = Some Dir
  ∧ (∀ j, public_key repo `prefix_of` j → j ≠ public_key repo → s' !! j = None).
Proof.
  intros Hrepo%forallb_names_ok Hfs Hmain Hhidden.
  pose proof (fs_names_ok_content repo s Hfs) as Hnames.
  assert (scan_list repo s = []) as Hscan.
  { destruct (scan_list repo s) as [|ks l] eqn:E; [done|].
    assert (ks ∈ scan_list repo s) as Hin by (rewrite E; by left).
    apply elem_of_scan_list in Hin as (_ & _ & Hv & rd & data & Hf).
    by rewrite (Hhidden ks rd data Hf) in Hv. }
  destruct (main_catalog repo Hrepo s msg s' Hnames Hmain) as [r Hr].
  destruct (main_published repo Hrepo s msg s' Hnames Hmain) as (_ & Hroot & Honly).
  destruct (main_Ok_inv repo Hrepo s msg s' Hmain) as (? & ? & _ & _ & _ & _ & _ & ->).
  rewrite Hscan in *. split; [done|]. split; [by exists r|]. split; [done|].
  intros j Hj Hne. destruct (s' !! j) as [n|] eqn:E; [|done].
  destruct (Honly j n E Hj Hne) as (ks & Hks & _). by apply elem_of_nil in Hks.
Qed.

Lemma main_on_empty_content_witness :
  "Processed 0 files. Catalog written to /srv/viewer/src/assets/content-catalog.json"
  = "Processed 0 files. Catalog written to " +:+ CATALOG_FILE sample_repo
  ∧ (∃ r, (main sample_repo hidden_only_fs).2 !! catalog_key sample_repo
          = Some (File r (bytes_of ("{}" +:+ Js.newline))))
  ∧ (main sample_repo hidden_only_fs).2 !! public_key sample_repo = Some Dir
  ∧ (∀ j, public_key sample_repo `prefix_of` j → j ≠ public_key sample_repo →
       (main sample_repo hidden_only_fs).2 !! j = None).
Proof.
  apply (main_on_empty_content sample_repo hidden_only_fs).
  - vm_compute; reflexivity.
  - vm_compute; reflexivity.
  - apply run_pair. vm_compute; reflexivity.
  - intros ks rd data Hf.
    destruct (forallb visible ks) eqn:Hv; [|done].
    assert (ks ∈ scan_list sample_repo hidden_only_fs) as Hin.
    { apply elem_of_scan_list. split; [vm_compute; reflexivity|].
      split; [|split; [done|eauto]]. intros ->. rewrite app_nil_r in Hf.
      vm_compute in Hf. discriminate. }
    vm_compute in Hin. by apply elem_of_nil in Hin.
Defined.

(** ** One file, published *)

(** X22. A step of [processFiles] that goes through has read the file,
    put its bytes at [<output root>/<dir>/<basename>.<fingerprint><ext>]
    in place of whatever file was there, and set the catalog entry of the
    relative path to the URL.  The directory of the copy exists
    afterwards; apart from the copy and from directories created on the
    way to it, the file system is as before. *)
Theorem processFile_publishes repo catalog d b s catalog' s' :
  forallb name_ok repo = true → forallb name_ok (d ++ [b]) = true →
  processFile repo catalog (js_join "/" (d ++ [b])) s = (Ok catalog', s') →
  ∃ data,
    s !! (content_key repo ++ d ++ [b]) = Some (File true data)
    ∧ catalog' = Js.set catalog (js_join "/" (d ++ [b]))
                   ("/" +:+ js_join "/" ("content" :: d ++ [hashedName b (fingerprint data)]))
    ∧ s' !! (public_key repo ++ d ++ [hashedName b (fingerprint data)]) = Some (File true data)
    ∧ entry s' (public_key repo ++ d) = Some Dir
    ∧ (∀ j, j ≠ [] → j `prefix_of` public_key repo ++ d →
         s' !! j = s !! j ∨ (s !! j = None ∧ s' !! j = Some Dir))
    ∧ (∀ j, ¬ j `prefix_of` public_key repo ++ d ++ [hashedName b (fingerprint data)] →
         s' !! j = s !! j).
Proof.
  intros Hrepo%forallb_names_ok Hks%forallb_names_ok Hstep.
  fold (rel_path (d ++ [b])) in *.
  apply (processFile_inv repo Hrepo) in Hstep as (_ & _ & Hs); [|done|by destruct d].
  destruct (Hs catalog' eq_refl) as (data & Hsrc & -> & Hdest & _ & Hout & Hdirs & Hpar & _).
  clear Hs.
  assert (published_key repo (d ++ [b]) data
          = (public_key repo ++ d) ++ [published_name b data]) as Hpk.
  { unfold published_key. by rewrite published_rel_snoc, app_assoc. }
  assert (parent (published_key repo (d ++ [b]) data) = public_key repo ++ d) as Hpd.
  { rewrite Hpk. apply removelast_last. }
  rewrite Hpd in Hdirs, Hpar. rewrite Hpk in Hdest, Hout. rewrite <- app_assoc in Hdest, Hout.
  exists data. split; [done|]. split.
  { unfold published_url. by rewrite published_rel_snoc. }
  split; [done|]. split; [done|]. split.
  - intros j H0 H1. apply Hdirs. by apply elem_of_prefixes_ne.
  - intros j Hj. apply Hout. by intros [_ H]%elem_of_prefixes_ne.
Qed.

Lemma processFile_publishes_witness :
  ∃ data,
    stale_copy_fs !! (content_key sample_repo ++ [] ++ ["a.txt"]) = Some (File true data)
    ∧ (processFile sample_repo [] (js_join "/" ([] ++ ["a.txt"])) stale_copy_fs).1
      = Ok (Js.set [] (js_join "/" ([] ++ ["a.txt"]))
              ("/" +:+ js_join "/" ("content" :: [] ++ [hashedName "a.txt" (fingerprint data)])))
    ∧ (processFile sample_repo [] (js_join "/" ([] ++ ["a.txt"])) stale_copy_fs).2
        !! (public_key sample_repo ++ [] ++ [hashedName "a.txt" (fingerprint data)])
      = Some (File true data)
    ∧ stale_copy_fs !! (public_key sample_repo ++ ["a.5d41402abc4b2a76.txt"])
      = Some (File false (bytes_of "stale")).
Proof.
  destruct (processFile_publishes sample_repo [] [] "a.txt" stale_copy_fs
              [("a.txt", "/content/a.5d41402abc4b2a76.txt")]
              (processFile sample_repo [] (js_join "/" ([] ++ ["a.txt"])) stale_copy_fs).2)
    as (data & H1 & H2 & H3 & _).
  - vm_compute; reflexivity.
  - vm_compute; reflexivity.
  - apply run_pair. vm_compute; reflexivity.
  - exists data. split; [exact H1|]. split; [|split; [exact H3|vm_compute; reflexivity]].
    rewrite <- H2. vm_compute; reflexivity.
Defined.

(** ** The separators of the scanned paths *)

(** X23. With ["/"] as [path.sep], splitting an entry at the separator
    and joining the pieces with ["/"], as [scanRecursive] does with every
    entry, gives the entry back, whatever the entry is; and an entry made
    by joining names comes apart into those names. *)
Theorem split_join_round_trip e ks :
  js_join "/" (js_split Path.sep e) = e
  ∧ (ks ≠ [] → Forall (fun x => contains "/" x = false) ks →
     js_split Path.sep (js_join "/" ks) = ks).
Proof.
  split; [apply js_join_split|]. intros Hne Hks. unfold Path.sep.
  rewrite js_split_join_list by done. clear Hne.
  induction Hks as [|x ks Hx _ IH]; [done|]. simpl. rewrite js_split_plain by done.
  by rewrite IH.
Qed.

(** ** A destination that is taken *)

Lemma copySync_onto_entry ks kp x s data n :
  names_ok ks → ks ≠ [] → names_ok (kp ++ [x]) →
  s !! ks = Some (File true data) → s !! (kp ++ [x]) = Some n →
  ks ≠ kp ++ [x] → ¬ ks `prefix_of` kp ++ [x] → entry s kp = Some Dir →
  copySync (abs_path ks) (abs_path (kp ++ [x])) s =
    match n with
    | Dir => (Throw ECOPY, s)
    | File _ _ => (Ok tt, <[kp ++ [x] := File true data]> s)
    end.
Proof.
  intros Hks Hne Hkd Hsrc Hdest Hdiff Hpre Hpar.
  assert (names_ok kp ∧ name_ok x = true) as [Hkp Hx].
  { apply Forall_app in Hkd as [? Hx]. by rewrite Forall_singleton in Hx. }
  assert (kp ++ [x] ≠ []) as Hkdne by (by destruct kp).
  unfold copySync, bind, statSync, existsSync, ensureDirSync, unlinkSync, copyFileSync,
    readFileSync, bind, statSync, throw, ret.
  rewrite dirname_abs_path by done.
  rewrite !key_of_abs_path by done.
  rewrite (entry_ne s ks), Hsrc, (entry_ne s (kp ++ [x])), Hdest by done.
  assert (parent (kp ++ [x]) = kp) as -> by apply removelast_last.
  destruct n as [rk dk|]; [|done].
  rewrite bool_decide_false by done. rewrite bool_decide_false by done.
  rewrite Hpar. rewrite bool_decide_true by done.
  rewrite (entry_ne s (kp ++ [x])), Hdest by done.
  rewrite (entry_ne _ ks), lookup_delete_ne, Hsrc by done.
  rewrite (entry_ne _ (kp ++ [x])), lookup_delete_eq by done.
  rewrite entry_delete_snoc, Hpar. by rewrite insert_delete_eq.
Qed.

Lemma update_same o k v : Js.get o k = Some v → Js.update o k v = o.
Proof.
  induction o as [|[k' v'] o IH]; [done|]. rewrite get_cons. simpl.
  destruct (String.eqb k' k); [by intros [= ->]|]. intros H. by rewrite IH.
Qed.

Lemma get_update o k v : Js.has o k = true → Js.get (Js.update o k v) k = Some v.
Proof.
  induction o as [|[k' v'] o IH]; [done|]. unfold Js.has. simpl.
  destruct (String.eqb k' k) eqn:E; rewrite get_cons, E; [done|]. simpl. apply IH.
Qed.

Lemma has_update o k v k' : Js.has (Js.update o k v) k' = Js.has o k'.
Proof.
  induction o as [|[k0 v0] o IH]; [done|]. unfold Js.has in *. simpl.
  destruct (String.eqb k0 k); simpl; [done|]. by rewrite IH.
Qed.

Lemma get_snoc_new o k v : Js.has o k = false → Js.get (o ++ [(k, v)]) k = Some v.
Proof.
  induction o as [|[k' v'] o IH]; unfold Js.has; simpl.
  - intros _. rewrite get_cons. by rewrite String.eqb_refl.
  - rewrite get_cons. destruct (String.eqb k' k); [done|]. simpl. apply IH.
Qed.

Lemma set_set o k v : Js.set (Js.set o k v) k v = Js.set o k v.
Proof.
  unfold Js.set. destruct (String.eqb k "__proto__"); [done|].
  destruct (Js.has o k) eqn:E.
  - rewrite has_update, E. apply update_same. by apply get_update.
  - rewrite has_snoc, E, String.eqb_refl. simpl. apply update_same. by apply get_snoc_new.
Qed.

Section Taken.

Variable repo : list string.
Hypothesis repo_ok : names_ok repo.

Lemma processFile_onto_entry cat d b s data n :
  names_ok (d ++ [b]) →
  s !! (content_key repo ++ d ++ [b]) = Some (File true data) →
  s !! (public_key repo ++ d ++ [published_name b data]) = Some n →
  entry s (public_key repo ++ d) = Some Dir →
  processFile repo cat (rel_path (d ++ [b])) s =
    match n with
    | Dir => (Throw ECOPY, s)
    | File _ _ =>
        (Ok (Js.set cat (rel_path (d ++ [b])) (published_url (d ++ [b]) data)),
         <[public_key repo ++ d ++ [published_name b data] := File true data]> s)
    end.
Proof.
  intros Hks Hsrc Hdest Hpar.
  assert (d ++ [b] ≠ []) as Hne by (by destruct d).
  rewrite processFile_eq, Hsrc by done. unfold bind, ret.
  unfold published_key. rewrite published_rel_snoc.
  destruct (content_not_public repo (d ++ [b])) as [H1 H2].
  rewrite (app_assoc (public_key repo)) in *.
  rewrite (copySync_onto_entry _ _ _ _ data n); try done.
  - by destruct n.
  - apply names_ok_app; [by apply content_key_ok|done].
  - unfold content_key. by destruct repo.
  - rewrite <- app_assoc. apply names_ok_app; [by apply public_key_ok|].
    rewrite <- published_rel_snoc. by apply published_rel_ok.
  - intros E. apply H1. rewrite E, <- app_assoc. by apply prefix_app_r.
  - intros [r Hr]. apply H2. rewrite <- app_assoc in Hr.
    unfold content_key, public_key in *. rewrite <- !app_assoc in Hr.
    apply app_inv_head in Hr. simpl in Hr. discriminate.
Qed.

End Taken.

(** X24. When the place of the copy is taken by a directory, the step
    throws (fs-extra refuses to put a file over a directory) and the file
    system is left as it is. *)
Theorem processFile_destination_is_directory repo catalog d b s data :
  forallb name_ok repo = true → forallb name_ok (d ++ [b]) = true →
  s !! (content_key repo ++ d ++ [b]) = Some (File true data) →
  s !! (public_key repo ++ d ++ [hashedName b (fingerprint data)]) = Some Dir →
  entry s (public_key repo ++ d) = Some Dir →
  processFile repo catalog (js_join "/" (d ++ [b])) s = (Throw ECOPY, s).
Proof.
  intros Hrepo%forallb_names_ok Hks%forallb_names_ok Hsrc Hdest Hpar.
  exact (processFile_onto_entry repo Hrepo catalog d b s data Dir Hks Hsrc Hdest Hpar).
Qed.

Lemma processFile_destination_is_directory_witness :
  processFile sample_repo [] (js_join "/" ([] ++ ["a.txt"]))
    (<[ public_key sample_repo ++ [] ++ [hashedName "a.txt" (fingerprint (bytes_of "hello"))] := Dir ]>
       (cleared sample_repo clash_fs))
  = (Throw ECOPY,
     <[ public_key sample_repo ++ [] ++ [hashedName "a.txt" (fingerprint (bytes_of "hello"))] := Dir ]>
       (cleared sample_repo clash_fs)).
Proof.
  apply (processFile_destination_is_directory sample_repo [] [] "a.txt" _ (bytes_of "hello")).
  - vm_compute; reflexivity.
  - vm_compute; reflexivity.
  - rewrite lookup_insert_ne by discriminate. vm_compute; reflexivity.
  - by rewrite lookup_insert_eq.
  - rewrite app_nil_r. rewrite entry_ne by discriminate.
    rewrite lookup_insert_ne by discriminate. vm_compute; reflexivity.
Defined.

(** X25. Processing a file a second time changes nothing: after a step
    that went through, the same step on the same relative path goes
    through again and leaves the catalog object and the file system as
    they are. *)
Theorem processFile_twice repo catalog d b s catalog1 s1 :
  forallb name_ok repo = true → forallb name_ok (d ++ [b]) = true →
  processFile repo catalog (js_join "/" (d ++ [b])) s = (Ok catalog1, s1) →
  processFile repo catalog1 (js_join "/" (d ++ [b])) s1 = (Ok catalog1, s1).
Proof.
  intros Hrepo%forallb_names_ok Hks%forallb_names_ok Hstep.
  fold (rel_path (d ++ [b])) in *.
  assert (d ++ [b] ≠ []) as Hne by (by destruct d).
  apply (processFile_inv repo Hrepo) in Hstep as (Hframe & _ & Hs); [|done..].
  destruct (Hs catalog1 eq_refl) as (data & Hsrc & -> & Hdest & _ & _ & _ & Hpar & _).
  clear Hs.
  assert (published_key repo (d ++ [b]) data
          = public_key repo ++ d ++ [published_name b data]) as Hpk.
  { unfold published_key. by rewrite published_rel_snoc. }
  assert (parent (published_key repo (d ++ [b]) data) = public_key repo ++ d) as Hpd.
  { rewrite Hpk, app_assoc. apply removelast_last. }
  rewrite Hpk in Hdest. rewrite Hpd in Hpar.
  rewrite (processFile_onto_entry repo Hrepo _ d b s1 data (File true data)); try done.
  - by rewrite set_set, insert_id.
  - by rewrite (step_frame_content repo s s1).
Qed.

Lemma processFile_twice_witness :
  processFile sample_repo [("a.txt", "/content/a.5d41402abc4b2a76.txt")]
    (js_join "/" ([] ++ ["a.txt"]))
    (processFile sample_repo [] (js_join "/" ([] ++ ["a.txt"])) stale_copy_fs).2
  = (Ok [("a.txt", "/content/a.5d41402abc4b2a76.txt")],
     (processFile sample_repo [] (js_join "/" ([] ++ ["a.txt"])) stale_copy_fs).2).
Proof.
  apply (processFile_twice sample_repo [] [] "a.txt" stale_copy_fs).
  - vm_compute; reflexivity.
  - vm_compute; reflexivity.
  - apply run_pair. vm_compute; reflexivity.
Defined.
